(** * BeehiveMQTT: a shallow embedding of the broker core

    The development follows the Python sources module by module:
    [utils.py] (wire codec helpers), [packet.py] (PUBLISH parser and the
    packet builders), [topic.py] (subscription trie), [retained.py]
    (retained store with LRU eviction), [session.py], [qos.py] (QoS state
    machines), [router.py] (fan-out) and the PUBLISH / PUBREL handlers of
    [broker.py].

    Conventions.
    - A Python [int] is a [Z]; [bytes] and [bytearray] are lists of [Z]
      (one element per byte).
    - A Python [str] is represented by the list of its UTF-8 bytes, so that
      [encode('utf-8')] and [decode('utf-8')] are the identity.  The
      operations the broker applies to topic strings ([split('/')],
      [count('/')], [startswith('$')]) commute with this representation.
      A topic is therefore a byte list that decodes ([utf8_valid]).  On a
      byte list that does not, [decode('utf-8')] raises
      [UnicodeDecodeError]; this exception is not represented: where the
      code decodes a topic ([TopicTree._split_topic], [RetainedStore.set]
      and [clear], [_process_publish]), the functions below go on with the
      bytes as they are.  They agree with the code on every topic that
      decodes.
    - A handler runs from its first step to its last without another
      handler in between: the suspension points of the coroutines
      ([await session.send(...)]) are not represented.  The theorems
      about a handler are about one call of it.
    - A call that can raise returns a [res]; code that mutates broker
      state before raising keeps the mutated state (see [Broker.M] below).
    - [while] loops are modelled with an explicit iteration budget; the
      theorems show that the budget is never exhausted. *)

From Stdlib Require Import ZArith List Lia Bool String Ascii.
From stdpp Require Import gmap strings list fin_maps.

Local Open Scope Z_scope.

(** ** Exceptions and results *)

Inductive exn : Type :=
| ValueError (msg : string)
| IndexError
| StructError
| MQTTProtocolError (msg : string)
| KeyError
| OutOfBudget.

Inductive res (A : Type) : Type :=
| Ok (a : A)
| Raise (e : exn).
Arguments Ok {A} a.
Arguments Raise {A} e.

Definition res_bind {A B} (r : res A) (k : A -> res B) : res B :=
  match r with
  | Ok a => k a
  | Raise e => Raise e
  end.

Notation "'try!' x <- r ; k" := (res_bind r (fun x => k))
  (at level 10, x pattern, r at level 100, k at level 200).

Definition is_Ok {A} (r : res A) : bool :=
  match r with Ok _ => true | Raise _ => false end.

(** ** Python sequences *)

Abbreviation bytes := (list Z).

Definition len {A} (l : list A) : Z := Z.of_nat (length l).

(** [seq[i]] with Python's treatment of negative indices. *)
Definition py_index {A} (l : list A) (i : Z) : option A :=
  let i := if i <? 0 then i + len l else i in
  if i <? 0 then None else l !! Z.to_nat i.

(** Clamp a slice bound as Python does. *)
Definition py_clamp (n i : Z) : Z :=
  if i <? 0 then Z.max (i + n) 0 else Z.min i n.

(** [seq[a:b]]. *)
Definition py_slice {A} (l : list A) (a b : Z) : list A :=
  let a := py_clamp (len l) a in
  let b := py_clamp (len l) b in
  take (Z.to_nat (b - a)) (drop (Z.to_nat a) l).

(** [seq[a:]]. *)
Definition py_slice_from {A} (l : list A) (a : Z) : list A :=
  drop (Z.to_nat (py_clamp (len l) a)) l.

(** [x in seq] for a single byte. *)
Definition byte_in (b : Z) (s : bytes) : bool :=
  existsb (Z.eqb b) s.

Definition in_range (lo hi x : Z) : bool := (lo <=? x) && (x <=? hi).

(** The byte strings on which [b.decode('utf-8')] returns: well-formed
    UTF-8, as the strict decoder of CPython accepts it (no overlong form,
    no surrogate, nothing above U+10FFFF). *)
Fixpoint utf8_valid (s : bytes) : bool :=
  match s with
  | [] => true
  | b0 :: s1 =>
      if in_range 0 127 b0 then utf8_valid s1
      else
        match s1 with
        | [] => false
        | b1 :: s2 =>
            if in_range 194 223 b0
            then in_range 128 191 b1 && utf8_valid s2
            else
              match s2 with
              | [] => false
              | b2 :: s3 =>
                  if in_range 224 239 b0 then
                    (if b0 =? 224 then in_range 160 191 b1
                     else if b0 =? 237 then in_range 128 159 b1
                     else in_range 128 191 b1)
                    && in_range 128 191 b2 && utf8_valid s3
                  else
                    match s3 with
                    | [] => false
                    | b3 :: s4 =>
                        in_range 240 244 b0
                        && (if b0 =? 240 then in_range 144 191 b1
                            else if b0 =? 244 then in_range 128 143 b1
                            else in_range 128 191 b1)
                        && in_range 128 191 b2 && in_range 128 191 b3
                        && utf8_valid s4
                    end
              end
        end
  end.

(** [struct.pack('!H', n)]. *)
Definition pack_H (n : Z) : res bytes :=
  if (n <? 0) || (65535 <? n) then Raise StructError
  else Ok [Z.land (Z.shiftr n 8) 255; Z.land n 255].

(** [struct.unpack_from('!H', data, offset)[0]]. *)
Definition unpack_from_H (data : bytes) (offset : Z) : res Z :=
  if (offset <? 0) && (offset + len data <? 0) then Raise StructError
  else
    let offset := if offset <? 0 then offset + len data else offset in
    if len data - offset <? 2 then Raise StructError
    else
      match data !! Z.to_nat offset, data !! Z.to_nat (offset + 1) with
      | Some hi, Some lo => Ok (hi * 256 + lo)
      | _, _ => Raise StructError
      end.

(** ** utils.py *)

Module Utils.

(** Body of the [while True] loop of [encode_remaining_length]. *)
Fixpoint encode_loop (budget : nat) (length : Z) (result : bytes)
  : res bytes :=
  match budget with
  | O => Raise OutOfBudget
  | S budget' =>
      let byte := length mod 128 in
      let length := length / 128 in
      let byte := if 0 <? length then Z.lor byte 128 else byte in
      let result := result ++ [byte] in
      if length =? 0 then Ok result
      else encode_loop budget' length result
  end.

(** After the range check the loop runs at most four times, since
    268435455 < 128^4. *)
Definition encode_remaining_length (length : Z) : res bytes :=
  if (length <? 0) || (268435455 <? length)
  then Raise (ValueError "Remaining length must be 0-268435455")
  else encode_loop 4 length [].

(** Body of the [while True] loop of [decode_remaining_length]. *)
Fixpoint decode_loop (budget : nat) (data : bytes) (offset : Z)
    (multiplier value byte_count : Z) : res (Z * Z) :=
  match budget with
  | O => Raise OutOfBudget
  | S budget' =>
      if 4 <=? byte_count
      then Raise (ValueError "Malformed remaining length")
      else
        match py_index data (offset + byte_count) with
        | None => Raise IndexError
        | Some byte =>
            let byte_count := byte_count + 1 in
            let value := value + Z.land byte 127 * multiplier in
            if Z.land byte 128 =? 0 then Ok (value, byte_count)
            else decode_loop budget' data offset (multiplier * 128)
                   value byte_count
        end
  end.

(** The fifth iteration always raises, so five iterations are enough. *)
Definition decode_remaining_length (data : bytes) (offset : Z)
  : res (Z * Z) :=
  decode_loop 5 data offset 1 0 0.

Definition encode_utf8_string (s : bytes) : res bytes :=
  try! prefix <- pack_H (len s);
  Ok (prefix ++ s).

Definition decode_utf8_string (data : bytes) (offset : Z)
  : res (bytes * Z) :=
  try! length <- unpack_from_H data offset;
  let string_data := py_slice data (offset + 2) (offset + 2 + length) in
  Ok (string_data, offset + 2 + length).

Definition validate_topic_name (topic : bytes) (max_length : Z)
  : res bool :=
  if len topic =? 0 then Raise (ValueError "Topic name cannot be empty")
  else if max_length <? len topic
  then Raise (ValueError "Topic name exceeds maximum length")
  else if byte_in 43 topic || byte_in 35 topic
  then Raise (ValueError "Topic name cannot contain wildcards")
  else Ok true.

(** The default value of [max_length] in [validate_topic_name]. *)
Definition default_max_length : Z := 256.

End Utils.

(** ** packet.py *)

Module Packet.

Definition PUBLISH : Z := 3.

Record PublishData := mkPublishData {
  topic : bytes;
  payload : bytes;
  qos : Z;
  retain : bool;
  dup : bool;
  packet_id : option Z
}.

(** [bool(x)] for an integer. *)
Definition py_bool (x : Z) : bool := negb (x =? 0).

(** [int(b)] for a boolean. *)
Definition py_int (b : bool) : Z := if b then 1 else 0.

Definition parse_publish (data : bytes) (flags : Z) : res PublishData :=
  if len data <? 2 then Raise (MQTTProtocolError "PUBLISH packet too short")
  else
    let dup := py_bool (Z.land (Z.shiftr flags 3) 1) in
    let qos := Z.land (Z.shiftr flags 1) 3 in
    let retain := py_bool (Z.land flags 1) in
    if 2 <? qos then Raise (MQTTProtocolError "Invalid PUBLISH QoS")
    else
      try! (topic, offset) <- Utils.decode_utf8_string data 0;
      if len topic =? 0
      then Raise (MQTTProtocolError "Empty topic in PUBLISH")
      else if byte_in 43 topic || byte_in 35 topic
      then Raise (MQTTProtocolError "Wildcards not allowed in PUBLISH topic")
      else if 0 <? qos then
        if len data <? offset + 2
        then Raise (MQTTProtocolError "Missing packet ID in PUBLISH")
        else
          try! pid <- unpack_from_H data offset;
          let offset := offset + 2 in
          if pid =? 0 then Raise (MQTTProtocolError "Packet ID cannot be 0")
          else Ok (mkPublishData topic (py_slice_from data offset) qos
                     retain dup (Some pid))
      else Ok (mkPublishData topic (py_slice_from data offset) qos
                 retain dup None).

(** The packet is assembled by slice assignment into a pre-sized
    [bytearray]; the slices are adjacent and cover it, so the result is
    the concatenation of the four parts. *)
Definition build_publish (topic payload : bytes) (qos : Z)
    (retain dup : bool) (packet_id : option Z) : res bytes :=
  if 2 <? qos then Raise (MQTTProtocolError "Invalid QoS")
  else if (0 <? qos) && bool_decide (packet_id = None)
  then Raise (MQTTProtocolError "Packet ID required for QoS > 0")
  else if (0 <? qos) && bool_decide (packet_id = Some 0)
  then Raise (MQTTProtocolError "Packet ID cannot be 0")
  else
    let first_byte :=
      Z.lor (Z.lor (Z.lor (Z.shiftl PUBLISH 4) (Z.shiftl (py_int dup) 3))
               (Z.shiftl qos 1)) (py_int retain) in
    try! topic_encoded <- Utils.encode_utf8_string topic;
    try! variable_header <-
      (if 0 <? qos then
         match packet_id with
         | Some pid =>
             try! packet_id_bytes <- pack_H pid;
             Ok (topic_encoded ++ packet_id_bytes)
         | None => Raise StructError
         end
       else Ok topic_encoded);
    let remaining_length := len variable_header + len payload in
    try! remaining_length_bytes <-
      Utils.encode_remaining_length remaining_length;
    Ok ([first_byte] ++ remaining_length_bytes ++ variable_header
          ++ payload).

Definition build_puback (packet_id : Z) : res bytes :=
  try! pid <- pack_H packet_id; Ok ([64; 2] ++ pid).

Definition build_pubrec (packet_id : Z) : res bytes :=
  try! pid <- pack_H packet_id; Ok ([80; 2] ++ pid).

Definition build_pubrel (packet_id : Z) : res bytes :=
  try! pid <- pack_H packet_id; Ok ([98; 2] ++ pid).

Definition build_pubcomp (packet_id : Z) : res bytes :=
  try! pid <- pack_H packet_id; Ok ([112; 2] ++ pid).

(** Reading back the fixed header of a packet: type and QoS bits. *)
Definition packet_type (pkt : bytes) : option Z :=
  match pkt with
  | b :: _ => Some (Z.land (Z.shiftr b 4) 15)
  | [] => None
  end.

Definition packet_qos (pkt : bytes) : option Z :=
  match pkt with
  | b :: _ => Some (Z.land (Z.shiftr b 1) 3)
  | [] => None
  end.

End Packet.

(** ** Python dictionaries

    A [dict] keeps its keys in insertion order and the broker iterates over
    several of them, so a dictionary that is iterated is an association
    list in insertion order.  Assigning to a key that is present replaces
    the value in place. *)

Section Dict.
Context {K V : Type} `{EqDecision K}.

Fixpoint dict_get (d : list (K * V)) (k : K) : option V :=
  match d with
  | [] => None
  | (k', v) :: d' => if decide (k' = k) then Some v else dict_get d' k
  end.

Definition dict_mem (d : list (K * V)) (k : K) : bool :=
  match dict_get d k with Some _ => true | None => false end.

Fixpoint dict_set (d : list (K * V)) (k : K) (v : V) : list (K * V) :=
  match d with
  | [] => [(k, v)]
  | (k', v') :: d' =>
      if decide (k' = k) then (k', v) :: d'
      else (k', v') :: dict_set d' k v
  end.

(** [d.update(other)]. *)
Definition dict_update (d other : list (K * V)) : list (K * V) :=
  fold_left (fun acc kv => dict_set acc kv.1 kv.2) other d.

Definition dict_values (d : list (K * V)) : list V := map snd d.
End Dict.

(** ** topic.py *)

Module Topic.

#[local] Unset Elimination Schemes.
Inductive TopicNode : Type :=
  mkTopicNode {
    children : option (list (bytes * TopicNode));
    subscribers : list (string * Z);
    retained : option (bytes * bytes * Z)
  }.
#[local] Set Elimination Schemes.

(** [TopicNode()] *)
Definition new_node : TopicNode := mkTopicNode None [] None.

Definition _ensure_children (node : TopicNode)
  : list (bytes * TopicNode) :=
  match children node with
  | None => []
  | Some ch => ch
  end.

(** Truth value of [node.children]: [None] and the empty dict are false. *)
Definition has_children (node : TopicNode) : bool :=
  match children node with
  | None | Some [] => false
  | Some (_ :: _) => true
  end.

(** [key in node.children], guarded by the truth value of the dict. *)
Definition child (node : TopicNode) (key : bytes) : option TopicNode :=
  dict_get (_ensure_children node) key.

Definition SLASH : Z := 47.
Definition DOLLAR : Z := 36.
Definition PLUS : bytes := [43].
Definition HASH : bytes := [35].

(** [s.split(sep)] for a one-character separator. *)
Fixpoint split_on (sep : Z) (s : bytes) : list bytes :=
  match s with
  | [] => [[]]
  | c :: s' =>
      if c =? sep then [] :: split_on sep s'
      else match split_on sep s' with
           | [] => [[c]]
           | l :: ls => (c :: l) :: ls
           end
  end.

(** [_split_topic]: the code decodes a [bytes] topic before it splits
    it, and raises [UnicodeDecodeError] on bytes that do not decode.  The
    split below is what it returns on a topic that decodes
    ([utf8_valid]); the exception is not represented. *)
Definition _split_topic (topic : bytes) : list bytes :=
  split_on SLASH topic.

(** [level.startswith('$')] *)
Definition starts_with_dollar (level : bytes) : bool :=
  match level with
  | c :: _ => c =? DOLLAR
  | [] => false
  end.

(** The loop "navigate or create a node for each level", followed by an
    update of the node that is reached.  The Python code mutates the
    nodes in place; here the path is rebuilt. *)
Fixpoint navigate_create (levels : list bytes)
    (f : TopicNode -> TopicNode) (node : TopicNode) : TopicNode :=
  match levels with
  | [] => f node
  | level :: rest =>
      let ch := _ensure_children node in
      let next :=
        match dict_get ch level with
        | Some c => c
        | None => new_node
        end in
      mkTopicNode (Some (dict_set ch level (navigate_create rest f next)))
        (subscribers node) (retained node)
  end.

(** The loop "navigate to the node, give up if a level is missing". *)
Fixpoint navigate (levels : list bytes) (node : TopicNode)
  : option TopicNode :=
  match levels with
  | [] => Some node
  | level :: rest =>
      if has_children node then
        match child node level with
        | Some c => navigate rest c
        | None => None
        end
      else None
  end.

Definition subscribe (root : TopicNode) (topic_filter : bytes)
    (client_id : string) (qos : Z) : TopicNode :=
  navigate_create (_split_topic topic_filter)
    (fun node => mkTopicNode (children node)
                   (dict_set (subscribers node) client_id qos)
                   (retained node))
    root.

(** One iteration of the [while stack:] loop of [match], for the entry
    [(node, level_idx)] that was popped.  The stack is a list whose head
    is the top.  [levels[level_idx]] raises [IndexError] out of range. *)
Definition match_step (levels : list bytes) (node : TopicNode)
    (level_idx : nat) (stack : list (TopicNode * nat))
    (result : list (string * Z))
  : res (list (TopicNode * nat) * list (string * Z)) :=
  if bool_decide (level_idx = length levels) then
    let result := dict_update result (subscribers node) in
    let result :=
      if has_children node then
        match child node HASH with
        | Some h => dict_update result (subscribers h)
        | None => result
        end
      else result in
    Ok (stack, result)
  else
    match levels !! level_idx with
    | None => Raise IndexError
    | Some current_level =>
        let is_first_level := bool_decide (level_idx = 0%nat) in
        let is_system_topic :=
          is_first_level && starts_with_dollar current_level in
        if negb (has_children node) then Ok (stack, result)
        else
          let stack :=
            match child node current_level with
            | Some c => (c, S level_idx) :: stack
            | None => stack
            end in
          let stack :=
            match child node PLUS with
            | Some c =>
                if negb is_system_topic then (c, S level_idx) :: stack
                else stack
            | None => stack
            end in
          let result :=
            match child node HASH with
            | Some h =>
                if negb is_system_topic
                then dict_update result (subscribers h)
                else result
            | None => result
            end in
          Ok (stack, result)
    end.

Fixpoint match_loop (budget : nat) (levels : list bytes)
    (stack : list (TopicNode * nat)) (result : list (string * Z))
  : res (list (string * Z)) :=
  match budget with
  | O => Raise OutOfBudget
  | S budget' =>
      match stack with
      | [] => Ok result
      | (node, level_idx) :: stack' =>
          match match_step levels node level_idx stack' result with
          | Ok (stack'', result') =>
              match_loop budget' levels stack'' result'
          | Raise e => Raise e
          end
      end
  end.

(** Every iteration pops one entry and pushes at most two entries one
    level deeper, so [3 ^ len(levels)] iterations (plus the final test)
    are enough. *)
Definition match_budget (levels : list bytes) : nat :=
  S (3 ^ length levels)%nat.

Definition match_ (root : TopicNode) (topic_name : bytes)
  : res (list (string * Z)) :=
  let levels := _split_topic topic_name in
  match_loop (match_budget levels) levels [(root, 0%nat)] [].

Definition set_retained (root : TopicNode) (topic_name payload : bytes)
    (qos : Z) : TopicNode :=
  navigate_create (_split_topic topic_name)
    (fun node =>
       mkTopicNode (children node) (subscribers node)
         (if len payload =? 0 then None
          else Some (topic_name, payload, qos)))
    root.

Definition get_retained (root : TopicNode) (topic_name : bytes)
  : option (bytes * bytes * Z) :=
  match navigate (_split_topic topic_name) root with
  | Some node => retained node
  | None => None
  end.

(** Number of nodes of a subtree. *)
Fixpoint node_count (node : TopicNode) : nat :=
  match node with
  | mkTopicNode ch _ _ =>
      S (match ch with
         | None => 0%nat
         | Some l =>
             (fix go (l : list (bytes * TopicNode)) : nat :=
                match l with
                | [] => 0%nat
                | kc :: l' => (node_count kc.2 + go l')%nat
                end) l
         end)
  end.

(** [for child in node.children.values(): stack.append(child)] *)
Definition push_children (node : TopicNode) (stack : list TopicNode)
  : list TopicNode :=
  if has_children node
  then fold_left (fun st c => c :: st)
         (dict_values (_ensure_children node)) stack
  else stack.

Fixpoint count_loop (budget : nat) (stack : list TopicNode) (count : Z)
  : res Z :=
  match budget with
  | O => Raise OutOfBudget
  | S budget' =>
      match stack with
      | [] => Ok count
      | node :: stack' =>
          let count :=
            match retained node with
            | Some _ => count + 1
            | None => count
            end in
          count_loop budget' (push_children node stack') count
      end
  end.

(** The walk pops every node once. *)
Definition get_retained_count (root : TopicNode) : res Z :=
  count_loop (S (node_count root)) [root] 0.

End Topic.

(** ** config.py *)

Module Config.

(** The fields of [BrokerConfig] that the modelled code reads, and
    [max_topic_length], which the configuration declares. *)
Record BrokerConfig := mkBrokerConfig {
  max_topic_length : Z;
  max_topic_levels : Z;
  max_payload_size : Z;
  max_queued_messages : Z;
  max_inflight : Z;
  max_retained_messages : Z;
  retain_enabled : bool;
  qos2_enabled : bool
}.

(** [BrokerConfig()] *)
Definition default : BrokerConfig :=
  mkBrokerConfig 256 8 4096 50 10 100 true true.

(** The checks of [validate] on the fields above, in source order. *)
Definition validate (c : BrokerConfig) : res unit :=
  if max_payload_size c <? 1
  then Raise (ValueError "max_payload_size must be >= 1")
  else if negb ((1 <=? max_topic_length c) && (max_topic_length c <=? 65535))
  then Raise (ValueError "max_topic_length must be in range 1-65535")
  else if max_topic_levels c <? 1
  then Raise (ValueError "max_topic_levels must be >= 1")
  else if max_queued_messages c <? 0
  then Raise (ValueError "max_queued_messages must be >= 0")
  else if max_inflight c <? 1
  then Raise (ValueError "max_inflight must be >= 1")
  else if max_retained_messages c <? 0
  then Raise (ValueError "max_retained_messages must be >= 0")
  else Ok tt.

End Config.

(** ** retained.py *)

Module Retained.
Import Config.

(** The store shares the topic tree with the router: both hold the same
    object, which lives here. *)
Record RetainedStore := mkRetainedStore {
  topic_tree : Topic.TopicNode;
  _lru_order : list bytes
}.

(** [RetainedStore(TopicTree(), config)] *)
Definition empty : RetainedStore := mkRetainedStore Topic.new_node [].

(** [l.remove(x)] inside [try: ... except ValueError: pass]. *)
Fixpoint list_remove (x : bytes) (l : list bytes) : list bytes :=
  match l with
  | [] => []
  | y :: l' => if decide (y = x) then l' else y :: list_remove x l'
  end.

Definition _touch_lru (lru : list bytes) (topic_key : bytes)
  : list bytes :=
  list_remove topic_key lru ++ [topic_key].

Definition _remove_lru (lru : list bytes) (topic_key : bytes)
  : list bytes :=
  list_remove topic_key lru.

Definition count (st : RetainedStore) : res Z :=
  Topic.get_retained_count (topic_tree st).

(** The eviction step of [set]: taken when the topic has no retained
    message yet and the count has reached the cap. *)
Definition evict (st : RetainedStore) : RetainedStore :=
  match _lru_order st with
  | evict_key :: lru' =>
      mkRetainedStore (Topic.set_retained (topic_tree st) evict_key [] 0)
        lru'
  | [] => st
  end.

(** [set]: with retained messages enabled the code first decodes a
    [bytes] topic for the LRU key, and raises [UnicodeDecodeError] on
    bytes that do not decode.  The function below is [set] on a topic
    that decodes ([utf8_valid]); the exception is not represented. *)
Definition set (config : BrokerConfig) (st : RetainedStore)
    (topic payload : bytes) (qos : Z) : res (RetainedStore * bool) :=
  if negb (retain_enabled config) then Ok (st, false)
  else
    let topic_key := topic in
    if len payload =? 0 then
      Ok (mkRetainedStore (Topic.set_retained (topic_tree st) topic [] 0)
            (_remove_lru (_lru_order st) topic_key), true)
    else
      let existing := Topic.get_retained (topic_tree st) topic in
      try! st <-
        (match existing with
         | None =>
             try! current_count <- count st;
             if max_retained_messages config <=? current_count
             then Ok (evict st)
             else Ok st
         | Some _ => Ok st
         end);
      Ok (mkRetainedStore
            (Topic.set_retained (topic_tree st) topic payload qos)
            (_touch_lru (_lru_order st) topic_key), true).

(** [clear(topic)] with a topic given, on a topic that decodes
    ([utf8_valid]).  The call [clear()] without a topic, which empties
    the store through [_clear_all], is not modelled, and no theorem below
    is about it. *)
Definition clear (st : RetainedStore) (topic : bytes) : RetainedStore :=
  mkRetainedStore (Topic.set_retained (topic_tree st) topic [] 0)
    (_remove_lru (_lru_order st) topic).

End Retained.

(** ** qos.py: entries of the pending tables *)

Module QoS.

Record QoS1Outbound := mkQoS1Outbound {
  q1_packet_id : Z;
  q1_topic : bytes;
  q1_payload : bytes;
  q1_qos : Z;
  q1_retry_count : Z;
  q1_timestamp : Z
}.

Inductive QoS2InboundState := PUBREC_SENT | PUBCOMP_SENT.

Record QoS2Inbound := mkQoS2Inbound {
  q2i_packet_id : Z;
  q2i_topic : bytes;
  q2i_payload : bytes;
  q2i_retain : bool;
  q2i_state : QoS2InboundState;
  q2i_timestamp : Z
}.

Inductive QoS2OutboundState := AWAITING_PUBREC | AWAITING_PUBCOMP | COMPLETE.

Record QoS2Outbound := mkQoS2Outbound {
  q2o_packet_id : Z;
  q2o_topic : bytes;
  q2o_payload : bytes;
  q2o_state : QoS2OutboundState;
  q2o_retry_count : Z;
  q2o_timestamp : Z
}.

End QoS.

(** ** session.py *)

Module Session.
Import QoS.

(** The stream writer of a connection: the chunks written so far, and
    whether the transport is broken (a write then raises [OSError]). *)
Record Writer := mkWriter {
  written : list bytes;
  broken : bool
}.

Record ClientSession := mkClientSession {
  client_id : string;
  clean_session : bool;
  connected : bool;
  writer : Writer;
  packet_id_counter : Z;
  pending_qos1 : gmap Z QoS1Outbound;
  pending_qos2 : gmap Z QoS2Inbound;
  pending_qos2_out : gmap Z QoS2Outbound;
  queued_messages : list (bytes * bytes * Z)
}.

(** [ClientSession(client_id, clean_session)] with a writer installed,
    as the CONNECT handler does before it stores the session. *)
Definition new (cid : string) (clean : bool) : ClientSession :=
  mkClientSession cid clean false (mkWriter [] false) 0 ∅ ∅ ∅ [].

Definition set_connected (s : ClientSession) (c : bool) :=
  mkClientSession (client_id s) (clean_session s) c (writer s)
    (packet_id_counter s) (pending_qos1 s) (pending_qos2 s)
    (pending_qos2_out s) (queued_messages s).

Definition set_writer (s : ClientSession) (w : Writer) :=
  mkClientSession (client_id s) (clean_session s) (connected s) w
    (packet_id_counter s) (pending_qos1 s) (pending_qos2 s)
    (pending_qos2_out s) (queued_messages s).

Definition set_packet_id_counter (s : ClientSession) (n : Z) :=
  mkClientSession (client_id s) (clean_session s) (connected s) (writer s)
    n (pending_qos1 s) (pending_qos2 s)
    (pending_qos2_out s) (queued_messages s).

Definition set_pending_qos1 (s : ClientSession) (m : gmap Z QoS1Outbound) :=
  mkClientSession (client_id s) (clean_session s) (connected s) (writer s)
    (packet_id_counter s) m (pending_qos2 s)
    (pending_qos2_out s) (queued_messages s).

Definition set_pending_qos2 (s : ClientSession) (m : gmap Z QoS2Inbound) :=
  mkClientSession (client_id s) (clean_session s) (connected s) (writer s)
    (packet_id_counter s) (pending_qos1 s) m
    (pending_qos2_out s) (queued_messages s).

Definition set_pending_qos2_out (s : ClientSession)
    (m : gmap Z QoS2Outbound) :=
  mkClientSession (client_id s) (clean_session s) (connected s) (writer s)
    (packet_id_counter s) (pending_qos1 s) (pending_qos2 s)
    m (queued_messages s).

Definition set_queued_messages (s : ClientSession)
    (q : list (bytes * bytes * Z)) :=
  mkClientSession (client_id s) (clean_session s) (connected s) (writer s)
    (packet_id_counter s) (pending_qos1 s) (pending_qos2 s)
    (pending_qos2_out s) q.

Definition next_packet_id (s : ClientSession) : ClientSession * Z :=
  let c := packet_id_counter s + 1 in
  let c := if 65535 <? c then 1 else c in
  (set_packet_id_counter s c, c).

(** [send]: a failed write is caught and marks the session as not
    connected. *)
Definition send (s : ClientSession) (data : bytes) : ClientSession :=
  if broken (writer s) then set_connected s false
  else set_writer s (mkWriter (written (writer s) ++ [data]) false).

(** [queue_message]: [pop(0)] raises [IndexError] on an empty list. *)
Definition queue_message (s : ClientSession) (topic payload : bytes)
    (qos : Z) (max_queued : Z) : res ClientSession :=
  try! q <-
    (if max_queued <=? len (queued_messages s) then
       match queued_messages s with
       | [] => Raise IndexError
       | _ :: q' => Ok q'
       end
     else Ok (queued_messages s));
  Ok (set_queued_messages s (q ++ [(topic, payload, qos)])).

End Session.

(** ** qos.py: the manager *)

Module QoSManager.
Import QoS Session.

(** [now] is the value read from [ticks_ms()]. *)
Definition track_outbound_qos1 (now : Z) (s : ClientSession)
    (packet_id : Z) (topic payload : bytes) (qos : Z) : ClientSession :=
  let entry := mkQoS1Outbound packet_id topic payload qos 0 now in
  set_pending_qos1 s (<[packet_id := entry]> (pending_qos1 s)).

Definition handle_puback (s : ClientSession) (packet_id : Z)
  : ClientSession * bool :=
  match pending_qos1 s !! packet_id with
  | Some _ => (set_pending_qos1 s (delete packet_id (pending_qos1 s)), true)
  | None => (s, false)
  end.

Definition track_inbound_qos2 (now : Z) (s : ClientSession)
    (packet_id : Z) (topic payload : bytes) (retain : bool)
  : ClientSession :=
  let entry :=
    mkQoS2Inbound packet_id topic payload retain PUBREC_SENT now in
  set_pending_qos2 s (<[packet_id := entry]> (pending_qos2 s)).

Definition handle_pubrel (s : ClientSession) (packet_id : Z)
  : ClientSession * option (bytes * bytes * bool) :=
  match pending_qos2 s !! packet_id with
  | None => (s, None)
  | Some entry =>
      let entry' :=
        mkQoS2Inbound (q2i_packet_id entry) (q2i_topic entry)
          (q2i_payload entry) (q2i_retain entry) PUBCOMP_SENT
          (q2i_timestamp entry) in
      (set_pending_qos2 s (<[packet_id := entry']> (pending_qos2 s)),
       Some (q2i_topic entry, q2i_payload entry, q2i_retain entry))
  end.

Definition track_outbound_qos2 (now : Z) (s : ClientSession)
    (packet_id : Z) (topic payload : bytes) : ClientSession :=
  let entry := mkQoS2Outbound packet_id topic payload AWAITING_PUBREC 0 now in
  set_pending_qos2_out s (<[packet_id := entry]> (pending_qos2_out s)).

Definition handle_pubrec (now : Z) (s : ClientSession) (packet_id : Z)
  : ClientSession * bool :=
  match pending_qos2_out s !! packet_id with
  | None => (s, false)
  | Some entry =>
      match q2o_state entry with
      | AWAITING_PUBREC =>
          let entry' :=
            mkQoS2Outbound (q2o_packet_id entry) (q2o_topic entry)
              (q2o_payload entry) AWAITING_PUBCOMP (q2o_retry_count entry)
              now in
          (set_pending_qos2_out s
             (<[packet_id := entry']> (pending_qos2_out s)), true)
      | _ => (s, false)
      end
  end.

Definition handle_pubcomp (s : ClientSession) (packet_id : Z)
  : ClientSession * bool :=
  match pending_qos2_out s !! packet_id with
  | Some _ =>
      (set_pending_qos2_out s (delete packet_id (pending_qos2_out s)),
       true)
  | None =>
      match pending_qos2 s !! packet_id with
      | Some _ =>
          (set_pending_qos2 s (delete packet_id (pending_qos2 s)), true)
      | None => (s, false)
      end
  end.

Definition get_inflight_count (s : ClientSession) : Z :=
  Z.of_nat (size (pending_qos1 s)) + Z.of_nat (size (pending_qos2 s))
  + Z.of_nat (size (pending_qos2_out s)).

End QoSManager.

(** ** The broker state and the monad of its handlers

    The broker runs its handlers on a single-threaded event loop.  A
    handler is a function from broker state to broker state and a result:
    at the points where it awaits a write, no other task is taken to
    change the broker state.  State written before an exception is raised
    stays written. *)

Module Broker.
Import Config Session.

Record BrokerStats := mkBrokerStats {
  messages_sent : Z;
  publishes_received : Z;
  publishes_sent : Z
}.

Record State := mkState {
  config : BrokerConfig;
  sessions : gmap string ClientSession;
  retained_store : Retained.RetainedStore;
  stats : BrokerStats;
  clock : Z
}.

Definition set_sessions (b : State) (m : gmap string ClientSession) :=
  mkState (config b) m (retained_store b) (stats b) (clock b).

Definition set_retained_store (b : State) (r : Retained.RetainedStore) :=
  mkState (config b) (sessions b) r (stats b) (clock b).

Definition set_stats (b : State) (st : BrokerStats) :=
  mkState (config b) (sessions b) (retained_store b) st (clock b).

Definition topic_tree (b : State) : Topic.TopicNode :=
  Retained.topic_tree (retained_store b).

Definition set_topic_tree (b : State) (t : Topic.TopicNode) :=
  set_retained_store b
    (Retained.mkRetainedStore t (Retained._lru_order (retained_store b))).

Definition M (A : Type) : Type := State -> State * res A.

Definition ret {A} (a : A) : M A := fun b => (b, Ok a).

Definition bind {A B} (m : M A) (k : A -> M B) : M B :=
  fun b =>
    match m b with
    | (b', Ok a) => k a b'
    | (b', Raise e) => (b', Raise e)
    end.

Definition get : M State := fun b => (b, Ok b).

Definition modify (f : State -> State) : M unit := fun b => (f b, Ok tt).

(** A pure computation that may raise. *)
Definition lift {A} (r : res A) : M A := fun b => (b, r).

(** [try: m except Exception: handler] *)
Definition catch {A} (m : M A) (handler : exn -> M A) : M A :=
  fun b =>
    match m b with
    | (b', Ok a) => (b', Ok a)
    | (b', Raise e) => handler e b'
    end.

End Broker.

Notation "'do!' x <- m ; k" := (Broker.bind m (fun x => k))
  (at level 10, x pattern, m at level 100, k at level 200).
Notation "m ;; k" := (Broker.bind m (fun _ => k))
  (at level 100, k at level 200, right associativity).

(** ** router.py *)

Module Router.
Import Config Session Broker.

(** The optional collaborators of [MessageRouter.__init__]. *)
Record Options := mkOptions {
  with_qos_manager : bool;
  with_retained_store : bool;
  with_stats : bool
}.

(** The router that [MQTTBroker.__init__] builds. *)
Definition full : Options := mkOptions true true true.

(** Run a session method on the session stored under [cid].  The
    handlers receive the session object that the table holds under its
    client id; [KeyError] stands for a session that is not in the table. *)
Definition on_session {A} (cid : string)
    (f : ClientSession -> res (ClientSession * A)) : M A :=
  fun b =>
    match sessions b !! cid with
    | None => (b, Raise KeyError)
    | Some s =>
        match f s with
        | Ok (s', a) => (set_sessions b (<[cid := s']> (sessions b)), Ok a)
        | Raise e => (b, Raise e)
        end
    end.

Definition session_send (cid : string) (data : bytes) : M unit :=
  on_session cid (fun s => Ok (send s data, tt)).

Definition session_queue_message (cid : string) (topic payload : bytes)
    (qos max_queued : Z) : M unit :=
  on_session cid (fun s =>
    try! s' <- queue_message s topic payload qos max_queued; Ok (s', tt)).

Definition session_next_packet_id (cid : string) : M Z :=
  on_session cid (fun s => Ok (next_packet_id s)).

Definition count_sent (opts : Options) : M unit :=
  if with_stats opts then
    modify (fun b =>
      set_stats b (mkBrokerStats (messages_sent (stats b) + 1)
                     (publishes_received (stats b))
                     (publishes_sent (stats b) + 1)))
  else ret tt.

Definition inflight_full (opts : Options) (cid : string) : M bool :=
  do! b <- get;
  do! n <- on_session cid (fun s =>
             Ok (s, QoSManager.get_inflight_count s));
  ret (with_qos_manager opts && (max_inflight (config b) <=? n)).

(** [_send_to_subscriber].  The coroutine is suspended at
    [await session.send(packet)], between the test of the in-flight
    window and the tracking of the packet; another handler can run on the
    same session there.  This is not represented: the steps below follow
    one another, so what is shown about them holds for a call that no
    other handler interleaves with. *)
Definition _send_to_subscriber (opts : Options) (cid : string)
    (topic payload : bytes) (effective_qos : Z) : M unit :=
  do! b <- get;
  if effective_qos =? 0 then
    do! pkt <- lift (Packet.build_publish topic payload 0 false false None);
    session_send cid pkt;;
    count_sent opts
  else if effective_qos =? 1 then
    do! full <- inflight_full opts cid;
    if full then
      session_queue_message cid topic payload effective_qos
        (max_queued_messages (config b))
    else
      do! pid <- session_next_packet_id cid;
      do! pkt <- lift (Packet.build_publish topic payload 1 false false
                         (Some pid));
      session_send cid pkt;;
      (if with_qos_manager opts then
         on_session cid (fun s =>
           Ok (QoSManager.track_outbound_qos1 (clock b) s pid topic
                 payload 1, tt))
       else ret tt);;
      count_sent opts
  else if effective_qos =? 2 then
    do! full <- inflight_full opts cid;
    if full then
      session_queue_message cid topic payload effective_qos
        (max_queued_messages (config b))
    else
      do! pid <- session_next_packet_id cid;
      do! pkt <- lift (Packet.build_publish topic payload 2 false false
                         (Some pid));
      session_send cid pkt;;
      (if with_qos_manager opts then
         on_session cid (fun s =>
           Ok (QoSManager.track_outbound_qos2 (clock b) s pid topic
                 payload, tt))
       else ret tt);;
      count_sent opts
  else count_sent opts.

(** The first part of [route_publish]: retained message storage. *)
Definition store_retained (opts : Options) (topic payload : bytes)
    (qos : Z) (retain : bool) : M unit :=
  do! b <- get;
  if retain && retain_enabled (config b) then
    if with_retained_store opts then
      if len payload =? 0 then
        modify (fun b =>
          set_retained_store b (Retained.clear (retained_store b) topic))
      else
        do! r <- lift (Retained.set (config b) (retained_store b) topic
                         payload qos);
        modify (fun b => set_retained_store b r.1)
    else
      if len payload =? 0 then
        modify (fun b =>
          set_topic_tree b (Topic.set_retained (topic_tree b) topic [] 0))
      else
        modify (fun b =>
          set_topic_tree b
            (Topic.set_retained (topic_tree b) topic payload qos))
  else ret tt.

(** The body of the loop over the matching subscribers. *)
Definition route_to (opts : Options) (topic payload : bytes) (qos : Z)
    (sender_id : option string) (client_id : string) (granted_qos : Z)
  : M unit :=
  if bool_decide (Some client_id = sender_id) then ret tt
  else
    let effective_qos := Z.min qos granted_qos in
    do! b <- get;
    match sessions b !! client_id with
    | None => ret tt
    | Some session =>
        if connected session then
          _send_to_subscriber opts client_id topic payload effective_qos
        else if negb (clean_session session) && (0 <? effective_qos) then
          session_queue_message client_id topic payload effective_qos
            (max_queued_messages (config b))
        else ret tt
    end.

Fixpoint route_all (opts : Options) (topic payload : bytes) (qos : Z)
    (sender_id : option string) (subscribers : list (string * Z))
  : M unit :=
  match subscribers with
  | [] => ret tt
  | (client_id, granted_qos) :: rest =>
      route_to opts topic payload qos sender_id client_id granted_qos;;
      route_all opts topic payload qos sender_id rest
  end.

Definition route_publish (opts : Options) (topic payload : bytes)
    (qos : Z) (retain : bool) (sender_id : option string) : M unit :=
  store_retained opts topic payload qos retain;;
  do! b <- get;
  do! subscribers <- lift (Topic.match_ (topic_tree b) topic);
  route_all opts topic payload qos sender_id subscribers.

End Router.

(** ** broker.py: the PUBLISH and acknowledgement handlers *)

Module Handlers.
Import Config Session Broker Router.

Record MessageContext := mkMessageContext {
  ctx_topic : bytes;
  ctx_payload : bytes;
  ctx_qos : Z;
  ctx_retain : bool;
  ctx_sender_id : string;
  _dropped : bool
}.

(** [ctx.drop()] *)
Definition drop (ctx : MessageContext) : MessageContext :=
  mkMessageContext (ctx_topic ctx) (ctx_payload ctx) (ctx_qos ctx)
    (ctx_retain ctx) (ctx_sender_id ctx) true.

(** An interceptor mutates the context it is given; an exception it
    raises is caught and logged, so only the context it leaves behind
    matters. *)
Definition Interceptor : Type := MessageContext -> MessageContext.

(** What the broker was configured with: the [authorize_publish] method
    of the auth provider, when there is one, and the interceptors in
    registration order. *)
Record Env := mkEnv {
  authorize_publish : option (string -> bytes -> bool);
  interceptors : list Interceptor
}.

(** The [for intercept in self._interceptors] loop; [None] is the early
    [return] taken when the context is marked as dropped. *)
Fixpoint run_interceptors (ics : list Interceptor) (ctx : MessageContext)
  : option MessageContext :=
  match ics with
  | [] => Some ctx
  | intercept :: rest =>
      let ctx := intercept ctx in
      if _dropped ctx then None else run_interceptors rest ctx
  end.

(** [s.count('/')] *)
Definition count_slash (s : bytes) : Z :=
  Z.of_nat (count_occ Z.eq_dec s Topic.SLASH).

Definition count_message_sent : M unit :=
  modify (fun b =>
    set_stats b (mkBrokerStats (messages_sent (stats b) + 1)
                   (publishes_received (stats b))
                   (publishes_sent (stats b)))).

Definition count_publish_received : M unit :=
  modify (fun b =>
    set_stats b (mkBrokerStats (messages_sent (stats b))
                   (publishes_received (stats b) + 1)
                   (publishes_sent (stats b)))).

(** [await session.send(build(packet_id)); self.stats.messages_sent += 1].
    A packet id of [None] makes [struct.pack] raise. *)
Definition send_ack (cid : string) (build : Z -> res bytes)
    (packet_id : option Z) : M unit :=
  do! pkt <- lift (match packet_id with
                   | Some pid => build pid
                   | None => Raise StructError
                   end);
  session_send cid pkt;;
  count_message_sent.

Definition session_client_id (cid : string) : M string :=
  on_session cid (fun s => Ok (s, client_id s)).

(** The last part of [_process_publish]: "Handle QoS flows".  A QoS 2
    message without packet id (an interceptor raised the QoS of a QoS 0
    message) makes [build_pubrec] raise; the entry that Python stores
    under the key [None] just before is left out. *)
Definition handle_qos_flows (cid sender : string)
    (p : Packet.PublishData) : M unit :=
  if Packet.qos p =? 0 then
    route_publish full (Packet.topic p) (Packet.payload p) (Packet.qos p)
      (Packet.retain p) (Some sender)
  else if Packet.qos p =? 1 then
    route_publish full (Packet.topic p) (Packet.payload p) (Packet.qos p)
      (Packet.retain p) (Some sender);;
    send_ack cid Packet.build_puback (Packet.packet_id p)
  else if Packet.qos p =? 2 then
    do! b <- get;
    match Packet.packet_id p with
    | Some pid =>
        on_session cid (fun s =>
          Ok (QoSManager.track_inbound_qos2 (clock b) s pid
                (Packet.topic p) (Packet.payload p) (Packet.retain p), tt));;
        send_ack cid Packet.build_pubrec (Some pid)
    | None => lift (Raise StructError)
    end
  else ret tt.

(** [_process_publish(session, data, flags)], for the session stored
    under [cid].  The log calls and the [on_publish] hook, whose result
    is discarded, leave no trace in the state.  For the test on the
    number of levels the code decodes the topic, and raises
    [UnicodeDecodeError] on bytes that do not decode; the function below
    is the handler on a topic that decodes ([utf8_valid]), and the
    exception is not represented. *)
Definition _process_publish (env : Env) (cid : string) (data : bytes)
    (flags : Z) : M unit :=
  do! sender <- session_client_id cid;
  match Packet.parse_publish data flags with
  | Raise _ => ret tt
  | Ok publish =>
  match Utils.validate_topic_name (Packet.topic publish)
          Utils.default_max_length with
  | Raise _ => ret tt
  | Ok _ =>
  do! b <- get;
  if max_topic_levels (config b) <? count_slash (Packet.topic publish) + 1
  then ret tt
  else if max_payload_size (config b) <? len (Packet.payload publish)
  then ret tt
  else if (Packet.qos publish =? 2) && negb (qos2_enabled (config b))
  then send_ack cid Packet.build_pubrec (Packet.packet_id publish)
  else
    let authorized :=
      match authorize_publish env with
      | Some authorize => authorize sender (Packet.topic publish)
      | None => true
      end in
    if negb authorized then
      if Packet.qos publish =? 1
      then send_ack cid Packet.build_puback (Packet.packet_id publish)
      else if Packet.qos publish =? 2
      then send_ack cid Packet.build_pubrec (Packet.packet_id publish)
      else ret tt
    else
      let ctx :=
        mkMessageContext (Packet.topic publish) (Packet.payload publish)
          (Packet.qos publish) (Packet.retain publish) sender false in
      match run_interceptors (interceptors env) ctx with
      | None => ret tt
      | Some ctx =>
          let publish :=
            Packet.mkPublishData (ctx_topic ctx) (ctx_payload ctx)
              (ctx_qos ctx) (ctx_retain ctx) (Packet.dup publish)
              (Packet.packet_id publish) in
          count_publish_received;;
          handle_qos_flows cid sender publish
      end
  end
  end.

Definition _process_puback (cid : string) (data : bytes) : M unit :=
  do! packet_id <- lift (unpack_from_H data 0);
  on_session cid (fun s =>
    Ok ((QoSManager.handle_puback s packet_id).1, tt)).

Definition _process_pubrec (cid : string) (data : bytes) : M unit :=
  do! b <- get;
  do! packet_id <- lift (unpack_from_H data 0);
  do! ok <- on_session cid (fun s =>
              Ok (QoSManager.handle_pubrec (clock b) s packet_id));
  if ok then send_ack cid Packet.build_pubrel (Some packet_id)
  else ret tt.

Definition _process_pubrel (cid : string) (data : bytes) : M unit :=
  do! packet_id <- lift (unpack_from_H data 0);
  do! result <- on_session cid (fun s =>
                  Ok (QoSManager.handle_pubrel s packet_id));
  (match result with
   | Some (topic, payload, retain) =>
       do! sender <- session_client_id cid;
       route_publish full topic payload 2 retain (Some sender)
   | None => ret tt
   end);;
  send_ack cid Packet.build_pubcomp (Some packet_id).

Definition _process_pubcomp (cid : string) (data : bytes) : M unit :=
  do! packet_id <- lift (unpack_from_H data 0);
  on_session cid (fun s =>
    Ok ((QoSManager.handle_pubcomp s packet_id).1, tt)).

End Handlers.

(** ** Concrete fixtures

    Inputs on which the statements below are exercised. *)

Module Fixtures.
Import Config Session Broker Router Handlers.

(** The bytes of an ASCII string literal. *)
Definition b_of (s : string) : bytes :=
  map (fun a => Z.of_N (N_of_ascii a)) (list_ascii_of_string s).

(** A session that went through CONNECT. *)
Definition online (cid : string) (clean : bool) : ClientSession :=
  set_connected (Session.new cid clean) true.

(** A session holding one inbound QoS 2 entry under packet id 5, still
    waiting for PUBREL. *)
Definition session_inbound5 : ClientSession :=
  QoSManager.track_inbound_qos2 1000 (online "pub" true) 5
    (b_of "cmd/run") (b_of "start") false.

(** The same session once the PUBREL for packet id 5 has been handled:
    the entry is still there, in state [PUBCOMP_SENT]. *)
Definition session_released5 : ClientSession :=
  (QoSManager.handle_pubrel session_inbound5 5).1.

(** A tree with one client subscribed to [#] and another to [$SYS/#]. *)
Definition tree_sys : Topic.TopicNode :=
  Topic.subscribe
    (Topic.subscribe Topic.new_node (b_of "#") "c1" 0)
    (b_of "$SYS/#") "c2" 1.

(** A broker with two connected clients: ["pub"], and ["sub"] subscribed
    to [test/topic] with granted QoS 1.  Nothing has been written to
    either connection yet. *)
Definition broker_pub_sub (cfg : BrokerConfig) : State :=
  mkState cfg
    (<["pub" := online "pub" true]> (<["sub" := online "sub" true]> ∅))
    (Retained.mkRetainedStore
       (Topic.subscribe Topic.new_node (b_of "test/topic") "sub" 1) [])
    (mkBrokerStats 0 0 0) 1000.

(** A broker with a connected publisher and two subscribers of
    [test/topic] that are offline with persistent sessions: ["low"] with
    granted QoS 0 and ["high"] with granted QoS 2. *)
Definition broker_offline : State :=
  mkState Config.default
    (<["pub" := online "pub" true]>
       (<["low" := Session.new "low" false]>
          (<["high" := Session.new "high" false]> ∅)))
    (Retained.mkRetainedStore
       (Topic.subscribe
          (Topic.subscribe Topic.new_node (b_of "test/topic") "low" 0)
          (b_of "test/topic") "high" 2) [])
    (mkBrokerStats 0 0 0) 1000.

(** What is queued for client [cid]. *)
Definition queued_for (cid : string) (b : State)
  : list (bytes * bytes * Z) :=
  match sessions b !! cid with
  | Some s => queued_messages s
  | None => []
  end.

(** No auth provider, no interceptor. *)
Definition plain_env : Env := mkEnv None [].

(** The variable header and payload of a PUBLISH to [test/topic]. *)
Definition publish_qos0 (payload : bytes) : bytes :=
  [0; 10] ++ b_of "test/topic" ++ payload.

Definition publish_with_id (pid : Z) (payload : bytes) : bytes :=
  [0; 10] ++ b_of "test/topic" ++ [0; pid] ++ payload.

(** Default limits, except a payload cap of 10 bytes. *)
Definition cfg_payload10 : BrokerConfig :=
  mkBrokerConfig 256 8 10 50 10 100 true true.

(** Default limits, except a topic length cap of 8 bytes. *)
Definition cfg_topic8 : BrokerConfig :=
  mkBrokerConfig 8 8 4096 50 10 100 true true.

(** Default limits, except a retained-message cap of 0. *)
Definition cfg_retained0 : BrokerConfig :=
  mkBrokerConfig 256 8 4096 50 10 0 true true.

(** What has been written to the connection of client [cid]. *)
Definition written_to (cid : string) (b : State) : list bytes :=
  match sessions b !! cid with
  | Some s => written (writer s)
  | None => []
  end.

(** Run a handler and keep the state it leaves. *)
Definition exec {A} (m : M A) (b : State) : State := (m b).1.

(** The acknowledgement packets for packet id [pid] below 256. *)
Definition Packet_PUBREC (pid : Z) : bytes := [80; 2; 0; pid].
Definition Packet_PUBCOMP (pid : Z) : bytes := [112; 2; 0; pid].

(** An interceptor that drops every message. *)
Definition drop_all : Interceptor := drop.

End Fixtures.

(** ** Vocabulary of the statements and proofs

    Measures, invariants and relations that the theorems below are stated
    and proved with. *)

Module Spec.
Import Topic Config Session Broker Router Retained.

(** Weight of a stack entry: an entry at level [i] can give rise to at
    most [3 ^ (L - i)] iterations. *)
Definition entry_weight (L : nat) (e : TopicNode * nat) : nat :=
  (3 ^ (L - e.2))%nat.

Definition stack_weight (L : nat) (stack : list (TopicNode * nat)) : nat :=
  foldr (fun e acc => (entry_weight L e + acc)%nat) 0%nat stack.

(** Every entry of the stack is at a level of the topic, or just past
    the last one. *)
Definition stack_bounded (L : nat) (stack : list (TopicNode * nat)) : Prop :=
  forall e, e ∈ stack -> (e.2 <= L)%nat.

(** Where the subscribers that [match] collects for a system topic come
    from: a node reached from the root along a path of filter levels whose
    first level is the literal first level of the topic. *)
Definition literal_first (root : TopicNode) (l0 : bytes) (c : string)
    (g : Z) : Prop :=
  exists (fl : list bytes) (n : TopicNode),
    navigate fl root = Some n /\ (c, g) ∈ subscribers n
    /\ hd_error fl = Some l0.

Definition stack_ok (root : TopicNode) (l0 : bytes)
    (stack : list (TopicNode * nat)) : Prop :=
  forall (n : TopicNode) (i : nat),
    (n, i) ∈ stack ->
    (n = root /\ i = 0%nat)
    \/ ((1 <= i)%nat /\ exists fl : list bytes,
           navigate fl root = Some n /\ hd_error fl = Some l0).

Definition result_ok (root : TopicNode) (l0 : bytes)
    (result : list (string * Z)) : Prop :=
  forall (c : string) (g : Z), (c, g) ∈ result -> literal_first root l0 c g.

Section Extension.
Variables (topic payload : bytes) (qos : Z) (subs : list (string * Z)).

(** A chunk written to the connection of client [c] is a PUBLISH built at
    the effective QoS of one of the grants of [c]. *)
Definition sent_ok (c : string) (pkt : bytes) : Prop :=
  exists (g : Z) (pid : option Z),
    (c, g) ∈ subs /\ 0 <= Z.min qos g <= 2
    /\ Packet.build_publish topic payload (Z.min qos g) false false pid
       = Ok pkt.

(** A message queued for client [c] carries the effective QoS of one of
    the grants of [c], and that QoS is not 0. *)
Definition queued_ok (c : string) (m : bytes * bytes * Z) : Prop :=
  exists g : Z,
    (c, g) ∈ subs /\ m = (topic, payload, Z.min qos g) /\ 0 < Z.min qos g.

Definition session_ext (c : string) (s s' : ClientSession) : Prop :=
  (exists new : list bytes,
      written (writer s') = written (writer s) ++ new
      /\ Forall (sent_ok c) new)
  /\ (forall m, m ∈ queued_messages s' ->
                m ∈ queued_messages s \/ queued_ok c m).

Definition ext (b b' : State) : Prop :=
  forall c : string,
    match sessions b !! c with
    | Some s => exists s', sessions b' !! c = Some s' /\ session_ext c s s'
    | None => sessions b' !! c = None
    end.

(** A handler is sound when it only extends sessions as [ext] allows;
    [Q] is what is known of the value it returns. *)
Definition sound {A} (m : M A) (Q : A -> Prop) : Prop :=
  forall b : State, ext b (m b).1 /\ forall a, (m b).2 = Ok a -> Q a.

End Extension.

(** The number of retained messages below a node, by recursion on the
    tree. *)
Fixpoint count_retained (node : TopicNode) : Z :=
  match node with
  | mkTopicNode ch _ r =>
      (match r with Some _ => 1 | None => 0 end)
      + match ch with
        | None => 0
        | Some l =>
            (fix go (l : list (bytes * TopicNode)) : Z :=
               match l with
               | [] => 0
               | kc :: l' => count_retained kc.2 + go l'
               end) l
        end
  end.

Definition slot_count (r : option (bytes * bytes * Z)) : Z :=
  match r with Some _ => 1 | None => 0 end.

Definition sum_retained (l : list TopicNode) : Z :=
  foldr (fun n acc => count_retained n + acc) 0 l.

Definition sum_nodes (l : list TopicNode) : nat :=
  foldr (fun n acc => (node_count n + acc)%nat) 0%nat l.

(** The retained slot of the node at the end of a path of levels. *)
Definition retained_at (levels : list bytes) (node : TopicNode)
  : option (bytes * bytes * Z) :=
  match navigate levels node with
  | Some n => retained n
  | None => None
  end.

(** The update that [set_retained] applies to the node it reaches. *)
Definition set_slot (r : option (bytes * bytes * Z)) (node : TopicNode)
  : TopicNode :=
  mkTopicNode (children node) (subscribers node) r.

(** [split] can be undone, so different topics name different paths. *)
Fixpoint join_on (sep : Z) (ls : list bytes) : bytes :=
  match ls with
  | [] => []
  | l :: ls' =>
      match ls' with
      | [] => l
      | _ :: _ => l ++ sep :: join_on sep ls'
      end
  end.

(** The LRU list names exactly the topics that hold a retained message,
    each once. *)
Definition lru_consistent (st : RetainedStore) : Prop :=
  NoDup (_lru_order st)
  /\ (forall k, k ∈ _lru_order st
                <-> is_Some (Topic.get_retained (topic_tree st) k))
  /\ count_retained (topic_tree st) = len (_lru_order st).

(** The stores built from an empty one by [set] and [clear(topic)] alone.
    The tree of such a store holds no subscription; the stores of a
    running broker, whose tree also changes by [subscribe] and
    [unsubscribe], are covered by the invariant [RetainedSpec.store_ok]. *)
Inductive reachable (cfg : BrokerConfig) : RetainedStore -> Prop :=
| reach_empty : reachable cfg Retained.empty
| reach_set (st st' : RetainedStore) (topic payload : bytes) (qos : Z)
    (r : bool) :
    reachable cfg st ->
    Retained.set cfg st topic payload qos = Ok (st', r) ->
    reachable cfg st'
| reach_clear (st : RetainedStore) (topic : bytes) :
    reachable cfg st -> reachable cfg (Retained.clear st topic).

End Spec.

(** * Further parts of the code

    ** topic.py: unsubscribing *)

Section DictDel.
Context {K V : Type} `{EqDecision K}.

(** [del d[k]]; the broker only deletes a key it has tested with [in].
    After the deletion the key is not in the dictionary. *)
Fixpoint dict_del (d : list (K * V)) (k : K) : list (K * V) :=
  match d with
  | [] => []
  | (k', v) :: d' =>
      if decide (k' = k) then dict_del d' k else (k', v) :: dict_del d' k
  end.
End DictDel.

Module TopicOps.
Import Topic.

(** The loop "navigate to the node, give up if a level is missing",
    followed by an update of the node that is reached; [None] when the
    loop or the update gives up.  The Python code mutates the node in
    place; here the path to it is rebuilt. *)
Fixpoint navigate_update (levels : list bytes)
    (f : TopicNode -> option TopicNode) (node : TopicNode)
  : option TopicNode :=
  match levels with
  | [] => f node
  | level :: rest =>
      if has_children node then
        match child node level with
        | Some c =>
            match navigate_update rest f c with
            | Some c' =>
                Some (mkTopicNode
                        (Some (dict_set (_ensure_children node) level c'))
                        (subscribers node) (retained node))
            | None => None
            end
        | None => None
        end
      else None
  end.

(** [unsubscribe] returns the tree and the boolean that the method
    returns. *)
Definition unsubscribe (root : TopicNode) (topic_filter : bytes)
    (client_id : string) : TopicNode * bool :=
  match navigate_update (_split_topic topic_filter)
          (fun node =>
             if dict_mem (subscribers node) client_id
             then Some (mkTopicNode (children node)
                          (dict_del (subscribers node) client_id)
                          (retained node))
             else None)
          root with
  | Some root' => (root', true)
  | None => (root, false)
  end.

End TopicOps.

(** ** Vocabulary for the subscription trie *)

Module TopicSpec.
Import Topic.

(** When a list of filter levels matches a list of topic levels, as the
    walk of [match] decides it: a level matches itself, [+] matches one
    level, a final [#] matches the rest (also no level at all), and at
    the first level a wildcard does not match a level that begins with
    [$]. *)
Fixpoint filter_matches (first : bool) (fl lv : list bytes) : bool :=
  match fl with
  | [] => match lv with [] => true | _ :: _ => false end
  | f :: fl' =>
      match lv with
      | [] => bool_decide (f = HASH) && bool_decide (fl' = [])
      | l :: lv' =>
          let sys := first && starts_with_dollar l in
          (bool_decide (f = l) && filter_matches false fl' lv')
          || (bool_decide (f = PLUS) && negb sys
              && filter_matches false fl' lv')
          || (bool_decide (f = HASH) && negb sys && bool_decide (fl' = []))
      end
  end.

(** The subscribers registered for the filter with levels [fl]. *)
Definition subscribers_at (fl : list bytes) (root : TopicNode)
  : list (string * Z) :=
  match navigate fl root with
  | Some n => subscribers n
  | None => []
  end.

(** Stack entries of [match] only stand for filters that match. *)
Definition stack_sound (root : TopicNode) (lv : list bytes)
    (stack : list (TopicNode * nat)) : Prop :=
  forall (n : TopicNode) (i : nat),
    (n, i) ∈ stack ->
    exists fl : list bytes,
      navigate fl root = Some n
      /\ forall rest : list bytes,
           filter_matches (bool_decide (i = 0%nat)) rest (drop i lv) = true ->
           filter_matches true (fl ++ rest) lv = true.

Definition result_sound (root : TopicNode) (lv : list bytes)
    (result : list (string * Z)) : Prop :=
  forall (c : string) (g : Z),
    (c, g) ∈ result ->
    exists fl : list bytes,
      filter_matches true fl lv = true /\ (c, g) ∈ subscribers_at fl root.

(** Every subscriber of a matching filter is in the result already, or
    is still to be found below an entry of the stack. *)
Definition covered (root : TopicNode) (lv : list bytes)
    (stack : list (TopicNode * nat)) (result : list (string * Z)) : Prop :=
  forall (fl : list bytes) (c : string),
    filter_matches true fl lv = true ->
    c ∈ (subscribers_at fl root).*1 ->
    c ∈ result.*1
    \/ exists (n : TopicNode) (i : nat) (fl2 : list bytes),
         (n, i) ∈ stack
         /\ c ∈ (subscribers_at fl2 n).*1
         /\ filter_matches (bool_decide (i = 0%nat)) fl2 (drop i lv) = true.

End TopicSpec.

(** ** Sample values for the statements below *)

Module Samples.
Import Config Session Broker Router Handlers.

(** The store after [set('a', b'\x01', 0)] on an empty store. *)
Definition store_a : Retained.RetainedStore :=
  Retained.mkRetainedStore
    (Topic.set_retained Topic.new_node (Fixtures.b_of "a") [1] 0)
    [Fixtures.b_of "a"].

(** Default limits, except a retained-message cap of 2. *)
Definition cfg_retained2 : BrokerConfig :=
  mkBrokerConfig 256 8 4096 50 10 2 true true.

(** The store after [set('a', b'\x01', 0)] and then [set('b', b'\x02', 0)]
    on an empty store: ['a'] is the least recently stored topic. *)
Definition store_ab : Retained.RetainedStore :=
  Retained.mkRetainedStore
    (Topic.set_retained
       (Topic.set_retained Topic.new_node (Fixtures.b_of "a") [1] 0)
       (Fixtures.b_of "b") [2] 0)
    [Fixtures.b_of "a"; Fixtures.b_of "b"].

(** [store_a] after client ["sub"] has subscribed to [a/#] on the tree
    that the store shares with the subscriptions. *)
Definition store_a_sub : Retained.RetainedStore :=
  Retained.mkRetainedStore
    (Topic.subscribe (Retained.topic_tree store_a) (Fixtures.b_of "a/#")
       "sub" 1)
    (Retained._lru_order store_a).

(** Default limits, except a queue bound of 0, which [validate]
    accepts. *)
Definition cfg_queued0 : BrokerConfig :=
  mkBrokerConfig 256 8 4096 0 10 100 true true.

(** [Fixtures.broker_offline] with that configuration. *)
Definition broker_offline_queued0 : State :=
  mkState cfg_queued0 (sessions Fixtures.broker_offline)
    (retained_store Fixtures.broker_offline) (mkBrokerStats 0 0 0) 1000.

End Samples.

(** ** Vocabulary for sessions *)

Module SessionSpec.
Import Session.

(** The packet ids that [n] successive calls of [next_packet_id] return,
    in the order of the calls. *)
Fixpoint next_packet_ids (n : nat) (s : ClientSession)
  : ClientSession * list Z :=
  match n with
  | O => (s, [])
  | S n' =>
      let (s1, pid) := next_packet_id s in
      let (s2, pids) := next_packet_ids n' s1 in
      (s2, pid :: pids)
  end.

End SessionSpec.

(** ** Vocabulary for the handlers *)

Module RouterSpec.
Import Config Session Broker Router.

(** A triple for the handlers of [Broker.M]: from a state that
    satisfies [P] the handler ends in a state that satisfies [Q] if it
    returns and [E] if it raises. *)
Definition hoare {A} (P : State -> Prop) (m : M A)
    (Q : A -> State -> Prop) (E : State -> Prop) : Prop :=
  forall b : State,
    P b ->
    match m b with
    | (b', Ok a) => Q a b'
    | (b', Raise _) => E b'
    end.

(** A handler that keeps an invariant, whether it returns or raises. *)
Definition keeps {A} (I : State -> Prop) (m : M A) : Prop :=
  hoare I m (fun _ => I) I.

(** Between [b] and [b'] the configuration is the same, and so is every
    session except those of the clients in [P]. *)
Definition frame (P : string -> Prop) (b b' : State) : Prop :=
  config b' = config b
  /\ forall c : string, ~ P c -> sessions b' !! c = sessions b !! c.







End RouterSpec.

(** ** packet.py: reading a packet from the stream *)

Module PacketIO.

(** What [read_packet] raises: [asyncio.IncompleteReadError] when the
    stream ends inside [readexactly], and [MQTTProtocolError]. *)
Inductive read_error : Type :=
| IncompleteReadError
| ProtocolError (msg : string).

Inductive outcome (A : Type) : Type :=
| Done (a : A)
| Failed (e : read_error).
Arguments Done {A} a.
Arguments Failed {A} e.

(** [await reader.readexactly(n)] for a reader whose input, up to the end
    of the stream, is [stream]: the bytes read and the input that is
    left. *)
Definition readexactly (n : Z) (stream : bytes) : outcome (bytes * bytes) :=
  if len stream <? n then Failed IncompleteReadError
  else Done (take (Z.to_nat n) stream, drop (Z.to_nat n) stream).

(** The [while True] loop that reads the remaining length.  Every
    iteration reads one byte, so the loop is a recursion on the input. *)
Fixpoint read_length (stream : bytes)
    (remaining_length multiplier byte_count : Z) : outcome (Z * bytes) :=
  if 4 <=? byte_count
  then Failed (ProtocolError "Remaining length exceeds 4 bytes")
  else
    match stream with
    | [] => Failed IncompleteReadError
    | byte :: stream' =>
        let byte_count := byte_count + 1 in
        let remaining_length :=
          remaining_length + Z.land byte 127 * multiplier in
        if Z.land byte 128 =? 0 then Done (remaining_length, stream')
        else
          let multiplier := multiplier * 128 in
          if 128 * 128 * 128 <? multiplier
          then Failed (ProtocolError "Remaining length multiplier overflow")
          else read_length stream' remaining_length multiplier byte_count
    end.

(** [read_packet] returns [(packet_type, flags, payload_bytes)]; the
    fourth component here is the input left for the next call. *)
Definition read_packet (stream : bytes) : outcome (Z * Z * bytes * bytes) :=
  match readexactly 1 stream with
  | Failed e => Failed e
  | Done (first_byte_data, stream) =>
      match py_index first_byte_data 0 with
      | None => Failed IncompleteReadError
      | Some first_byte =>
          let packet_type := Z.land (Z.shiftr first_byte 4) 15 in
          let flags := Z.land first_byte 15 in
          match read_length stream 0 1 0 with
          | Failed e => Failed e
          | Done (remaining_length, stream) =>
              if 268435455 <? remaining_length
              then Failed (ProtocolError "Remaining length too large")
              else if 0 <? remaining_length then
                match readexactly remaining_length stream with
                | Failed e => Failed e
                | Done (payload, stream) =>
                    Done (packet_type, flags, payload, stream)
                end
              else Done (packet_type, flags, [], stream)
          end
      end
  end.

End PacketIO.

(** ** Vocabulary for the retained store *)

Module RetainedSpec.
Import Config Retained.

(** The invariant of the retained store: [count()] returns a number
    within the cap; it is the length of the LRU list, and the list names
    exactly the topics that hold a retained message, each once. *)
Definition store_ok (cfg : BrokerConfig) (st : RetainedStore) : Prop :=
  exists n : Z,
    Retained.count st = Ok n
    /\ n <= max_retained_messages cfg
    /\ n = len (_lru_order st)
    /\ NoDup (_lru_order st)
    /\ forall k : bytes,
         k ∈ _lru_order st
         <-> is_Some (Topic.get_retained (topic_tree st) k).

(** The store after an operation of the router on the tree it shares
    with the store. *)
Definition with_tree (st : RetainedStore) (tree : Topic.TopicNode)
  : RetainedStore :=
  mkRetainedStore tree (_lru_order st).

End RetainedSpec.

(** * Theorems *)

(** ** QoS tables: frame properties *)

Section QoSFrames.
Import QoS Session QoSManager.

(** C4: [handle_puback] on packet id [p] leaves both QoS 2 tables as they
    are, removes at most the entry [p] of [pending_qos1], and returns
    [true] exactly when that entry existed ([false] for an unsolicited
    acknowledgement). *)
Theorem handle_puback_frame (s : ClientSession) (p : Z) :
  pending_qos2 (handle_puback s p).1 = pending_qos2 s
  /\ pending_qos2_out (handle_puback s p).1 = pending_qos2_out s
  /\ pending_qos1 (handle_puback s p).1 = delete p (pending_qos1 s)
  /\ ((handle_puback s p).2 = true <-> is_Some (pending_qos1 s !! p))
  /\ ((handle_puback s p).2 = false <-> pending_qos1 s !! p = None).
Proof.
  unfold handle_puback.
  destruct (pending_qos1 s !! p) as [e|] eqn:E; cbn;
    rewrite ?delete_id by done; repeat split; eauto; try done;
    by intros [? ?].
Qed.

(** C3, as stated, fails.  Take a session whose inbound QoS 2 entry for
    packet id 5 has reached [PUBCOMP_SENT] (PUBLISH tracked, PUBREL
    handled) and that has no outbound entry 5: [handle_pubcomp] returns
    [True] and removes the inbound entry.  This is the clean-up that the
    comment in [handle_pubcomp] announces for this state. *)
Lemma handle_pubcomp_clears_inbound :
  (exists e : QoS2Inbound,
      pending_qos2 Fixtures.session_released5 !! 5 = Some e
      /\ q2i_state e = PUBCOMP_SENT)
  /\ pending_qos2_out Fixtures.session_released5 !! 5 = None
  /\ (handle_pubcomp Fixtures.session_released5 5).2 = true
  /\ pending_qos2 (handle_pubcomp Fixtures.session_released5 5).1 !! 5 = None.
Proof.
  assert (H : pending_qos2 Fixtures.session_released5
              = <[5 := mkQoS2Inbound 5 (Fixtures.b_of "cmd/run")
                         (Fixtures.b_of "start") false PUBCOMP_SENT 1000]>
                  (<[5 := mkQoS2Inbound 5 (Fixtures.b_of "cmd/run")
                            (Fixtures.b_of "start") false PUBREC_SENT 1000]>
                     ∅)).
  { unfold Fixtures.session_released5, Fixtures.session_inbound5,
      handle_pubrel, track_inbound_qos2.
    cbn [pending_qos2 set_pending_qos2]. by rewrite lookup_insert_eq. }
  assert (Ho : pending_qos2_out Fixtures.session_released5 = ∅).
  { unfold Fixtures.session_released5, Fixtures.session_inbound5,
      handle_pubrel, track_inbound_qos2.
    cbn [pending_qos2 set_pending_qos2]. by rewrite lookup_insert_eq. }
  split; [|split; [|split]].
  - eexists. split; [by rewrite H, lookup_insert_eq|done].
  - by rewrite Ho.
  - unfold handle_pubcomp. by rewrite Ho, lookup_empty, H, lookup_insert_eq.
  - unfold handle_pubcomp. rewrite Ho, lookup_empty, H, lookup_insert_eq.
    cbn [fst pending_qos2 set_pending_qos2]. apply lookup_delete_eq.
Qed.

(** C3, amended: [handle_pubcomp] on packet id [p] never changes
    [pending_qos1]; it removes at most the entry [p] of
    [pending_qos2_out]; when that entry exists the inbound table
    [pending_qos2] is unchanged; in every case the inbound entries under
    other packet ids are unchanged; and when there is no outbound entry
    [p], an inbound entry [p] in state [PUBCOMP_SENT] is removed. *)
Theorem handle_pubcomp_frame (s : ClientSession) (p : Z) :
  pending_qos1 (handle_pubcomp s p).1 = pending_qos1 s
  /\ pending_qos2_out (handle_pubcomp s p).1 = delete p (pending_qos2_out s)
  /\ (is_Some (pending_qos2_out s !! p) ->
      pending_qos2 (handle_pubcomp s p).1 = pending_qos2 s)
  /\ (forall q, q <> p ->
      pending_qos2 (handle_pubcomp s p).1 !! q = pending_qos2 s !! q)
  /\ (pending_qos2_out s !! p = None ->
      (exists e, pending_qos2 s !! p = Some e /\ q2i_state e = PUBCOMP_SENT) ->
      pending_qos2 (handle_pubcomp s p).1 !! p = None).
Proof.
  unfold handle_pubcomp.
  destruct (pending_qos2_out s !! p) as [o|] eqn:Eo; cbn.
  - repeat split; auto; done.
  - rewrite (delete_id (pending_qos2_out s)) by done.
    destruct (pending_qos2 s !! p) as [i|] eqn:Ei; cbn.
    + repeat split; auto.
      * by intros [? ?].
      * intros q Hq. by apply lookup_delete_ne.
      * intros _ _. apply lookup_delete_eq.
    + repeat split; auto.
Qed.

End QoSFrames.

(** ** Codec round trips *)

Section Codec.
Import Utils.

Lemma low7 (b : Z) :
  0 <= b < 128 ->
  Z.land b 127 = b /\ Z.land b 128 = 0
  /\ Z.land (Z.lor b 128) 127 = b /\ Z.land (Z.lor b 128) 128 = 128.
Proof.
  intros [Hlo Hhi].
  destruct b as [|q|q]; [done| |lia].
  do 8 (try (destruct q as [q|q|]; try lia)); done.
Qed.

Lemma len_app {A} (l1 l2 : list A) : len (l1 ++ l2) = len l1 + len l2.
Proof. unfold len. rewrite length_app. lia. Qed.

Lemma len_nonneg {A} (l : list A) : 0 <= len l.
Proof. unfold len. lia. Qed.

(** Indexing just past a prefix reads the head of what follows. *)
Lemma py_index_after {A} (pre : list A) (x : A) (rest : list A) :
  py_index (pre ++ x :: rest) (len pre) = Some x.
Proof.
  unfold py_index.
  pose proof (len_nonneg pre).
  cbv zeta.
  destruct (len pre <? 0) eqn:E; [lia|].
  rewrite E. unfold len. rewrite Nat2Z.id.
  by apply list_lookup_middle.
Qed.

Lemma encode_loop_S (budget : nat) (n : Z) (acc : bytes) :
  encode_loop (S budget) n acc
  = if n / 128 =? 0
    then Ok (acc ++ [if 0 <? n / 128 then Z.lor (n mod 128) 128
                     else n mod 128])
    else encode_loop budget (n / 128)
           (acc ++ [if 0 <? n / 128 then Z.lor (n mod 128) 128
                    else n mod 128]).
Proof. reflexivity. Qed.

Lemma decode_loop_S (budget : nat) (data : bytes)
    (offset mult value bc : Z) :
  decode_loop (S budget) data offset mult value bc
  = if 4 <=? bc then Raise (ValueError "Malformed remaining length")
    else match py_index data (offset + bc) with
         | None => Raise IndexError
         | Some byte =>
             if Z.land byte 128 =? 0
             then Ok (value + Z.land byte 127 * mult, bc + 1)
             else decode_loop budget data offset (mult * 128)
                    (value + Z.land byte 127 * mult) (bc + 1)
         end.
Proof. reflexivity. Qed.

(** The encoder loop with [S k] iterations handles every [n < 128^(S k)],
    and the decoder loop reads the bytes it produced back to [n]. *)
Lemma encode_loop_decode_loop (k : nat) :
  forall (n : Z) (acc : bytes),
    0 <= n < 128 ^ Z.of_nat (S k) ->
    exists bs : bytes,
      encode_loop (S k) n acc = Ok (acc ++ bs)
      /\ (1 <= length bs <= S k)%nat
      /\ forall (budget : nat) (pre : bytes) (offset mult value bc : Z),
          (length bs <= budget)%nat ->
          offset + bc = len pre ->
          bc + len bs <= 4 ->
          decode_loop budget (pre ++ bs) offset mult value bc
          = Ok (value + n * mult, bc + len bs).
Proof.
  induction k as [|k IH]; intros n acc Hn.
  - exists [n]. change (128 ^ Z.of_nat 1) with 128 in Hn.
    assert (Hq : n / 128 = 0) by (apply Z.div_small; lia).
    assert (Hm : n mod 128 = n) by (apply Z.mod_small; lia).
    split; [|split].
    + rewrite encode_loop_S, Hq, Hm. done.
    + cbn. lia.
    + intros budget pre offset mult value bc Hb Ho Hc.
      destruct budget as [|budget]; [cbn in Hb; lia|].
      rewrite decode_loop_S. unfold len in Hc. cbn in Hc.
      destruct (4 <=? bc) eqn:E4; [lia|].
      rewrite Ho, py_index_after.
      destruct (low7 n Hn) as (-> & -> & _). cbn [Z.eqb].
      apply (f_equal Ok), f_equal2; unfold len; cbn [length]; lia.
  - assert (Hpow : 128 ^ Z.of_nat (S (S k)) = 128 * 128 ^ Z.of_nat (S k)).
    { rewrite (Nat2Z.inj_succ (S k)), Z.pow_succ_r by lia. done. }
    assert (Hq : 0 <= n / 128 < 128 ^ Z.of_nat (S k)).
    { split; [apply Z.div_pos; lia|].
      apply Z.div_lt_upper_bound; lia. }
    assert (Hm : 0 <= n mod 128 < 128) by (apply Z.mod_pos_bound; lia).
    pose proof (Z.div_mod n 128 ltac:(lia)) as Hdm.
    rewrite encode_loop_S.
    destruct (n / 128 =? 0) eqn:Ez.
    + apply Z.eqb_eq in Ez. rewrite Ez in *.
      exists [n mod 128].
      split; [|split].
      * done.
      * cbn. lia.
      * intros budget pre offset mult value bc Hb Ho Hc.
        destruct budget as [|budget]; [cbn in Hb; lia|].
        rewrite decode_loop_S. unfold len in Hc. cbn in Hc.
        destruct (4 <=? bc) eqn:E4; [lia|].
        rewrite Ho, py_index_after.
        destruct (low7 _ Hm) as (-> & -> & _). cbn [Z.eqb].
        apply (f_equal Ok), f_equal2; unfold len; cbn [length]; nia.
    + apply Z.eqb_neq in Ez.
      destruct (0 <? n / 128) eqn:Ep; [|lia].
      destruct (IH (n / 128) (acc ++ [Z.lor (n mod 128) 128]) Hq)
        as (bs & Henc & Hlen & Hdec).
      exists (Z.lor (n mod 128) 128 :: bs).
      split; [|split].
      * rewrite Henc. by rewrite <- app_assoc.
      * cbn. lia.
      * intros budget pre offset mult value bc Hb Ho Hc.
        destruct budget as [|budget]; [cbn in Hb; lia|].
        rewrite decode_loop_S.
        assert (Hl : len (Z.lor (n mod 128) 128 :: bs) = 1 + len bs)
          by (unfold len; cbn [length]; lia).
        rewrite Hl in *.
        pose proof (len_nonneg bs).
        destruct (4 <=? bc) eqn:E4; [lia|].
        rewrite Ho, py_index_after.
        destruct (low7 _ Hm) as (_ & _ & -> & ->). cbn [Z.eqb].
        replace (pre ++ Z.lor (n mod 128) 128 :: bs)
          with ((pre ++ [Z.lor (n mod 128) 128]) ++ bs)
          by (by rewrite <- app_assoc).
        rewrite Hdec.
        -- apply (f_equal Ok), f_equal2; nia.
        -- cbn in Hb. lia.
        -- rewrite len_app. unfold len at 2. cbn. lia.
        -- lia.
Qed.

Lemma encode_decode_remaining_length (n : Z) :
  0 <= n <= 268435455 ->
  exists bs : bytes,
    encode_remaining_length n = Ok bs
    /\ decode_remaining_length bs 0 = Ok (n, len bs).
Proof.
  intros Hn. unfold encode_remaining_length, decode_remaining_length.
  destruct ((n <? 0) || (268435455 <? n)) eqn:E; [lia|].
  destruct (encode_loop_decode_loop 3 n []) as (bs & Henc & Hlen & Hdec).
  { change (128 ^ Z.of_nat 4) with 268435456. lia. }
  exists bs. split; [done|].
  specialize (Hdec 5%nat [] 0 1 0 0).
  cbn [app] in Hdec. rewrite Hdec.
  - apply (f_equal Ok), f_equal2; lia.
  - lia.
  - done.
  - unfold len. lia.
Qed.

Lemma pack_unpack_H (n : Z) :
  0 <= n <= 65535 ->
  Z.land (Z.shiftr n 8) 255 * 256 + Z.land n 255 = n.
Proof.
  intros Hn.
  change 255 with (Z.ones 8).
  rewrite !Z.land_ones, Z.shiftr_div_pow2 by lia.
  change (2 ^ 8) with 256.
  rewrite (Z.mod_small (n / 256)).
  - pose proof (Z.div_mod n 256 ltac:(lia)). lia.
  - split; [apply Z.div_pos; lia|apply Z.div_lt_upper_bound; lia].
Qed.

Lemma encode_decode_utf8_string (s : bytes) :
  len s <= 65535 ->
  exists enc : bytes,
    encode_utf8_string s = Ok enc
    /\ decode_utf8_string enc 0 = Ok (s, 2 + len s).
Proof.
  intros Hs. pose proof (len_nonneg s) as H0.
  unfold encode_utf8_string, pack_H.
  destruct ((len s <? 0) || (65535 <? len s)) eqn:E; [lia|].
  eexists. split; [done|].
  unfold decode_utf8_string, unpack_from_H. cbn [res_bind app].
  assert (Hl : forall a b : Z, len (a :: b :: s) = 2 + len s)
    by (intros; unfold len; cbn [length]; lia).
  rewrite Hl.
  destruct ((0 <? 0) && (0 + (2 + len s) <? 0)) eqn:E1; [lia|].
  cbn [Z.ltb Z.compare].
  destruct (2 + len s - 0 <? 2) eqn:E2; [lia|].
  change (Z.to_nat 0) with 0%nat. change (Z.to_nat (0 + 1)) with 1%nat.
  change ((?a :: ?l) !! 0%nat) with (Some a).
  cbn [lookup list_lookup res_bind].
  rewrite pack_unpack_H by lia.
  apply (f_equal Ok), f_equal2; [|lia].
  unfold py_slice, py_clamp. rewrite Hl.
  destruct (0 + 2 <? 0) eqn:E3; [lia|].
  destruct (0 + 2 + len s <? 0) eqn:E4; [lia|].
  rewrite Z.min_l, Z.min_l by lia.
  change (Z.to_nat (0 + 2)) with 2%nat. cbn [drop].
  replace (Z.to_nat (0 + 2 + len s - (0 + 2))) with (length s)
    by (unfold len; lia).
  apply firstn_all.
Qed.

(** C9: for every [n] in [0, 268435455], decoding the remaining-length
    encoding of [n] returns [n] (and the number of bytes read); for every
    byte string [s] of at most 65535 bytes, decoding its length-prefixed
    encoding returns [s] (and the offset just past it). *)
Theorem codec_roundtrip (n : Z) (s : bytes) :
  0 <= n <= 268435455 ->
  len s <= 65535 ->
  (exists bs : bytes,
      encode_remaining_length n = Ok bs
      /\ decode_remaining_length bs 0 = Ok (n, len bs))
  /\ (exists enc : bytes,
        encode_utf8_string s = Ok enc
        /\ decode_utf8_string enc 0 = Ok (s, 2 + len s)).
Proof.
  intros Hn Hs. split.
  - by apply encode_decode_remaining_length.
  - by apply encode_decode_utf8_string.
Qed.

Lemma codec_roundtrip_witness :
  (exists bs : bytes,
      encode_remaining_length 321 = Ok bs
      /\ decode_remaining_length bs 0 = Ok (321, len bs))
  /\ (exists enc : bytes,
        encode_utf8_string (Fixtures.b_of "a/b") = Ok enc
        /\ decode_utf8_string enc 0
           = Ok (Fixtures.b_of "a/b", 2 + len (Fixtures.b_of "a/b"))).
Proof.
  apply (codec_roundtrip 321 (Fixtures.b_of "a/b")).
  - lia.
  - vm_compute. discriminate.
Defined.

End Codec.

(** ** Topic matching and system topics *)

Section SystemTopics.
Import Topic Spec.

Lemma elem_of_dict_set {K V} `{EqDecision K} (d : list (K * V)) (k : K)
    (v : V) (kv : K * V) :
  kv ∈ dict_set d k v -> kv ∈ d \/ kv = (k, v).
Proof.
  induction d as [|[k' v'] d IH]; cbn.
  - intros H%list_elem_of_singleton. by right.
  - destruct (decide (k' = k)) as [->|Hne].
    + intros [-> | H]%elem_of_cons.
      * by right.
      * left. by apply elem_of_cons; right.
    + intros [-> | H]%elem_of_cons.
      * left. by apply elem_of_cons; left.
      * destruct (IH H) as [?|?]; [left|by right].
        by apply elem_of_cons; right.
Qed.

Lemma elem_of_dict_update {K V} `{EqDecision K} (other d : list (K * V))
    (kv : K * V) :
  kv ∈ dict_update d other -> kv ∈ d \/ kv ∈ other.
Proof.
  unfold dict_update. revert d.
  induction other as [|[k v] other IH]; intros d; cbn.
  - by left.
  - intros H. destruct (IH _ H) as [H1|H1].
    + destruct (elem_of_dict_set _ _ _ _ H1) as [? | ->]; [by left|].
      right. by apply elem_of_cons; left.
    + right. by apply elem_of_cons; right.
Qed.

Lemma split_on_nonempty (sep : Z) (s : bytes) : split_on sep s <> [].
Proof.
  destruct s as [|c s]; cbn; [done|].
  destruct (c =? sep); [done|]. by destruct (split_on sep s).
Qed.

Lemma navigate_app (fl1 fl2 : list bytes) (root n : TopicNode) :
  navigate fl1 root = Some n ->
  navigate (fl1 ++ fl2) root = navigate fl2 n.
Proof.
  revert root. induction fl1 as [|l fl1 IH]; intros root; cbn.
  - by intros [= ->].
  - destruct (has_children root); [|done].
    destruct (child root l); [|done]. apply IH.
Qed.

Lemma navigate_snoc (fl : list bytes) (l : bytes) (root n c : TopicNode) :
  navigate fl root = Some n ->
  has_children n = true ->
  child n l = Some c ->
  navigate (fl ++ [l]) root = Some c.
Proof.
  intros Hn Hh Hc. rewrite (navigate_app _ _ _ _ Hn). cbn.
  by rewrite Hh, Hc.
Qed.

Lemma entry_weight_pos (L : nat) (e : TopicNode * nat) :
  (1 <= entry_weight L e)%nat.
Proof.
  unfold entry_weight.
  assert (3 ^ (L - e.2) <> 0)%nat by (apply Nat.pow_nonzero; lia). lia.
Qed.

Lemma entry_weight_step (L i : nat) (n c : TopicNode) :
  (i < L)%nat ->
  (3 * entry_weight L (c, S i) = entry_weight L (n, i))%nat.
Proof.
  intros Hi. unfold entry_weight. cbn [snd].
  replace (L - i)%nat with (S (L - S i)) by lia.
  by rewrite Nat.pow_succ_r'.
Qed.

Lemma stack_weight_cons (L : nat) (e : TopicNode * nat)
    (stack : list (TopicNode * nat)) :
  stack_weight L (e :: stack)
  = (entry_weight L e + stack_weight L stack)%nat.
Proof. reflexivity. Qed.

(** Within the levels of the topic an iteration does not raise. *)
Lemma match_step_in_range (levels : list bytes) (node : TopicNode) (i : nat)
    (stack : list (TopicNode * nat)) (result : list (string * Z)) :
  (i <= length levels)%nat ->
  exists st res, match_step levels node i stack result = Ok (st, res).
Proof.
  intros Hi. unfold match_step.
  case_bool_decide as Hl; [by eexists _, _|].
  destruct (lookup_lt_is_Some_2 levels i) as [cur ->]; [lia|].
  destruct (negb (has_children node)); by eexists _, _.
Qed.

(** One iteration strictly decreases the weight of the stack and keeps
    its entries within the levels of the topic. *)
Lemma match_step_weight (levels : list bytes) (node : TopicNode) (i : nat)
    (stack st : list (TopicNode * nat)) (result res : list (string * Z)) :
  match_step levels node i stack result = Ok (st, res) ->
  (stack_weight (length levels) st
   < stack_weight (length levels) ((node, i) :: stack))%nat
  /\ (stack_bounded (length levels) stack ->
      stack_bounded (length levels) st).
Proof.
  set (L := length levels).
  pose proof (entry_weight_pos L (node, i)) as Hpos.
  rewrite stack_weight_cons. unfold match_step.
  case_bool_decide as Hi; [intros [= <- <-]; split; [lia|done]|].
  destruct (levels !! i) as [cur|] eqn:El; [|done].
  assert (i < L)%nat as Hlt by (by apply lookup_lt_Some in El).
  destruct (negb (has_children node)); [intros [= <- <-]; split; [lia|done]|].
  intros [= <- _]. split.
  - destruct (child node cur) as [c1|], (child node PLUS) as [c2|];
      repeat match goal with
        | |- context [if ?b then _ else _] => destruct b
        end;
      rewrite ?stack_weight_cons;
      try pose proof (entry_weight_step L i node c1 Hlt);
      try pose proof (entry_weight_step L i node c2 Hlt);
      lia.
  - intros Hb e He.
    destruct (child node cur) as [c1|], (child node PLUS) as [c2|];
      repeat match goal with
        | H : context [if ?b then _ else _] |- _ => destruct b
        end;
      repeat (apply elem_of_cons in He as [->|He]; [cbn [snd]; lia|]);
      by apply Hb.
Qed.

Lemma result_ok_update (root : TopicNode) (l0 : bytes) (fl : list bytes)
    (n : TopicNode) (result : list (string * Z)) :
  result_ok root l0 result ->
  navigate fl root = Some n ->
  hd_error fl = Some l0 ->
  result_ok root l0 (dict_update result (subscribers n)).
Proof.
  intros Hr Hn Hh c g [H|H]%elem_of_dict_update; [by apply Hr|].
  by exists fl, n.
Qed.

Lemma hd_error_snoc {A} (fl : list A) (x y : A) :
  hd_error fl = Some x -> hd_error (fl ++ [y]) = Some x.
Proof. by destruct fl. Qed.

(** One iteration preserves the provenance invariant for a topic whose
    first level begins with [$]. *)
Lemma match_step_ok (root : TopicNode) (levels : list bytes) (l0 : bytes)
    (node : TopicNode) (i : nat) (stack st : list (TopicNode * nat))
    (result res : list (string * Z)) :
  levels !! 0%nat = Some l0 ->
  starts_with_dollar l0 = true ->
  stack_ok root l0 ((node, i) :: stack) ->
  result_ok root l0 result ->
  match_step levels node i stack result = Ok (st, res) ->
  stack_ok root l0 st /\ result_ok root l0 res.
Proof.
  intros Hl0 Hd Hs Hr Hstep.
  assert (Hstack : stack_ok root l0 stack).
  { intros n j Hin. apply Hs. by apply elem_of_cons; right. }
  assert (Hnode : (node = root /\ i = 0%nat)
                  \/ ((1 <= i)%nat /\ exists fl : list bytes,
                         navigate fl root = Some node
                         /\ hd_error fl = Some l0)).
  { apply Hs. by apply elem_of_cons; left. }
  unfold match_step in Hstep.
  case_bool_decide as Hi.
  - (* all levels matched *)
    injection Hstep as <- <-. split; [done|].
    destruct Hnode as [[-> ->]|[Hi1 (fl & Hn & Hh)]].
    { apply lookup_lt_Some in Hl0. lia. }
    pose proof (result_ok_update _ _ _ _ _ Hr Hn Hh) as Hr1.
    destruct (has_children node) eqn:Hc; [|done].
    destruct (child node HASH) as [h|] eqn:Eh; [|done].
    eapply result_ok_update; [done| |].
    + by eapply navigate_snoc.
    + by apply hd_error_snoc.
  - destruct (levels !! i) as [cur|] eqn:El; [|done].
    destruct (has_children node) eqn:Hc; cbn [negb] in Hstep;
      [|by injection Hstep as <- <-].
    destruct Hnode as [[-> ->]|[Hi1 (fl & Hn & Hh)]].
    + (* first level of a system topic: only the exact child is taken *)
      assert (cur = l0) as -> by congruence.
      rewrite bool_decide_eq_true_2 in Hstep by done.
      rewrite Hd in Hstep. cbn [andb negb] in Hstep.
      injection Hstep as <- <-. split.
      * destruct (child root l0) as [c|] eqn:Ec;
          destruct (child root PLUS); try done.
        all: intros n j [[= -> ->]|Hin]%elem_of_cons; [|by apply Hstack].
        all: right; split; [lia|]; exists [l0]; split; [|done].
        all: cbn; by rewrite Hc, Ec.
      * by destruct (child root HASH).
    + (* deeper levels *)
      rewrite bool_decide_eq_false_2 in Hstep by lia.
      cbn [andb negb] in Hstep. injection Hstep as <- <-. split.
      * intros n j Hin.
        destruct (child node cur) as [c1|] eqn:E1;
          destruct (child node PLUS) as [c2|] eqn:E2;
          repeat (apply elem_of_cons in Hin as [[= -> ->]|Hin]);
          try (by apply Hstack);
          right; (split; [lia|]).
        all: first
          [ exists (fl ++ [cur]); split;
            [by eapply navigate_snoc|by apply hd_error_snoc]
          | exists (fl ++ [PLUS]); split;
            [by eapply navigate_snoc|by apply hd_error_snoc] ].
      * destruct (child node HASH) as [h|] eqn:Eh; [|done].
        eapply result_ok_update; [done| |].
        -- by eapply navigate_snoc.
        -- by apply hd_error_snoc.
Qed.

(** The loop of [match] ends within its budget without raising, and
    carries along any property of the stack and the result that one
    iteration preserves. *)
Lemma match_loop_inv (levels : list bytes)
    (I : list (TopicNode * nat) -> list (string * Z) -> Prop) :
  (forall node i stack result st res,
      I ((node, i) :: stack) result ->
      match_step levels node i stack result = Ok (st, res) ->
      I st res) ->
  forall (budget : nat) (stack : list (TopicNode * nat))
         (result : list (string * Z)),
    (stack_weight (length levels) stack < budget)%nat ->
    stack_bounded (length levels) stack ->
    I stack result ->
    exists r : list (string * Z),
      match_loop budget levels stack result = Ok r /\ I [] r.
Proof.
  intros Hstep.
  induction budget as [|budget IH]; intros stack result Hw Hb HI.
  - lia.
  - destruct stack as [|[node i] stack]; cbn [match_loop].
    + by exists result.
    + destruct (match_step_in_range levels node i stack result)
        as (st & res & E).
      { apply (Hb (node, i)). by apply elem_of_cons; left. }
      rewrite E.
      destruct (match_step_weight _ _ _ _ _ _ _ E) as [Hdec Hb'].
      apply IH; [lia| |by eapply Hstep].
      apply Hb'. intros e He. apply Hb. by apply elem_of_cons; right.
Qed.

Lemma stack_bounded_root (root : TopicNode) (L : nat) :
  stack_bounded L [(root, 0%nat)].
Proof. intros e ->%list_elem_of_singleton. cbn. lia. Qed.

Lemma match_budget_enough (root : TopicNode) (levels : list bytes) :
  (stack_weight (length levels) [(root, 0%nat)] < match_budget levels)%nat.
Proof.
  unfold match_budget, stack_weight, entry_weight. cbn [foldr snd].
  rewrite Nat.sub_0_r. lia.
Qed.

(** [match] returns a result for every tree and every topic. *)
Lemma match_total (root : TopicNode) (topic : bytes) :
  exists r : list (string * Z), match_ root topic = Ok r.
Proof.
  unfold match_.
  destruct (match_loop_inv (_split_topic topic) (fun _ _ => True))
    with (budget := match_budget (_split_topic topic))
         (stack := [(root, 0%nat)]) (result := @nil (string * Z))
    as (r & Hr & _);
    [done|apply match_budget_enough|apply stack_bounded_root|done|].
  by exists r.
Qed.

Lemma match_loop_ok (root : TopicNode) (levels : list bytes) (l0 : bytes) :
  levels !! 0%nat = Some l0 ->
  starts_with_dollar l0 = true ->
  forall (budget : nat) (stack : list (TopicNode * nat))
         (result : list (string * Z)),
    (stack_weight (length levels) stack < budget)%nat ->
    stack_bounded (length levels) stack ->
    stack_ok root l0 stack ->
    result_ok root l0 result ->
    exists r : list (string * Z),
      match_loop budget levels stack result = Ok r /\ result_ok root l0 r.
Proof.
  intros Hl0 Hd budget stack result Hw Hb Hs Hr.
  destruct (match_loop_inv levels
              (fun st res => stack_ok root l0 st /\ result_ok root l0 res))
    with (budget := budget) (stack := stack) (result := result)
    as (r & Hrun & _ & Hres); [|done|done|done|by exists r].
  intros node i st res st' res' [Hs' Hr'] Hstep.
  by eapply match_step_ok.
Qed.

(** C7: for a topic whose first level begins with [$], [match] returns a
    result, and every subscriber in it comes from a filter whose first
    level is the literal first level of the topic, not [+] or [#].  In
    particular a client all of whose filters start with a wildcard level
    (such as a client subscribed to [#] only) is not matched. *)
Theorem match_system_topic (root : TopicNode) (topic : bytes) :
  starts_with_dollar (hd [] (_split_topic topic)) = true ->
  exists r : list (string * Z),
    match_ root topic = Ok r
    /\ (forall (c : string) (g : Z),
          (c, g) ∈ r ->
          exists (fl : list bytes) (n : TopicNode),
            navigate fl root = Some n /\ (c, g) ∈ subscribers n
            /\ hd_error fl = hd_error (_split_topic topic)
            /\ hd_error fl <> Some PLUS /\ hd_error fl <> Some HASH)
    /\ (forall c : string,
          (forall (fl : list bytes) (n : TopicNode) (g : Z),
              navigate fl root = Some n -> (c, g) ∈ subscribers n ->
              hd_error fl = Some PLUS \/ hd_error fl = Some HASH) ->
          forall g : Z, ~ (c, g) ∈ r).
Proof.
  intros Hd. unfold match_.
  destruct (_split_topic topic) as [|l0 rest] eqn:Es.
  { by apply split_on_nonempty in Es. }
  cbn [hd] in Hd.
  assert (Hne : Some l0 <> Some PLUS /\ Some l0 <> Some HASH).
  { split; intros [= ->]; done. }
  destruct (match_loop_ok root (l0 :: rest) l0 eq_refl Hd
              (match_budget (l0 :: rest)) [(root, 0%nat)] [])
    as (r & Hrun & Hr).
  - apply match_budget_enough.
  - apply stack_bounded_root.
  - intros n i [= -> ->]%list_elem_of_singleton. by left.
  - intros c g Hin. by apply elem_of_nil in Hin.
  - exists r. split; [done|]. split.
    + intros c g Hin. destruct (Hr c g Hin) as (fl & n & Hn & Hs & Hh).
      exists fl, n. cbn [hd_error]. rewrite Hh.
      destruct Hne as [Hp Hq]. by repeat split.
    + intros c Hall g Hin.
      destruct (Hr c g Hin) as (fl & n & Hn & Hs & Hh).
      destruct (Hall fl n g Hn Hs) as [H|H]; rewrite Hh in H;
        by destruct Hne.
Qed.

End SystemTopics.

(** A client subscribed to [#] only is not matched for [$SYS/x]; the
    client subscribed to [$SYS/#] is. *)
Example match_sys_example :
  Topic.match_ Fixtures.tree_sys (Fixtures.b_of "$SYS/x") = Ok [("c2", 1)].
Proof. vm_compute. reflexivity. Qed.

Lemma match_system_topic_witness :
  exists r : list (string * Z),
    Topic.match_ Fixtures.tree_sys (Fixtures.b_of "$SYS/x") = Ok r
    /\ (forall (c : string) (g : Z),
          (c, g) ∈ r ->
          exists (fl : list bytes) (n : Topic.TopicNode),
            Topic.navigate fl Fixtures.tree_sys = Some n
            /\ (c, g) ∈ Topic.subscribers n
            /\ hd_error fl
               = hd_error (Topic._split_topic (Fixtures.b_of "$SYS/x"))
            /\ hd_error fl <> Some Topic.PLUS
            /\ hd_error fl <> Some Topic.HASH)
    /\ (forall c : string,
          (forall (fl : list bytes) (n : Topic.TopicNode) (g : Z),
              Topic.navigate fl Fixtures.tree_sys = Some n ->
              (c, g) ∈ Topic.subscribers n ->
              hd_error fl = Some Topic.PLUS
              \/ hd_error fl = Some Topic.HASH) ->
          forall g : Z, ~ (c, g) ∈ r).
Proof.
  apply (match_system_topic Fixtures.tree_sys (Fixtures.b_of "$SYS/x")).
  reflexivity.
Defined.

(** ** PUBLISH handling *)

Section PublishHandling.
Import Config Session Broker Router Handlers Fixtures.

(** C1, the code at a failing input: with a payload cap of 10 bytes, a
    QoS 1 PUBLISH (packet id 42) and a QoS 2 PUBLISH (packet id 42) with a
    17-byte payload parse correctly and are dropped, and the handler
    leaves the broker state as it was: nothing is written to the
    publisher's connection, so neither PUBACK nor PUBREC is sent. *)
Theorem oversize_publish_not_acknowledged :
  let data := publish_with_id 42 (b_of "hello-hello-hello") in
  let b := broker_pub_sub cfg_payload10 in
  (exists p1, Packet.parse_publish data 2 = Ok p1 /\ Packet.qos p1 = 1
              /\ len (Packet.payload p1) = 17)
  /\ (exists p2, Packet.parse_publish data 4 = Ok p2 /\ Packet.qos p2 = 2
                 /\ len (Packet.payload p2) = 17)
  /\ max_payload_size (config b) = 10
  /\ _process_publish plain_env "pub" data 2 b = (b, Ok tt)
  /\ _process_publish plain_env "pub" data 4 b = (b, Ok tt)
  /\ written_to "pub" (exec (_process_publish plain_env "pub" data 2) b) = []
  /\ written_to "pub" (exec (_process_publish plain_env "pub" data 4) b) = [].
Proof.
  cbv zeta. split; [|split].
  - eexists. split; [vm_compute; reflexivity|]. split; reflexivity.
  - eexists. split; [vm_compute; reflexivity|]. split; reflexivity.
  - repeat split; vm_compute; reflexivity.
Qed.

(** The same packets under the default payload cap are acknowledged:
    PUBACK ([0x40]) for QoS 1 and PUBREC ([0x50]) for QoS 2. *)
Example in_size_publish_acknowledged :
  let data := publish_with_id 42 (b_of "hello-hello-hello") in
  let b := broker_pub_sub Config.default in
  written_to "pub" (exec (_process_publish plain_env "pub" data 2) b)
  = [[64; 2; 0; 42]]
  /\ written_to "pub" (exec (_process_publish plain_env "pub" data 4) b)
     = [[80; 2; 0; 42]].
Proof. cbv zeta. split; vm_compute; reflexivity. Qed.

(** C8, the code at a failing input: with [max_topic_length] set to 8, a
    QoS 0 PUBLISH to the 10-byte topic [test/topic] is not dropped: it is
    counted as received and a PUBLISH is written to the subscriber. *)
Theorem long_topic_publish_is_routed :
  let data := publish_qos0 (b_of "hi") in
  let b := broker_pub_sub cfg_topic8 in
  let b' := exec (_process_publish plain_env "pub" data 0) b in
  Config.validate cfg_topic8 = Ok tt
  /\ max_topic_length (config b) = 8
  /\ (exists p, Packet.parse_publish data 0 = Ok p
                /\ len (Packet.topic p) = 10)
  /\ publishes_received (stats b') = 1
  /\ written_to "sub" b'
     = [[48; 14; 0; 10] ++ b_of "test/topic" ++ b_of "hi"].
Proof.
  cbv zeta. repeat split; try (vm_compute; reflexivity).
  eexists. split; vm_compute; reflexivity.
Qed.

End PublishHandling.

(** ** Interceptors *)

Section Interceptors.
Import Config Session Broker Router Handlers Fixtures.

Lemma run_interceptors_app (pre post : list Interceptor)
    (ctx ctx1 : MessageContext) :
  run_interceptors pre ctx = Some ctx1 ->
  run_interceptors (pre ++ post) ctx = run_interceptors post ctx1.
Proof.
  revert ctx. induction pre as [|ic pre IH]; intros ctx; cbn.
  - by intros [= ->].
  - destruct (_dropped (ic ctx)); [done|]. apply IH.
Qed.

(** An interceptor that marks the context as dropped ends the pipeline. *)
Lemma run_interceptors_dropped (pre post : list Interceptor)
    (ic : Interceptor) (ctx ctx1 : MessageContext) :
  run_interceptors pre ctx = Some ctx1 ->
  _dropped (ic ctx1) = true ->
  run_interceptors (pre ++ ic :: post) ctx = None.
Proof.
  intros Hpre Hd. rewrite (run_interceptors_app _ _ _ _ Hpre). cbn.
  by rewrite Hd.
Qed.

(** C10: take a PUBLISH that reaches the interceptor pipeline (it parses,
    its topic and payload pass the checks, QoS 2 is not disabled for it
    and the auth provider, if any, authorizes it).  If one of the
    registered interceptors, run after those registered before it, sets
    the dropped flag, the handler returns normally and leaves the broker
    state exactly as it was: nothing is routed, no PUBACK or PUBREC is
    written to the publisher and no inbound QoS 2 entry is tracked. *)
Theorem dropped_publish_leaves_state (env : Env) (cid : string)
    (data : bytes) (flags : Z) (b : State) (s : ClientSession)
    (p : Packet.PublishData) (pre post : list Interceptor)
    (ic : Interceptor) (ctx1 : MessageContext) :
  sessions b !! cid = Some s ->
  Packet.parse_publish data flags = Ok p ->
  is_Ok (Utils.validate_topic_name (Packet.topic p)
           Utils.default_max_length) = true ->
  count_slash (Packet.topic p) + 1 <= max_topic_levels (config b) ->
  len (Packet.payload p) <= max_payload_size (config b) ->
  (Packet.qos p = 2 -> qos2_enabled (config b) = true) ->
  (forall authorize, authorize_publish env = Some authorize ->
                     authorize (client_id s) (Packet.topic p) = true) ->
  interceptors env = pre ++ ic :: post ->
  run_interceptors pre
    (mkMessageContext (Packet.topic p) (Packet.payload p) (Packet.qos p)
       (Packet.retain p) (client_id s) false) = Some ctx1 ->
  _dropped (ic ctx1) = true ->
  _process_publish env cid data flags b = (b, Ok tt).
Proof.
  intros Hs Hp Hv Hl Hsz Hq2 Hauth Hics Hpre Hdrop.
  unfold _process_publish, session_client_id, bind, on_session.
  rewrite Hs. cbn [res_bind].
  rewrite insert_id by done.
  replace (set_sessions b (sessions b)) with b by (by destruct b).
  rewrite Hp.
  destruct (Utils.validate_topic_name (Packet.topic p)
              Utils.default_max_length); [|done].
  unfold get.
  destruct (max_topic_levels (config b) <? count_slash (Packet.topic p) + 1)
    eqn:E1; [lia|].
  destruct (max_payload_size (config b) <? len (Packet.payload p))
    eqn:E2; [lia|].
  assert ((Packet.qos p =? 2) && negb (qos2_enabled (config b)) = false)
    as ->.
  { destruct (Packet.qos p =? 2) eqn:E; [|done].
    apply Z.eqb_eq in E. by rewrite (Hq2 E). }
  assert (match authorize_publish env with
          | Some authorize => authorize (client_id s) (Packet.topic p)
          | None => true
          end = true) as ->.
  { destruct (authorize_publish env) as [f|]; [by apply Hauth|done]. }
  cbn [negb].
  rewrite Hics, (run_interceptors_dropped _ _ _ _ _ Hpre Hdrop).
  reflexivity.
Qed.

Lemma dropped_publish_leaves_state_witness :
  let b := broker_pub_sub Config.default in
  let data := publish_with_id 42 (b_of "hello") in
  _process_publish (mkEnv None [drop_all]) "pub" data 2 b = (b, Ok tt)
  /\ _process_publish (mkEnv None [drop_all]) "pub" data 4 b = (b, Ok tt).
Proof.
  cbv zeta. split.
  - eapply (dropped_publish_leaves_state (mkEnv None [drop_all]) "pub"
              (publish_with_id 42 (b_of "hello")) 2
              (broker_pub_sub Config.default) (online "pub" true)
              _ [] [] drop_all).
    + reflexivity.
    + vm_compute. reflexivity.
    + reflexivity.
    + vm_compute. discriminate.
    + vm_compute. discriminate.
    + vm_compute. discriminate.
    + intros authorize H. discriminate H.
    + reflexivity.
    + reflexivity.
    + reflexivity.
  - eapply (dropped_publish_leaves_state (mkEnv None [drop_all]) "pub"
              (publish_with_id 42 (b_of "hello")) 4
              (broker_pub_sub Config.default) (online "pub" true)
              _ [] [] drop_all).
    + reflexivity.
    + vm_compute. reflexivity.
    + reflexivity.
    + vm_compute. discriminate.
    + vm_compute. discriminate.
    + reflexivity.
    + intros authorize H. discriminate H.
    + reflexivity.
    + reflexivity.
    + reflexivity.
Defined.

End Interceptors.

(** ** Inbound QoS 2: a PUBREL that is sent again *)

Section InboundQoS2.
Import Config Session Broker Router Handlers Fixtures.

(** C2, the code at a failing input.  The publisher sends a QoS 2 PUBLISH
    with packet id 7 and then PUBREL 7: the broker answers PUBREC and
    PUBCOMP and routes the message once.  The inbound entry stays in the
    table (in state [PUBCOMP_SENT]), so when the client sends PUBREL 7
    again the message is routed to the subscriber a second time. *)
Theorem resent_pubrel_is_routed_again :
  let b0 := broker_pub_sub Config.default in
  let b1 := exec (_process_publish plain_env "pub"
                    (publish_with_id 7 (b_of "msg")) 4) b0 in
  let b2 := exec (_process_pubrel "pub" [0; 7]) b1 in
  let b3 := exec (_process_pubrel "pub" [0; 7]) b2 in
  let delivery (pid : Z) :=
    [50; 17; 0; 10] ++ b_of "test/topic" ++ [0; pid] ++ b_of "msg" in
  written_to "pub" b2 = [Packet_PUBREC 7; Packet_PUBCOMP 7]
  /\ written_to "sub" b2 = [delivery 1]
  /\ (exists s e, sessions b2 !! "pub" = Some s
                  /\ pending_qos2 s !! 7 = Some e
                  /\ QoS.q2i_state e = QoS.PUBCOMP_SENT)
  /\ written_to "pub" b3
     = [Packet_PUBREC 7; Packet_PUBCOMP 7; Packet_PUBCOMP 7]
  /\ written_to "sub" b3 = [delivery 1; delivery 2].
Proof.
  cbv zeta. split; [vm_compute; reflexivity|].
  split; [vm_compute; reflexivity|].
  split; [|split; vm_compute; reflexivity].
  eexists _, _. split; [vm_compute; reflexivity|].
  split; [vm_compute; reflexivity|reflexivity].
Qed.

End InboundQoS2.

(** ** Retained store: a cap of zero *)

Section RetainedCap.
Import Config.

(** C5, the code at a failing input: a cap of 0 passes [validate]; the
    first [set] on an empty store finds nothing to evict and stores the
    message, so the count is 1. *)
Theorem zero_cap_store_keeps_a_message :
  Config.validate Fixtures.cfg_retained0 = Ok tt
  /\ max_retained_messages Fixtures.cfg_retained0 = 0
  /\ retain_enabled Fixtures.cfg_retained0 = true
  /\ Retained.count Retained.empty = Ok 0
  /\ (try! r <- Retained.set Fixtures.cfg_retained0 Retained.empty
                  (Fixtures.b_of "a") (Fixtures.b_of "x") 0;
      Retained.count r.1) = Ok 1.
Proof. repeat split; vm_compute; reflexivity. Qed.

End RetainedCap.

(** ** Routing: effective QoS *)

Section EffectiveQoS.
Import Config Session Broker Router.

Variables (topic payload : bytes) (qos : Z) (subs : list (string * Z)).

Local Abbreviation sent_ok := (Spec.sent_ok topic payload qos subs).
Local Abbreviation queued_ok := (Spec.queued_ok topic payload qos subs).
Local Abbreviation session_ext := (Spec.session_ext topic payload qos subs).
Local Abbreviation ext := (Spec.ext topic payload qos subs).
Local Abbreviation sound := (Spec.sound topic payload qos subs).

Lemma session_ext_refl (c : string) (s : ClientSession) : session_ext c s s.
Proof.
  split; [|by left]. exists []. by rewrite app_nil_r.
Qed.

Lemma session_ext_same (c : string) (s s' : ClientSession) :
  writer s' = writer s -> queued_messages s' = queued_messages s ->
  session_ext c s s'.
Proof.
  intros Hw Hq. split.
  - exists []. by rewrite Hw, app_nil_r.
  - intros m. rewrite Hq. by left.
Qed.

Lemma session_ext_trans (c : string) (s1 s2 s3 : ClientSession) :
  session_ext c s1 s2 -> session_ext c s2 s3 -> session_ext c s1 s3.
Proof.
  intros [(n1 & H1 & F1) Q1] [(n2 & H2 & F2) Q2]. split.
  - exists (n1 ++ n2). rewrite H2, H1, app_assoc. split; [done|].
    by apply Forall_app.
  - intros m Hm. destruct (Q2 m Hm) as [H|H]; [by apply Q1|by right].
Qed.

Lemma ext_refl (b : State) : ext b b.
Proof.
  intros c. destruct (sessions b !! c) as [s|] eqn:E; [|done].
  exists s. split; [done|apply session_ext_refl].
Qed.

Lemma ext_trans (b1 b2 b3 : State) : ext b1 b2 -> ext b2 b3 -> ext b1 b3.
Proof.
  intros H12 H23 c. specialize (H12 c). specialize (H23 c).
  destruct (sessions b1 !! c) as [s1|].
  - destruct H12 as (s2 & E2 & X12). rewrite E2 in H23.
    destruct H23 as (s3 & E3 & X23). exists s3. split; [done|].
    by eapply session_ext_trans.
  - by rewrite H12 in H23.
Qed.

Lemma ext_same_sessions (b b' : State) : sessions b' = sessions b -> ext b b'.
Proof.
  intros E c. rewrite E. destruct (sessions b !! c) as [s|]; [|done].
  exists s. split; [done|apply session_ext_refl].
Qed.

Lemma sound_ret {A} (a : A) (Q : A -> Prop) : Q a -> sound (ret a) Q.
Proof. intros HQ b. split; [apply ext_refl|]. by intros a' [= <-]. Qed.

Lemma sound_bind {A B} (m : M A) (k : A -> M B) (Q : A -> Prop)
    (R : B -> Prop) :
  sound m Q -> (forall a, Q a -> sound (k a) R) -> sound (bind m k) R.
Proof.
  intros Hm Hk b. unfold bind.
  destruct (Hm b) as [He Hq]. destruct (m b) as [b1 [a|e]]; cbn [fst snd] in *.
  - destruct (Hk a (Hq a eq_refl) b1) as [He' Hr].
    split; [by eapply ext_trans|done].
  - split; [done|]. by intros a [=].
Qed.

Lemma sound_weaken {A} (m : M A) (Q Q' : A -> Prop) :
  sound m Q -> (forall a, Q a -> Q' a) -> sound m Q'.
Proof. intros Hm HQ b. destruct (Hm b) as [He Hq]. split; eauto. Qed.

Lemma sound_get : sound get (fun _ => True).
Proof. intros b. split; [apply ext_refl|done]. Qed.

Lemma sound_lift {A} (r : res A) : sound (lift r) (fun a => r = Ok a).
Proof. intros b. split; [apply ext_refl|done]. Qed.

Lemma sound_modify (f : State -> State) :
  (forall b, sessions (f b) = sessions b) -> sound (modify f) (fun _ => True).
Proof.
  intros Hf b. split; [|done]. apply ext_same_sessions. cbn. apply Hf.
Qed.

Lemma sound_on_session {A} (cid : string)
    (f : ClientSession -> res (ClientSession * A)) (Q : A -> Prop) :
  (forall s s' a, f s = Ok (s', a) -> session_ext cid s s' /\ Q a) ->
  sound (on_session cid f) Q.
Proof.
  intros Hf b. unfold on_session.
  destruct (sessions b !! cid) as [s|] eqn:Es; cbn [fst snd].
  - destruct (f s) as [[s' a]|e] eqn:Ef; cbn [fst snd].
    + destruct (Hf s s' a Ef) as [Hx Hq]. split; [|by intros ? [= <-]].
      intros c. cbn. destruct (decide (c = cid)) as [->|Hne].
      * rewrite Es, lookup_insert_eq. by exists s'.
      * rewrite lookup_insert_ne by done.
        destruct (sessions b !! c) as [s0|]; [|done].
        exists s0. split; [done|apply session_ext_refl].
    + split; [apply ext_refl|]. by intros a [=].
  - split; [apply ext_refl|]. by intros a [=].
Qed.

Lemma sound_session_send (cid : string) (pkt : bytes) :
  sent_ok cid pkt -> sound (session_send cid pkt) (fun _ => True).
Proof.
  intros Hp. apply sound_on_session. intros s s' a [= <- <-].
  split; [|done]. unfold send.
  destruct (broken (writer s)); [by apply session_ext_same|].
  split; [|by left]. cbn. exists [pkt]. split; [done|].
  by apply Forall_singleton.
Qed.

Lemma sound_session_queue_message (cid : string) (eff max_queued : Z) :
  queued_ok cid (topic, payload, eff) ->
  sound (session_queue_message cid topic payload eff max_queued)
    (fun _ => True).
Proof.
  intros Hq. apply sound_on_session. intros s s' a.
  unfold queue_message.
  destruct (max_queued <=? len (queued_messages s)).
  - destruct (queued_messages s) as [|m0 q] eqn:Eq; cbn; [done|].
    intros [= <- <-]. split; [|done]. split.
    + exists []. cbn. by rewrite app_nil_r.
    + cbn. intros m [H|H%list_elem_of_singleton]%elem_of_app.
      * left. rewrite Eq. by apply elem_of_cons; right.
      * right. by subst.
  - cbn. intros [= <- <-]. split; [|done]. split.
    + exists []. cbn. by rewrite app_nil_r.
    + cbn. intros m [H|H%list_elem_of_singleton]%elem_of_app.
      * by left.
      * right. by subst.
Qed.

Lemma sound_session_next_packet_id (cid : string) :
  sound (session_next_packet_id cid) (fun _ => True).
Proof.
  apply sound_on_session. intros s s' a [= <- <-].
  split; [by apply session_ext_same|done].
Qed.

Lemma sound_count_sent (opts : Options) :
  sound (count_sent opts) (fun _ => True).
Proof.
  unfold count_sent. destruct (with_stats opts).
  - by apply sound_modify.
  - by apply sound_ret.
Qed.

Lemma sound_inflight_full (opts : Options) (cid : string) :
  sound (inflight_full opts cid) (fun _ => True).
Proof.
  unfold inflight_full.
  eapply sound_bind; [apply sound_get|]. intros b _.
  eapply sound_bind with (Q := fun _ => True).
  - apply sound_on_session. intros s s' a [= <- <-].
    split; [apply session_ext_refl|done].
  - intros n _. by apply sound_ret.
Qed.

(** Tracking an outbound entry leaves the connection and the queue as
    they are. *)
Lemma sound_track (cid : string) (f : ClientSession -> ClientSession) :
  (forall s, writer (f s) = writer s) ->
  (forall s, queued_messages (f s) = queued_messages s) ->
  sound (on_session cid (fun s => Ok (f s, tt))) (fun _ => True).
Proof.
  intros Hw Hq. apply sound_on_session. intros s s' a [= <- <-].
  split; [|done]. by apply session_ext_same.
Qed.

(** The tracked branch of [_send_to_subscriber], for QoS 1 and 2. *)
Lemma sound_send_tracked (opts : Options) (cid : string) (g eff q : Z)
    (track : Z -> M unit) :
  (cid, g) ∈ subs -> eff = Z.min qos g -> q = eff -> 0 < eff <= 2 ->
  (forall pid, sound (track pid) (fun _ => True)) ->
  forall b0 : State,
    sound
      (do! full <- inflight_full opts cid;
       if full then
         session_queue_message cid topic payload eff
           (max_queued_messages (config b0))
       else
         do! pid <- session_next_packet_id cid;
         do! pkt <- lift (Packet.build_publish topic payload q false false
                            (Some pid));
         session_send cid pkt;;
         (track pid);;
         count_sent opts)
      (fun _ => True).
Proof.
  intros Hin Heff -> Hrange Htrack b0.
  eapply sound_bind; [apply sound_inflight_full|]. intros full _.
  destruct full.
  - apply sound_session_queue_message. exists g. subst eff.
    split; [done|]. split; [done|lia].
  - eapply sound_bind; [apply sound_session_next_packet_id|]. intros pid _.
    eapply sound_bind; [apply sound_lift|]. intros pkt Hpkt.
    eapply sound_bind.
    { apply sound_session_send. exists g, (Some pid). subst eff.
      split; [done|]. split; [lia|done]. }
    intros _ _. eapply sound_bind; [apply Htrack|].
    intros _ _. apply sound_count_sent.
Qed.

Lemma sound_send_to_subscriber (opts : Options) (cid : string) (g : Z) :
  (cid, g) ∈ subs ->
  sound (_send_to_subscriber opts cid topic payload (Z.min qos g))
    (fun _ => True).
Proof.
  intros Hin. unfold _send_to_subscriber.
  eapply sound_bind; [apply sound_get|]. intros b0 _.
  destruct (Z.min qos g =? 0) eqn:E0.
  { apply Z.eqb_eq in E0.
    eapply sound_bind; [apply sound_lift|]. intros pkt Hpkt.
    eapply sound_bind; [|intros _ _; apply sound_count_sent].
    apply sound_session_send. exists g, None. rewrite E0.
    split; [done|]. split; [lia|done]. }
  destruct (Z.min qos g =? 1) eqn:E1.
  { apply Z.eqb_eq in E1.
    apply (sound_send_tracked opts cid g); [done|done|done|lia|].
    intros pid. destruct (with_qos_manager opts); [|by apply sound_ret].
    by apply sound_track. }
  destruct (Z.min qos g =? 2) eqn:E2.
  { apply Z.eqb_eq in E2.
    apply (sound_send_tracked opts cid g); [done|done|done|lia|].
    intros pid. destruct (with_qos_manager opts); [|by apply sound_ret].
    by apply sound_track. }
  apply sound_count_sent.
Qed.

Lemma sound_route_to (opts : Options) (sender_id : option string)
    (cid : string) (g : Z) :
  (cid, g) ∈ subs ->
  sound (route_to opts topic payload qos sender_id cid g) (fun _ => True).
Proof.
  intros Hin. unfold route_to.
  case_bool_decide; [by apply sound_ret|].
  eapply sound_bind; [apply sound_get|]. intros b0 _.
  destruct (sessions b0 !! cid) as [s|]; [|by apply sound_ret].
  destruct (connected s); [by apply sound_send_to_subscriber|].
  destruct (negb (clean_session s) && (0 <? Z.min qos g)) eqn:E;
    [|by apply sound_ret].
  apply sound_session_queue_message. exists g.
  apply andb_true_iff in E as [_ E%Z.ltb_lt]. done.
Qed.

Lemma sound_route_all (opts : Options) (sender_id : option string)
    (l : list (string * Z)) :
  (forall x, x ∈ l -> x ∈ subs) ->
  sound (route_all opts topic payload qos sender_id l) (fun _ => True).
Proof.
  induction l as [|[cid g] l IH]; intros Hsub; cbn [route_all].
  - by apply sound_ret.
  - eapply sound_bind.
    + apply sound_route_to. apply Hsub. by apply elem_of_cons; left.
    + intros _ _. apply IH. intros x Hx. apply Hsub.
      by apply elem_of_cons; right.
Qed.

End EffectiveQoS.

Section RoutePublish.
Import Config Session Broker Router Spec.

Lemma dict_set_keys_nodup {K V} `{EqDecision K} (d : list (K * V)) (k : K)
    (v : V) :
  NoDup d.*1 -> NoDup (dict_set d k v).*1
  /\ forall k', k' ∈ (dict_set d k v).*1 -> k' ∈ d.*1 \/ k' = k.
Proof.
  induction d as [|[k0 v0] d IH]; cbn.
  - intros _. split; [apply NoDup_singleton|].
    intros k' ?%list_elem_of_singleton. by right.
  - intros [Hk0 Hd]%NoDup_cons. destruct (IH Hd) as [IH1 IH2].
    destruct (decide (k0 = k)) as [->|Hne]; cbn.
    + split; [by apply NoDup_cons|]. by left.
    + split.
      * apply NoDup_cons. split; [|done].
        intros [?|?]%IH2; done.
      * intros k' [->|H]%elem_of_cons.
        -- left. by apply elem_of_cons; left.
        -- destruct (IH2 k' H) as [?|?]; [left|by right].
           by apply elem_of_cons; right.
Qed.

Lemma dict_update_keys_nodup {K V} `{EqDecision K} (other d : list (K * V)) :
  NoDup d.*1 -> NoDup (dict_update d other).*1.
Proof.
  unfold dict_update. revert d.
  induction other as [|[k v] other IH]; intros d Hd; cbn; [done|].
  apply IH. by apply dict_set_keys_nodup.
Qed.

(** The result of [match] is a dictionary: a client appears at most once,
    so it has one granted QoS. *)
Lemma match_keys_nodup (root : Topic.TopicNode) (topic : bytes)
    (subs : list (string * Z)) :
  Topic.match_ root topic = Ok subs -> NoDup subs.*1.
Proof.
  unfold Topic.match_. intros Hm.
  destruct (match_loop_inv (Topic._split_topic topic)
              (fun _ res => NoDup res.*1))
    with (budget := Topic.match_budget (Topic._split_topic topic))
         (stack := [(root, 0%nat)]) (result := @nil (string * Z))
    as (r & Hr & Hnd).
  - intros node i stack result st res Hnd. unfold Topic.match_step.
    repeat first
      [ done
      | intros [= <- <-]
      | apply dict_update_keys_nodup
      | match goal with
        | |- context [bool_decide ?P] => destruct (bool_decide P)
        | |- context [match ?x with _ => _ end] => destruct x
        end ].
  - apply match_budget_enough.
  - apply stack_bounded_root.
  - apply NoDup_nil_2.
  - rewrite Hm in Hr. by injection Hr as ->.
Qed.

Lemma store_retained_sessions (opts : Options) (topic payload : bytes)
    (qos : Z) (retain : bool) (b : State) :
  sessions (store_retained opts topic payload qos retain b).1 = sessions b.
Proof.
  unfold store_retained, bind, get, modify, lift.
  destruct (retain && retain_enabled (config b)); [|done].
  destruct (with_retained_store opts), (len payload =? 0); try done.
  by destruct (Retained.set (config b) (retained_store b) topic payload qos).
Qed.

(** The fixed header of a PUBLISH that [build_publish] returns. *)
Lemma build_publish_header (topic payload : bytes) (q : Z)
    (pid : option Z) (pkt : bytes) :
  0 <= q <= 2 ->
  Packet.build_publish topic payload q false false pid = Ok pkt ->
  Packet.packet_type pkt = Some Packet.PUBLISH
  /\ Packet.packet_qos pkt = Some q.
Proof.
  intros Hq. unfold Packet.build_publish.
  repeat match goal with
    | |- context [if ?c then Raise _ else _] => destruct c; [done|]
    end.
  destruct (Utils.encode_utf8_string topic) as [te|]; [|done].
  cbn [res_bind].
  match goal with
  | |- context [res_bind ?vh _] => destruct vh as [vh'|]; [|done]
  end.
  cbn [res_bind].
  match goal with
  | |- context [res_bind ?rl _] => destruct rl as [rl'|]; [|done]
  end.
  cbn [res_bind app]. intros [= <-].
  assert (q = 0 \/ q = 1 \/ q = 2) as [->|[->| ->]] by lia; done.
Qed.

(** Whether [route_publish] returns or raises part of the way through the
    subscribers, it only appends to what was written to the connection of
    a session and only adds to its queue.  Every chunk it writes to the
    connection of client [c] is a PUBLISH whose QoS bits are [min(qos, g)]
    for the granted QoS [g] of [c]; every message it adds to the queue of
    [c] carries [min(qos, g)], and that value is greater than 0. *)
Lemma route_publish_writes_only_effective_qos (opts : Options)
    (topic payload : bytes) (qos : Z) (retain : bool) (sender_id : option string) (b : State)
    (c : string) (s : ClientSession) :
  sessions b !! c = Some s ->
  exists (subs : list (string * Z)) (s' : ClientSession),
    Topic.match_
      (topic_tree (store_retained opts topic payload qos retain b).1) topic
    = Ok subs
    /\ NoDup subs.*1
    /\ sessions
         (route_publish opts topic payload qos retain sender_id b).1 !! c
       = Some s'
    /\ (exists new : list bytes,
           written (writer s') = written (writer s) ++ new
           /\ Forall (fun pkt =>
                 exists g : Z,
                   (c, g) ∈ subs
                   /\ Packet.packet_type pkt = Some Packet.PUBLISH
                   /\ Packet.packet_qos pkt = Some (Z.min qos g)
                   /\ Z.min qos g <= g) new)
    /\ (forall m : bytes * bytes * Z,
           m ∈ queued_messages s' ->
           m ∈ queued_messages s
           \/ exists g : Z,
                (c, g) ∈ subs /\ m = (topic, payload, Z.min qos g)
                /\ 0 < Z.min qos g <= g).
Proof.
  intros Hs.
  destruct (match_total
              (topic_tree (store_retained opts topic payload qos retain b).1)
              topic) as [subs Hm].
  pose proof (store_retained_sessions opts topic payload qos retain b) as Hss.
  assert (Hext : ext topic payload qos subs b
                   (route_publish opts topic payload qos retain sender_id b).1).
  { unfold route_publish, bind.
    destruct (store_retained opts topic payload qos retain b) as [b1 [u|e]];
      cbn [fst snd] in *.
    - unfold get, lift. rewrite Hm.
      eapply ext_trans; [by apply ext_same_sessions|].
      by apply (sound_route_all topic payload qos subs opts sender_id subs).
    - by apply ext_same_sessions. }
  specialize (Hext c). rewrite Hs in Hext.
  destruct Hext as (s' & Hs' & (new & Hw & Hnew) & Hq).
  exists subs, s'. split; [done|]. split; [by eapply match_keys_nodup|].
  split; [done|]. split.
  - exists new. split; [done|].
    eapply Forall_impl; [exact Hnew|].
    intros pkt (g & pid & Hin & Hrange & Hb).
    destruct (build_publish_header _ _ _ _ _ Hrange Hb) as [Ht Hq'].
    exists g. repeat split; try done. lia.
  - intros m Hm'. destruct (Hq m Hm') as [H|(g & Hin & -> & Hpos)];
      [by left|right].
    exists g. repeat split; try done. lia.
Qed.

End RoutePublish.

Section RoutePublishExamples.
Import Config Session Broker Router Fixtures.

(** A QoS 2 message for a subscriber with granted QoS 1 goes out as a
    QoS 1 PUBLISH (first byte [0x32]). *)
Example route_downgrade_example :
  written_to "sub"
    (exec (route_publish full (b_of "test/topic") (b_of "hi") 2 false
             (Some "pub")) (broker_pub_sub Config.default))
  = [[50; 16; 0; 10] ++ b_of "test/topic" ++ [0; 1] ++ b_of "hi"].
Proof. vm_compute. reflexivity. Qed.

(** For offline persistent sessions a QoS 1 message is queued at QoS 1 for
    the subscriber with granted QoS 2 and is not queued for the subscriber
    with granted QoS 0. *)
Example route_offline_example :
  let b' := exec (route_publish full (b_of "test/topic") (b_of "hi") 1 false
                    (Some "pub")) broker_offline in
  queued_for "high" b' = [(b_of "test/topic", b_of "hi", 1)]
  /\ queued_for "low" b' = []
  /\ written_to "high" b' = [] /\ written_to "low" b' = [].
Proof. cbv zeta. repeat split; vm_compute; reflexivity. Qed.

End RoutePublishExamples.

(** ** Drop paths of the PUBLISH handler, in general *)

Section DropPaths.
Import Config Session Broker Router Handlers.

(** The handler up to the checks on the parsed packet. *)
Lemma process_publish_checked (env : Env) (cid : string) (data : bytes)
    (flags : Z) (b : State) (s : ClientSession) (p : Packet.PublishData) :
  sessions b !! cid = Some s ->
  Packet.parse_publish data flags = Ok p ->
  is_Ok (Utils.validate_topic_name (Packet.topic p)
           Utils.default_max_length) = true ->
  (max_topic_levels (config b) <? count_slash (Packet.topic p) + 1) = true
  \/ (max_payload_size (config b) <? len (Packet.payload p)) = true ->
  _process_publish env cid data flags b = (b, Ok tt).
Proof.
  intros Hs Hp Hv Hdrop.
  unfold _process_publish, session_client_id, bind, on_session.
  rewrite Hs. cbn [res_bind].
  rewrite insert_id by done.
  replace (set_sessions b (sessions b)) with b by (by destruct b).
  rewrite Hp.
  destruct (Utils.validate_topic_name (Packet.topic p)
              Utils.default_max_length); [|done].
  unfold get.
  destruct (max_topic_levels (config b) <? count_slash (Packet.topic p) + 1);
    [done|].
  destruct Hdrop as [? | ->]; done.
Qed.

(** Every PUBLISH whose payload is longer than [max_payload_size] leaves
    the broker state as it was, whatever its QoS: it is not routed and
    nothing is written to the publisher. *)
Lemma oversize_publish_leaves_state (env : Env) (cid : string)
    (data : bytes) (flags : Z) (b : State) (s : ClientSession)
    (p : Packet.PublishData) :
  sessions b !! cid = Some s ->
  Packet.parse_publish data flags = Ok p ->
  max_payload_size (config b) < len (Packet.payload p) ->
  _process_publish env cid data flags b = (b, Ok tt).
Proof.
  intros Hs Hp Hlen.
  destruct (is_Ok (Utils.validate_topic_name (Packet.topic p)
                     Utils.default_max_length)) eqn:Hv.
  - eapply process_publish_checked; eauto. right. by apply Z.ltb_lt.
  - unfold _process_publish, session_client_id, bind, on_session.
    rewrite Hs. cbn [res_bind]. rewrite insert_id by done.
    replace (set_sessions b (sessions b)) with b by (by destruct b).
    rewrite Hp.
    by destruct (Utils.validate_topic_name (Packet.topic p)
                   Utils.default_max_length).
Qed.

(** Every PUBLISH whose topic has more than [max_topic_levels] levels
    leaves the broker state as it was. *)
Lemma deep_topic_publish_leaves_state (env : Env) (cid : string)
    (data : bytes) (flags : Z) (b : State) (s : ClientSession)
    (p : Packet.PublishData) :
  sessions b !! cid = Some s ->
  Packet.parse_publish data flags = Ok p ->
  max_topic_levels (config b) < count_slash (Packet.topic p) + 1 ->
  _process_publish env cid data flags b = (b, Ok tt).
Proof.
  intros Hs Hp Hlen.
  destruct (is_Ok (Utils.validate_topic_name (Packet.topic p)
                     Utils.default_max_length)) eqn:Hv.
  - eapply process_publish_checked; eauto. left. by apply Z.ltb_lt.
  - unfold _process_publish, session_client_id, bind, on_session.
    rewrite Hs. cbn [res_bind]. rewrite insert_id by done.
    replace (set_sessions b (sessions b)) with b by (by destruct b).
    rewrite Hp.
    by destruct (Utils.validate_topic_name (Packet.topic p)
                   Utils.default_max_length).
Qed.

(** The length check on the topic does not depend on the configuration:
    a topic of at most 256 bytes passes whatever [max_topic_length] is. *)
Lemma validate_topic_name_default (topic : bytes) :
  0 < len topic <= 256 ->
  byte_in 43 topic = false -> byte_in 35 topic = false ->
  Utils.validate_topic_name topic Utils.default_max_length = Ok true.
Proof.
  intros Hlen Hp Hh. unfold Utils.validate_topic_name.
  destruct (len topic =? 0) eqn:E0; [lia|].
  unfold Utils.default_max_length.
  destruct (256 <? len topic) eqn:E1; [lia|].
  by rewrite Hp, Hh.
Qed.

(** [handle_pubrel] keeps the inbound entry, so a second PUBREL for the
    same packet id hands the same message to the router again. *)
Lemma handle_pubrel_twice (s : ClientSession) (p : Z)
    (msg : bytes * bytes * bool) :
  (QoSManager.handle_pubrel s p).2 = Some msg ->
  (QoSManager.handle_pubrel (QoSManager.handle_pubrel s p).1 p).2 = Some msg
  /\ exists e, pending_qos2 (QoSManager.handle_pubrel s p).1 !! p = Some e
               /\ QoS.q2i_state e = QoS.PUBCOMP_SENT.
Proof.
  unfold QoSManager.handle_pubrel.
  destruct (pending_qos2 s !! p) as [e|] eqn:E; [|done].
  cbn. intros [= <-]. rewrite lookup_insert_eq. cbn.
  split; [done|]. by eexists.
Qed.

End DropPaths.

(** ** Retained store: the cap and the LRU list, for a cap of at least 1 *)

Section RetainedCount.
Import Topic Spec.

Lemma count_retained_eq (node : TopicNode) :
  count_retained node
  = slot_count (retained node)
    + sum_retained (dict_values (_ensure_children node)).
Proof.
  destruct node as [[l|] subs r]; cbn [count_retained retained]; [|done].
  f_equal. unfold _ensure_children. cbn [children].
  induction l as [|[k c] l IH]; [done|].
  cbn [dict_values map sum_retained foldr snd]. by rewrite IH.
Qed.

Lemma node_count_eq (node : TopicNode) :
  node_count node = S (sum_nodes (dict_values (_ensure_children node))).
Proof.
  destruct node as [[l|] subs r]; cbn [node_count]; [|done].
  f_equal. unfold _ensure_children. cbn [children].
  induction l as [|[k c] l IH]; [done|].
  cbn [dict_values map sum_nodes foldr snd]. by rewrite IH.
Qed.

Lemma sum_retained_cons (n : TopicNode) (l : list TopicNode) :
  sum_retained (n :: l) = count_retained n + sum_retained l.
Proof. reflexivity. Qed.

Lemma sum_nodes_cons (n : TopicNode) (l : list TopicNode) :
  sum_nodes (n :: l) = (node_count n + sum_nodes l)%nat.
Proof. reflexivity. Qed.

Lemma sum_retained_push (vs stack : list TopicNode) :
  sum_retained (fold_left (fun st c => c :: st) vs stack)
  = sum_retained vs + sum_retained stack.
Proof.
  revert stack. induction vs as [|v vs IH]; intros stack; cbn [fold_left].
  - cbn. lia.
  - rewrite IH, !sum_retained_cons. lia.
Qed.

Lemma sum_nodes_push (vs stack : list TopicNode) :
  sum_nodes (fold_left (fun st c => c :: st) vs stack)
  = (sum_nodes vs + sum_nodes stack)%nat.
Proof.
  revert stack. induction vs as [|v vs IH]; intros stack; cbn [fold_left].
  - done.
  - rewrite IH, !sum_nodes_cons. lia.
Qed.

Lemma has_children_false (node : TopicNode) :
  has_children node = false -> _ensure_children node = [].
Proof. by destruct node as [[[|? ?]|] ? ?]. Qed.

Lemma push_children_sums (node : TopicNode) (stack : list TopicNode) :
  sum_retained (push_children node stack)
  = sum_retained (dict_values (_ensure_children node)) + sum_retained stack
  /\ sum_nodes (push_children node stack)
     = (sum_nodes (dict_values (_ensure_children node))
        + sum_nodes stack)%nat.
Proof.
  unfold push_children. destruct (has_children node) eqn:E.
  - by rewrite sum_retained_push, sum_nodes_push.
  - by rewrite (has_children_false _ E).
Qed.

(** The walk of [get_retained_count] visits every node once and ends
    within its budget. *)
Lemma count_loop_spec (budget : nat) :
  forall (stack : list TopicNode) (count : Z),
    (sum_nodes stack < budget)%nat ->
    count_loop budget stack count = Ok (count + sum_retained stack).
Proof.
  induction budget as [|budget IH]; intros stack count Hb; [lia|].
  destruct stack as [|node stack]; cbn [count_loop].
  - cbn. f_equal. lia.
  - destruct (push_children_sums node stack) as [Hr Hn].
    rewrite sum_nodes_cons, node_count_eq in Hb.
    rewrite IH by lia. f_equal.
    rewrite Hr, sum_retained_cons, (count_retained_eq node).
    unfold slot_count. destruct (retained node); lia.
Qed.

Lemma get_retained_count_spec (root : TopicNode) :
  get_retained_count root = Ok (count_retained root).
Proof.
  unfold get_retained_count. rewrite count_loop_spec.
  - f_equal. rewrite sum_retained_cons. cbn. lia.
  - rewrite sum_nodes_cons. cbn. lia.
Qed.

End RetainedCount.

Section RetainedTrie.
Import Topic Spec.

Lemma dict_get_set {K V} `{EqDecision K} (d : list (K * V)) (k k' : K)
    (v : V) :
  dict_get (dict_set d k v) k'
  = if decide (k = k') then Some v else dict_get d k'.
Proof.
  induction d as [|[k0 v0] d IH]; cbn.
  - by destruct (decide (k = k')).
  - destruct (decide (k0 = k)) as [->|Hne]; cbn.
    + by destruct (decide (k = k')).
    + destruct (decide (k0 = k')) as [->|Hne'].
      * by rewrite decide_False by done.
      * done.
Qed.

Lemma sum_retained_dict_set (d : list (bytes * TopicNode)) (k : bytes)
    (c' : TopicNode) :
  sum_retained (dict_values (dict_set d k c'))
  = sum_retained (dict_values d)
    - match dict_get d k with Some c => count_retained c | None => 0 end
    + count_retained c'.
Proof.
  induction d as [|[k0 c0] d IH]; cbn [dict_set dict_get].
  - cbn. lia.
  - destruct (decide (k0 = k)) as [->|Hne].
    + unfold dict_values. cbn [map snd]. rewrite !sum_retained_cons. lia.
    + unfold dict_values in *. cbn [map snd].
      rewrite !sum_retained_cons, IH. lia.
Qed.

Lemma retained_at_new_node (levels : list bytes) :
  retained_at levels new_node = None.
Proof. by destruct levels. Qed.

Lemma child_has_children (node : TopicNode) (k : bytes) (c : TopicNode) :
  dict_get (_ensure_children node) k = Some c -> has_children node = true.
Proof. by destruct node as [[[|? ?]|] ? ?]. Qed.

Lemma retained_at_cons (level : bytes) (rest : list bytes)
    (node : TopicNode) :
  retained_at (level :: rest) node
  = match dict_get (_ensure_children node) level with
    | Some c => retained_at rest c
    | None => None
    end.
Proof.
  unfold retained_at. cbn [navigate]. unfold child.
  destruct (dict_get (_ensure_children node) level) as [c|] eqn:E.
  - by rewrite (child_has_children _ _ _ E).
  - by destruct (has_children node).
Qed.

Lemma ensure_children_some (l : list (bytes * TopicNode))
    (subs : list (string * Z)) (r : option (bytes * bytes * Z)) :
  _ensure_children (mkTopicNode (Some l) subs r) = l.
Proof. reflexivity. Qed.

Lemma count_navigate_create (r : option (bytes * bytes * Z))
    (levels : list bytes) :
  forall node : TopicNode,
    count_retained (navigate_create levels (set_slot r) node)
    = count_retained node - slot_count (retained_at levels node)
      + slot_count r.
Proof.
  induction levels as [|level rest IH]; intros node.
  - cbn [navigate_create]. unfold retained_at. cbn [navigate].
    rewrite !count_retained_eq. unfold set_slot, _ensure_children.
    cbn [children retained]. lia.
  - cbn [navigate_create]. rewrite retained_at_cons.
    rewrite (count_retained_eq (mkTopicNode _ _ _)).
    rewrite ensure_children_some. cbn [retained].
    rewrite sum_retained_dict_set, IH, (count_retained_eq node).
    destruct (dict_get (_ensure_children node) level) as [c|].
    + lia.
    + rewrite retained_at_new_node. cbn. lia.
Qed.

Lemma retained_at_navigate_create (r : option (bytes * bytes * Z))
    (levels : list bytes) :
  forall (levels' : list bytes) (node : TopicNode),
    retained_at levels' (navigate_create levels (set_slot r) node)
    = if decide (levels' = levels) then r else retained_at levels' node.
Proof.
  induction levels as [|level rest IH]; intros levels' node.
  - cbn [navigate_create]. destruct levels' as [|l' r'].
    + by rewrite decide_True by done.
    + rewrite decide_False by done. by rewrite !retained_at_cons.
  - cbn [navigate_create]. destruct levels' as [|l' r'].
    + by rewrite decide_False by done.
    + rewrite !retained_at_cons, ensure_children_some, dict_get_set.
      destruct (decide (level = l')) as [->|Hne].
      * rewrite IH.
        destruct (decide (r' = rest)) as [->|Hne'].
        -- by rewrite decide_True by done.
        -- rewrite decide_False by congruence.
           destruct (dict_get (_ensure_children node) l'); [done|].
           apply retained_at_new_node.
      * by rewrite decide_False by congruence.
Qed.

Lemma join_split (sep : Z) (s : bytes) : join_on sep (split_on sep s) = s.
Proof.
  induction s as [|c s IH]; [done|].
  cbn [split_on]. pose proof (split_on_nonempty sep s) as Hne.
  destruct (c =? sep) eqn:E.
  - apply Z.eqb_eq in E as ->.
    destruct (split_on sep s) as [|l ls]; [done|].
    cbn [join_on app] in *. by rewrite IH.
  - destruct (split_on sep s) as [|l ls]; [done|].
    cbn [join_on] in *. destruct ls; cbn [app]; by rewrite IH.
Qed.

Lemma split_topic_inj (s1 s2 : bytes) :
  _split_topic s1 = _split_topic s2 -> s1 = s2.
Proof.
  unfold _split_topic. intros H.
  by rewrite <- (join_split SLASH s1), <- (join_split SLASH s2), H.
Qed.

Lemma set_retained_eq (root : TopicNode) (topic payload : bytes) (qos : Z) :
  set_retained root topic payload qos
  = navigate_create (_split_topic topic)
      (set_slot (if len payload =? 0 then None
                 else Some (topic, payload, qos))) root.
Proof. reflexivity. Qed.

Lemma get_retained_eq (root : TopicNode) (topic : bytes) :
  get_retained root topic = retained_at (_split_topic topic) root.
Proof. reflexivity. Qed.

(** Reading a slot after [set_retained]. *)
Lemma get_set_retained (root : TopicNode) (topic topic' payload : bytes)
    (qos : Z) :
  get_retained (set_retained root topic payload qos) topic'
  = if decide (topic' = topic)
    then (if len payload =? 0 then None else Some (topic, payload, qos))
    else get_retained root topic'.
Proof.
  rewrite set_retained_eq, !get_retained_eq, retained_at_navigate_create.
  destruct (decide (topic' = topic)) as [->|Hne].
  - by rewrite decide_True by done.
  - rewrite decide_False; [done|]. by intros ?%split_topic_inj.
Qed.

(** Counting after [set_retained]. *)
Lemma count_set_retained (root : TopicNode) (topic payload : bytes)
    (qos : Z) :
  count_retained (set_retained root topic payload qos)
  = count_retained root - slot_count (get_retained root topic)
    + (if len payload =? 0 then 0 else 1).
Proof.
  rewrite set_retained_eq, get_retained_eq, count_navigate_create.
  by destruct (len payload =? 0).
Qed.

End RetainedTrie.

Section RetainedStoreInvariant.
Import Config Retained Spec.

Lemma list_remove_not_in (x : bytes) (l : list bytes) :
  x ∉ l -> list_remove x l = l.
Proof.
  induction l as [|y l IH]; [done|]. cbn.
  intros [Hne Hl]%not_elem_of_cons.
  rewrite decide_False by done. by rewrite IH.
Qed.

Lemma elem_of_list_remove (x y : bytes) (l : list bytes) :
  NoDup l -> y ∈ list_remove x l <-> y ∈ l /\ y <> x.
Proof.
  induction l as [|z l IH]; cbn.
  - intros _. split; [by intros ?%elem_of_nil|by intros [?%elem_of_nil _]].
  - intros [Hz Hl]%NoDup_cons. destruct (decide (z = x)) as [->|Hne].
    + split.
      * intros H. split; [by apply elem_of_cons; right|]. by intros ->.
      * intros [[->|H]%elem_of_cons Hy]; done.
    + rewrite !elem_of_cons, (IH Hl). split.
      * intros [->|[H1 H2]]; split; auto.
      * intros [[->|H] Hy]; auto.
Qed.

Lemma NoDup_list_remove (x : bytes) (l : list bytes) :
  NoDup l -> NoDup (list_remove x l).
Proof.
  induction l as [|z l IH]; [done|]. cbn.
  intros [Hz Hl]%NoDup_cons. destruct (decide (z = x)); [done|].
  apply NoDup_cons. split; [|by apply IH].
  by intros [? _]%elem_of_list_remove.
Qed.

Lemma len_list_remove (x : bytes) (l : list bytes) :
  x ∈ l -> len (list_remove x l) = len l - 1.
Proof.
  induction l as [|z l IH]; [by intros ?%elem_of_nil|]. cbn.
  destruct (decide (z = x)) as [->|Hne].
  - intros _. unfold len. cbn [length]. lia.
  - intros [->|H]%elem_of_cons; [done|].
    specialize (IH H). unfold len in *. cbn [length]. lia.
Qed.

Lemma lru_consistent_empty : lru_consistent Retained.empty.
Proof.
  split; [apply NoDup_nil_2|]. split; [|done].
  intros k. split; [by intros ?%elem_of_nil|].
  unfold Retained.empty. cbn [topic_tree].
  rewrite get_retained_eq, retained_at_new_node. by intros [? ?].
Qed.

Lemma lru_consistent_clear (st : RetainedStore) (k : bytes) :
  lru_consistent st ->
  lru_consistent (clear st k)
  /\ count_retained (topic_tree (clear st k))
     <= count_retained (topic_tree st).
Proof.
  intros (Hnd & Hmem & Hcnt). unfold lru_consistent, clear, _remove_lru.
  cbn [topic_tree _lru_order].
  assert (Hc : count_retained (Topic.set_retained (topic_tree st) k [] 0)
               = count_retained (topic_tree st)
                 - slot_count (Topic.get_retained (topic_tree st) k)).
  { rewrite count_set_retained.
    change (len (@nil Z) =? 0) with true. cbv iota. lia. }
  split; [split; [|split]|].
  - by apply NoDup_list_remove.
  - intros k'. rewrite (elem_of_list_remove _ _ _ Hnd), get_set_retained.
    cbn [len length Z.of_nat Z.eqb]. rewrite Hmem.
    destruct (decide (k' = k)) as [->|Hne].
    + split; [by intros [_ ?]|by intros [? ?]].
    + split; [by intros [? _]|done].
  - rewrite Hc, Hcnt.
    destruct (decide (k ∈ _lru_order st)) as [Hin|Hnin].
    + rewrite (len_list_remove _ _ Hin).
      apply Hmem in Hin as [? ->]. cbn. lia.
    + rewrite (list_remove_not_in _ _ Hnin).
      destruct (Topic.get_retained (topic_tree st) k) eqn:E; [|cbn; lia].
      exfalso. apply Hnin, Hmem. by rewrite E.
  - rewrite Hc. unfold slot_count.
    destruct (Topic.get_retained (topic_tree st) k); lia.
Qed.

(** Popping the head of the LRU list and clearing its slot is [clear] of
    the head. *)
Lemma evict_clear (st : RetainedStore) (h : bytes) (rest : list bytes) :
  _lru_order st = h :: rest -> evict st = clear st h.
Proof.
  intros E. unfold evict, clear, _remove_lru. rewrite E. cbn.
  by rewrite decide_True by done.
Qed.

(** Storing a message under [k] in a consistent store. *)
Lemma lru_consistent_store (st : RetainedStore) (k payload : bytes)
    (qos : Z) :
  0 < len payload ->
  lru_consistent st ->
  lru_consistent
    (mkRetainedStore (Topic.set_retained (topic_tree st) k payload qos)
       (_touch_lru (_lru_order st) k))
  /\ count_retained (Topic.set_retained (topic_tree st) k payload qos)
     = count_retained (topic_tree st)
       - slot_count (Topic.get_retained (topic_tree st) k) + 1.
Proof.
  intros Hp (Hnd & Hmem & Hcnt).
  assert (Hz : (len payload =? 0) = false) by (apply Z.eqb_neq; lia).
  assert (Hc : count_retained (Topic.set_retained (topic_tree st) k payload qos)
               = count_retained (topic_tree st)
                 - slot_count (Topic.get_retained (topic_tree st) k) + 1).
  { rewrite count_set_retained. by rewrite Hz. }
  split; [|done]. unfold lru_consistent, _touch_lru.
  cbn [topic_tree _lru_order].
  split; [|split].
  - apply NoDup_app. split; [by apply NoDup_list_remove|].
    split; [|apply NoDup_singleton].
    intros x [_ Hx]%elem_of_list_remove ->%list_elem_of_singleton; done.
  - intros k'. rewrite elem_of_app, (elem_of_list_remove _ _ _ Hnd),
      list_elem_of_singleton, get_set_retained, Hz, Hmem.
    destruct (decide (k' = k)) as [->|Hne].
    + split; [by eexists|by right].
    + split; [by intros [[? _]|?]|by left].
  - rewrite Hc, Hcnt, len_app.
    destruct (decide (k ∈ _lru_order st)) as [Hin|Hnin].
    + rewrite (len_list_remove _ _ Hin).
      apply Hmem in Hin as [? ->]. unfold len. cbn. lia.
    + rewrite (list_remove_not_in _ _ Hnin).
      destruct (Topic.get_retained (topic_tree st) k) eqn:E.
      * exfalso. apply Hnin, Hmem. by rewrite E.
      * unfold len. cbn. lia.
Qed.

(** With a cap of at least 1, [set] with a non-empty payload returns,
    keeps the store consistent and keeps the count within the cap; the
    topic ends up at the tail of the LRU list. *)
Lemma set_within_cap (cfg : BrokerConfig) (st : RetainedStore)
    (topic payload : bytes) (qos : Z) :
  retain_enabled cfg = true ->
  1 <= max_retained_messages cfg ->
  0 < len payload ->
  lru_consistent st ->
  count_retained (topic_tree st) <= max_retained_messages cfg ->
  exists st' : RetainedStore,
    Retained.set cfg st topic payload qos = Ok (st', true)
    /\ lru_consistent st'
    /\ Retained.count st' = Ok (count_retained (topic_tree st'))
    /\ count_retained (topic_tree st') <= max_retained_messages cfg
    /\ Topic.get_retained (topic_tree st') topic
       = Some (topic, payload, qos)
    /\ last (_lru_order st') = Some topic.
Proof.
  intros Hen Hcap Hp Hcons Hbound. unfold Retained.set.
  rewrite Hen. cbn [negb].
  assert (Hz : (len payload =? 0) = false) by (apply Z.eqb_neq; lia).
  rewrite Hz.
  set (st1 := match Topic.get_retained (topic_tree st) topic with
              | Some _ => st
              | None => if max_retained_messages cfg
                           <=? count_retained (topic_tree st)
                        then evict st else st
              end).
  assert (Hst1 : match Topic.get_retained (topic_tree st) topic with
                 | Some _ => Ok st
                 | None =>
                     try! current_count <- count st;
                     if max_retained_messages cfg <=? current_count
                     then Ok (evict st) else Ok st
                 end = Ok st1).
  { subst st1. destruct (Topic.get_retained (topic_tree st) topic); [done|].
    unfold count. rewrite get_retained_count_spec. cbn [res_bind].
    by destruct (max_retained_messages cfg
                 <=? count_retained (topic_tree st)). }
  rewrite Hst1. cbn [res_bind].
  assert (H1 : lru_consistent st1
               /\ count_retained (topic_tree st1)
                  - slot_count (Topic.get_retained (topic_tree st1) topic)
                  + 1 <= max_retained_messages cfg).
  { subst st1.
    destruct (Topic.get_retained (topic_tree st) topic) as [r|] eqn:Eg.
    - split; [done|]. rewrite Eg. unfold slot_count. lia.
    - destruct (max_retained_messages cfg
                <=? count_retained (topic_tree st)) eqn:Ecap.
      + apply Z.leb_le in Ecap.
        destruct Hcons as (Hnd & Hmem & Hcnt).
        destruct (_lru_order st) as [|h rest] eqn:El.
        { unfold len in Hcnt. cbn in Hcnt. lia. }
        rewrite (evict_clear _ _ _ El).
        assert (Hc : lru_consistent st) by (by rewrite <- El in *).
        destruct (lru_consistent_clear st h Hc) as [Hc' Hle].
        split; [done|].
        unfold clear. cbn [topic_tree].
        assert (Hh : is_Some (Topic.get_retained (topic_tree st) h)).
        { apply Hc. rewrite El. by apply elem_of_cons; left. }
        rewrite count_set_retained, get_set_retained.
        change (len (@nil Z) =? 0) with true. cbv iota.
        destruct (decide (topic = h)) as [->|Hne].
        * rewrite Eg in Hh. by destruct Hh.
        * rewrite Eg. destruct Hh as [? ->]. unfold slot_count. lia.
      + apply Z.leb_gt in Ecap. split; [done|]. rewrite Eg.
        unfold slot_count. lia. }
  destruct H1 as [Hc1 Hb1].
  destruct (lru_consistent_store st1 topic payload qos Hp Hc1) as [Hc2 Hcount].
  eexists. split; [reflexivity|]. cbn [topic_tree _lru_order].
  split; [done|]. split.
  { unfold count. cbn [topic_tree]. apply get_retained_count_spec. }
  split; [lia|]. split.
  - rewrite get_set_retained, Hz. by rewrite decide_True by done.
  - unfold _touch_lru. apply last_snoc.
Qed.

(** The victim of an eviction is the head of the LRU list: when [set]
    stores a topic that has no retained message while the count has
    reached the cap, the head of the list loses its message and leaves
    the list, every other topic keeps its message, and the new topic
    joins the tail. *)
Lemma set_evicts_lru_head (cfg : BrokerConfig) (st : RetainedStore)
    (topic payload h : bytes) (rest : list bytes) (qos : Z) :
  retain_enabled cfg = true ->
  0 < len payload ->
  lru_consistent st ->
  Topic.get_retained (topic_tree st) topic = None ->
  max_retained_messages cfg <= count_retained (topic_tree st) ->
  _lru_order st = h :: rest ->
  exists st' : RetainedStore,
    Retained.set cfg st topic payload qos = Ok (st', true)
    /\ _lru_order st' = rest ++ [topic]
    /\ Topic.get_retained (topic_tree st') h = None
    /\ (forall k, k <> h -> k <> topic ->
          Topic.get_retained (topic_tree st') k
          = Topic.get_retained (topic_tree st) k).
Proof.
  intros Hen Hp Hcons Hg Hcap El. unfold Retained.set.
  rewrite Hen. cbn [negb].
  assert (Hz : (len payload =? 0) = false) by (apply Z.eqb_neq; lia).
  rewrite Hz, Hg. unfold count. rewrite get_retained_count_spec.
  cbn [res_bind].
  destruct (max_retained_messages cfg <=? count_retained (topic_tree st))
    eqn:E; [|lia].
  cbn [res_bind]. eexists. split; [reflexivity|].
  unfold evict. rewrite El. cbn [topic_tree _lru_order].
  assert (Hne : topic <> h).
  { intros ->. destruct Hcons as (_ & Hmem & _).
    assert (is_Some (Topic.get_retained (topic_tree st) h)) as [? Hh].
    { apply Hmem. rewrite El. by apply elem_of_cons; left. }
    congruence. }
  assert (Hnin : topic ∉ rest).
  { intros Hin. destruct Hcons as (_ & Hmem & _).
    assert (is_Some (Topic.get_retained (topic_tree st) topic)) as [? Hh].
    { apply Hmem. rewrite El. by apply elem_of_cons; right. }
    congruence. }
  split; [|split].
  - unfold _touch_lru. by rewrite (list_remove_not_in _ _ Hnin).
  - rewrite !get_set_retained, Hz.
    rewrite decide_False by done. by rewrite decide_True by done.
  - intros k Hk1 Hk2. rewrite !get_set_retained.
    by rewrite !decide_False by done.
Qed.

End RetainedStoreInvariant.

Section RetainedReachable.
Import Config Retained Spec.

(** With a cap of at least 1, every store the broker can build is
    consistent and holds at most [max_retained_messages] messages. *)
Lemma reachable_within_cap (cfg : BrokerConfig) (st : RetainedStore) :
  1 <= max_retained_messages cfg ->
  reachable cfg st ->
  lru_consistent st
  /\ count_retained (topic_tree st) <= max_retained_messages cfg.
Proof.
  intros Hcap Hr.
  induction Hr as [|st st' topic payload qos r Hr [IHc IHb] Hset
                   |st topic Hr [IHc IHb]].
  - split; [apply lru_consistent_empty|]. cbn. lia.
  - destruct (retain_enabled cfg) eqn:Hen.
    + destruct (len payload =? 0) eqn:Hz.
      * unfold Retained.set in Hset. rewrite Hen, Hz in Hset.
        cbn [negb] in Hset. injection Hset as <- _.
        destruct (lru_consistent_clear st topic IHc) as [Hc Hle].
        split; [exact Hc|].
        unfold clear in Hle. cbn [topic_tree] in *. lia.
      * assert (Hp : 0 < len payload).
        { apply Z.eqb_neq in Hz. pose proof (len_nonneg payload). lia. }
        destruct (set_within_cap cfg st topic payload qos Hen Hcap Hp
                    IHc IHb) as (st'' & E & Hc & _ & Hb & _).
        rewrite E in Hset. injection Hset as <- _. done.
    + unfold Retained.set in Hset. rewrite Hen in Hset.
      cbn [negb] in Hset. injection Hset as <- _. done.
  - destruct (lru_consistent_clear st topic IHc) as [Hc Hle].
    split; [done|lia].
Qed.

End RetainedReachable.

(** ** The subscription trie: what [match] computes *)

Section TrieMatching.
Import Topic TopicOps TopicSpec.

Lemma elem_of_keys_dict_set {K V} `{EqDecision K} (d : list (K * V))
    (k k' : K) (v : V) :
  k' ∈ (dict_set d k v).*1 <-> k' ∈ d.*1 \/ k' = k.
Proof.
  induction d as [|[k0 v0] d IH]; cbn.
  - rewrite list_elem_of_singleton, elem_of_nil. tauto.
  - destruct (decide (k0 = k)) as [->|Hne]; cbn;
      rewrite !elem_of_cons; [|rewrite IH]; intuition congruence.
Qed.

Lemma elem_of_keys_dict_update {K V} `{EqDecision K}
    (other d : list (K * V)) (k : K) :
  k ∈ (dict_update d other).*1 <-> k ∈ d.*1 \/ k ∈ other.*1.
Proof.
  unfold dict_update. revert d.
  induction other as [|[k0 v0] other IH]; intros d; cbn.
  - rewrite elem_of_nil. tauto.
  - rewrite IH, elem_of_keys_dict_set, elem_of_cons. tauto.
Qed.

Lemma subscribers_at_nil (n : TopicNode) : subscribers_at [] n = subscribers n.
Proof. reflexivity. Qed.

Lemma subscribers_at_cons (level : bytes) (rest : list bytes)
    (node : TopicNode) :
  subscribers_at (level :: rest) node
  = match dict_get (_ensure_children node) level with
    | Some c => subscribers_at rest c
    | None => []
    end.
Proof.
  unfold subscribers_at. cbn [navigate]. unfold child.
  destruct (dict_get (_ensure_children node) level) as [c|] eqn:E.
  - by rewrite (child_has_children _ _ _ E).
  - by destruct (has_children node).
Qed.

Lemma subscribers_at_app (fl1 fl2 : list bytes) (root n : TopicNode) :
  navigate fl1 root = Some n ->
  subscribers_at (fl1 ++ fl2) root = subscribers_at fl2 n.
Proof.
  intros Hn. unfold subscribers_at. by rewrite (navigate_app _ _ _ _ Hn).
Qed.

Lemma filter_matches_nil_r (first : bool) (fl : list bytes) :
  filter_matches first fl [] = true -> fl = [] \/ fl = [HASH].
Proof.
  destruct fl as [|f fl]; cbn; [by left|].
  intros [Hf Hfl]%andb_prop. right.
  apply bool_decide_eq_true in Hf, Hfl. by subst.
Qed.

Lemma filter_matches_hash (first : bool) :
  filter_matches first [HASH] [] = true.
Proof. reflexivity. Qed.

Lemma filter_matches_cons (first : bool) (f l : bytes)
    (fl lv : list bytes) :
  filter_matches first (f :: fl) (l :: lv)
  = (bool_decide (f = l) && filter_matches false fl lv)
    || (bool_decide (f = PLUS) && negb (first && starts_with_dollar l)
        && filter_matches false fl lv)
    || (bool_decide (f = HASH) && negb (first && starts_with_dollar l)
        && bool_decide (fl = [])).
Proof. reflexivity. Qed.

Lemma result_sound_update (root : TopicNode) (lv fl : list bytes)
    (n : TopicNode) (result : list (string * Z)) :
  result_sound root lv result ->
  navigate fl root = Some n ->
  filter_matches true fl lv = true ->
  result_sound root lv (dict_update result (subscribers n)).
Proof.
  intros Hr Hn Hm c g [H|H]%elem_of_dict_update; [by apply Hr|].
  exists fl. split; [done|]. unfold subscribers_at. by rewrite Hn.
Qed.

(** One iteration of [match] keeps the stack and the result sound. *)
Lemma match_step_sound (root : TopicNode) (lv : list bytes)
    (node : TopicNode) (i : nat) (stack st : list (TopicNode * nat))
    (result res : list (string * Z)) :
  stack_sound root lv ((node, i) :: stack) ->
  result_sound root lv result ->
  match_step lv node i stack result = Ok (st, res) ->
  stack_sound root lv st /\ result_sound root lv res.
Proof.
  intros Hs Hr Hstep.
  assert (Hstack : stack_sound root lv stack).
  { intros n j Hin. apply Hs. by apply elem_of_cons; right. }
  destruct (Hs node i) as (fl & Hn & Hext); [by apply elem_of_cons; left|].
  unfold match_step in Hstep.
  destruct (decide (i = length lv)) as [Hi|Hi];
    [rewrite (bool_decide_eq_true_2 (i = length lv)) in Hstep by done
    |rewrite (bool_decide_eq_false_2 (i = length lv)) in Hstep by done].
  - injection Hstep as <- <-. split; [done|].
    rewrite Hi, drop_all in Hext.
    assert (Hr1 : result_sound root lv (dict_update result (subscribers node))).
    { eapply result_sound_update; [done|done|].
      rewrite <- (app_nil_r fl). by apply Hext. }
    destruct (has_children node) eqn:Hc; [|done].
    destruct (child node HASH) as [h|] eqn:Eh; [|done].
    eapply result_sound_update; [done|by eapply navigate_snoc|].
    by apply Hext.
  - destruct (lv !! i) as [cur|] eqn:El; [|done].
    rewrite (drop_S _ _ _ El) in Hext.
    destruct (has_children node) eqn:Hc; cbn [negb] in Hstep;
      [|by injection Hstep as <- <-].
    set (sys := bool_decide (i = 0%nat) && starts_with_dollar cur) in *.
    assert (Hchild : forall f c,
               child node f = Some c ->
               (f = cur \/ (f = PLUS /\ sys = false)) ->
               exists fl' : list bytes,
                 navigate fl' root = Some c
                 /\ forall rest : list bytes,
                      filter_matches (bool_decide (S i = 0%nat)) rest
                        (drop (S i) lv) = true ->
                      filter_matches true (fl' ++ rest) lv = true).
    { intros f c Hc' Hf. exists (fl ++ [f]). split; [by eapply navigate_snoc|].
      intros rest Hm. rewrite <- app_assoc. cbn [app]. apply Hext.
      rewrite filter_matches_cons. rewrite bool_decide_eq_false_2 in Hm by lia.
      rewrite Hm. fold sys.
      destruct Hf as [-> | [-> ->]].
      - by rewrite bool_decide_eq_true_2.
      - rewrite (bool_decide_eq_true_2 (PLUS = PLUS)) by done. cbn.
        by rewrite orb_true_r. }
    injection Hstep as <- <-. split.
    + intros n j Hin.
      destruct (child node cur) as [c1|] eqn:E1;
        destruct (child node PLUS) as [c2|] eqn:E2;
        destruct sys eqn:Esys; cbn [negb] in Hin;
        repeat (apply elem_of_cons in Hin as [[= -> ->]|Hin]);
        try (by apply Hstack);
        first [ by apply (Hchild cur); [|left]
              | by apply (Hchild PLUS); [|right] ].
    + destruct (child node HASH) as [h|] eqn:Eh; [|done].
      destruct sys eqn:Esys; cbn [negb]; [done|].
      eapply result_sound_update; [done|by eapply navigate_snoc|].
      apply Hext. rewrite filter_matches_cons. fold sys. rewrite Esys.
      rewrite (bool_decide_eq_true_2 (HASH = HASH)) by done. cbn.
      by rewrite orb_true_r.
Qed.

Lemma subscribers_at_elem_cons (f : bytes) (rest : list bytes)
    (node : TopicNode) (c : string) :
  c ∈ (subscribers_at (f :: rest) node).*1 ->
  exists c' : TopicNode,
    has_children node = true /\ child node f = Some c'
    /\ c ∈ (subscribers_at rest c').*1.
Proof.
  rewrite subscribers_at_cons. unfold child.
  destruct (dict_get (_ensure_children node) f) as [c'|] eqn:E.
  - intros H. exists c'. by rewrite (child_has_children _ _ _ E).
  - by intros ?%elem_of_nil.
Qed.

(** One iteration of [match] loses no subscriber of a matching filter. *)
Lemma match_step_covered (root : TopicNode) (lv : list bytes)
    (node : TopicNode) (i : nat) (stack st : list (TopicNode * nat))
    (result res : list (string * Z)) :
  covered root lv ((node, i) :: stack) result ->
  match_step lv node i stack result = Ok (st, res) ->
  covered root lv st res.
Proof.
  intros Hcov Hstep.
  assert (Hres : forall c, c ∈ result.*1 -> c ∈ res.*1).
  { intros c Hc. unfold match_step in Hstep.
    repeat match type of Hstep with
      | context [if ?b then _ else _] => destruct b
      | context [match ?o with Some _ => _ | None => _ end] => destruct o
      end; try done; injection Hstep as <- <-;
      rewrite ?elem_of_keys_dict_update; auto. }
  assert (Hst : forall e, e ∈ stack -> e ∈ st).
  { intros e He. unfold match_step in Hstep.
    repeat match type of Hstep with
      | context [if ?b then _ else _] => destruct b
      | context [match ?o with Some _ => _ | None => _ end] => destruct o
      end; try done; injection Hstep as <- <-;
      rewrite ?elem_of_cons; auto. }
  intros fl c Hm Hc.
  destruct (Hcov fl c Hm Hc) as [Hin|(n & j & fl2 & Hin & Hc2 & Hm2)];
    [left; by apply Hres|].
  apply elem_of_cons in Hin as [[= -> ->]|Hin];
    [|right; exists n, j, fl2; split; [by apply Hst|done]].
  clear Hres Hst Hcov.
  unfold match_step in Hstep.
  destruct (decide (i = length lv)) as [Hi|Hi];
    [rewrite (bool_decide_eq_true_2 (i = length lv)) in Hstep by done
    |rewrite (bool_decide_eq_false_2 (i = length lv)) in Hstep by done].
  - (* all levels matched *)
    injection Hstep as <- <-. left.
    rewrite Hi, drop_all in Hm2.
    apply filter_matches_nil_r in Hm2 as [-> | ->].
    + rewrite subscribers_at_nil in Hc2.
      destruct (has_children node); [destruct (child node HASH)|];
        rewrite ?elem_of_keys_dict_update; auto.
    + apply subscribers_at_elem_cons in Hc2 as (h & Hh & Eh & Hc2).
      rewrite Hh, Eh, elem_of_keys_dict_update. by right.
  - destruct (lv !! i) as [cur|] eqn:El; [|done].
    rewrite (drop_S _ _ _ El) in Hm2.
    destruct fl2 as [|f rest]; [done|].
    apply subscribers_at_elem_cons in Hc2 as (c' & Hh & Ec & Hc2).
    rewrite Hh in Hstep. cbn [negb] in Hstep.
    set (sys := bool_decide (i = 0%nat) && starts_with_dollar cur) in *.
    injection Hstep as <- <-.
    rewrite filter_matches_cons in Hm2. fold sys in Hm2.
    assert (Hnext : forall stack' : list (TopicNode * nat),
               (c', S i) ∈ stack' ->
               filter_matches false rest (drop (S i) lv) = true ->
               exists (n : TopicNode) (j : nat) (fl2 : list bytes),
                 (n, j) ∈ stack'
                 /\ c ∈ (subscribers_at fl2 n).*1
                 /\ filter_matches (bool_decide (j = 0%nat)) fl2
                      (drop j lv) = true).
    { intros stack' Hin Hm3. exists c', (S i), rest.
      by rewrite bool_decide_eq_false_2 by lia. }
    apply orb_prop in Hm2 as [[Hm2|Hm2]%orb_prop|Hm2].
    + (* the level itself *)
      apply andb_prop in Hm2 as [->%bool_decide_eq_true Hm2].
      right. apply Hnext; [|done]. rewrite Ec.
      destruct (child node PLUS); [destruct (negb sys)|];
        rewrite ?elem_of_cons; auto.
    + (* [+] *)
      apply andb_prop in Hm2 as [[->%bool_decide_eq_true Hsys]%andb_prop Hm2].
      right. apply Hnext; [|done]. rewrite Ec, Hsys.
      apply elem_of_cons. by left.
    + (* [#] *)
      apply andb_prop in Hm2
        as [[->%bool_decide_eq_true Hsys]%andb_prop ->%bool_decide_eq_true].
      left. rewrite Ec, Hsys, elem_of_keys_dict_update. by right.
Qed.

(** What [match] computes: it returns a result; every entry of the
    result is a subscription of a filter that matches the topic, and
    every client with such a subscription is in the result. *)
Lemma match_spec (root : TopicNode) (topic : bytes) :
  exists r : list (string * Z),
    match_ root topic = Ok r
    /\ result_sound root (_split_topic topic) r
    /\ covered root (_split_topic topic) [] r.
Proof.
  unfold match_.
  set (lv := _split_topic topic).
  destruct (match_loop_inv lv
              (fun st res => (stack_sound root lv st /\ result_sound root lv res)
                             /\ covered root lv st res))
    with (budget := match_budget lv) (stack := [(root, 0%nat)])
         (result := @nil (string * Z))
    as (r & Hrun & [_ Hs] & Hc).
  - intros node i stack result st res [[Hs Hr] Hc] Hstep. split.
    + by eapply match_step_sound.
    + by eapply match_step_covered.
  - apply match_budget_enough.
  - apply stack_bounded_root.
  - split; [split|].
    + intros n i [= -> ->]%list_elem_of_singleton. exists []. by split.
    + intros c g Hin. by apply elem_of_nil in Hin.
    + intros fl c Hm Hc. right. exists root, 0%nat, fl.
      split; [by apply list_elem_of_singleton|]. by split.
  - by exists r.
Qed.

(** X1: [match] returns a result for every tree and every topic that
    decodes as UTF-8.  In a result that [match] returns each client
    occurs once, and every entry [(c, g)] is a subscription of [c] with
    granted QoS [g] to a filter that matches the topic. *)
Theorem match_only_matching_filters (root : TopicNode) (topic : bytes) :
  (utf8_valid topic = true ->
   exists r : list (string * Z), match_ root topic = Ok r)
  /\ forall r : list (string * Z),
       match_ root topic = Ok r ->
       NoDup r.*1
       /\ forall (c : string) (g : Z),
            (c, g) ∈ r ->
            exists fl : list bytes,
              filter_matches true fl (_split_topic topic) = true
              /\ (c, g) ∈ subscribers_at fl root.
Proof.
  destruct (match_spec root topic) as (r & Hr & Hs & _). split.
  - intros _. by exists r.
  - intros r' Hr'. assert (r' = r) as -> by congruence.
    split; [by eapply match_keys_nodup|done].
Qed.

(** X2: every client that holds a subscription to a filter that matches
    the topic is in the result of [match]. *)
Theorem match_finds_every_subscriber (root : TopicNode) (topic : bytes) :
  exists r : list (string * Z),
    match_ root topic = Ok r
    /\ forall (fl : list bytes) (c : string) (g : Z),
         filter_matches true fl (_split_topic topic) = true ->
         (c, g) ∈ subscribers_at fl root ->
         exists g' : Z, (c, g') ∈ r.
Proof.
  destruct (match_spec root topic) as (r & Hr & _ & Hc).
  exists r. split; [done|]. intros fl c g Hm Hin.
  destruct (Hc fl c Hm) as [H|(n & i & fl2 & H & _)].
  - apply list_elem_of_fmap. by exists (c, g).
  - apply list_elem_of_fmap in H as [[c' g'] [-> H]]. by exists g'.
  - by apply elem_of_nil in H.
Qed.

Lemma subscribers_at_new_node (levels : list bytes) :
  subscribers_at levels new_node = [].
Proof. by destruct levels. Qed.

(** Reading the subscribers of a filter after the loop of [subscribe]. *)
Lemma subscribers_at_navigate_create (c : string) (q : Z)
    (levels : list bytes) :
  forall (levels' : list bytes) (node : TopicNode),
    subscribers_at levels'
      (navigate_create levels
         (fun node => mkTopicNode (children node)
                        (dict_set (subscribers node) c q) (retained node))
         node)
    = if decide (levels' = levels)
      then dict_set (subscribers_at levels' node) c q
      else subscribers_at levels' node.
Proof.
  induction levels as [|level rest IH]; intros levels' node.
  - cbn [navigate_create]. destruct levels' as [|l' r'].
    + by rewrite decide_True by done.
    + rewrite decide_False by done. by rewrite !subscribers_at_cons.
  - cbn [navigate_create]. destruct levels' as [|l' r'].
    + by rewrite decide_False by done.
    + rewrite !subscribers_at_cons, ensure_children_some, dict_get_set.
      destruct (decide (level = l')) as [->|Hne].
      * rewrite IH.
        destruct (decide (r' = rest)) as [->|Hne'].
        -- rewrite decide_True by done.
           destruct (dict_get (_ensure_children node) l'); [done|].
           by rewrite subscribers_at_new_node.
        -- rewrite decide_False by congruence.
           destruct (dict_get (_ensure_children node) l'); [done|].
           apply subscribers_at_new_node.
      * by rewrite decide_False by congruence.
Qed.

Lemma subscribers_at_subscribe (root : TopicNode) (f : bytes) (c : string)
    (q : Z) (fl : list bytes) :
  subscribers_at fl (subscribe root f c q)
  = if decide (fl = _split_topic f)
    then dict_set (subscribers_at fl root) c q
    else subscribers_at fl root.
Proof. apply subscribers_at_navigate_create. Qed.

Lemma elem_of_dict_set_same {K V} `{EqDecision K} (d : list (K * V)) (k : K)
    (v : V) :
  (k, v) ∈ dict_set d k v.
Proof.
  induction d as [|[k0 v0] d IH]; cbn.
  - by apply list_elem_of_singleton.
  - destruct (decide (k0 = k)) as [->|Hne]; apply elem_of_cons; auto.
Qed.

Lemma elem_of_dict_set_other {K V} `{EqDecision K} (d : list (K * V))
    (k k' : K) (v v' : V) :
  k' <> k -> (k', v') ∈ dict_set d k v <-> (k', v') ∈ d.
Proof.
  intros Hne. induction d as [|[k0 v0] d IH]; cbn.
  - rewrite list_elem_of_singleton, elem_of_nil. split; [congruence|done].
  - destruct (decide (k0 = k)) as [->|Hne0]; rewrite !elem_of_cons;
      [|rewrite IH]; intuition congruence.
Qed.

Lemma dict_del_absent {K V} `{EqDecision K} (d : list (K * V)) (k : K) :
  dict_get d k = None -> dict_del d k = d.
Proof.
  induction d as [|[k0 v0] d IH]; cbn; [done|].
  destruct (decide (k0 = k)); [done|]. intros H. by rewrite IH.
Qed.

Lemma elem_of_dict_del {K V} `{EqDecision K} (d : list (K * V)) (k : K)
    (kv : K * V) :
  kv ∈ dict_del d k <-> kv ∈ d /\ kv.1 <> k.
Proof.
  induction d as [|[k0 v0] d IH]; cbn.
  - rewrite elem_of_nil. tauto.
  - destruct (decide (k0 = k)) as [->|Hne]; rewrite ?elem_of_cons, IH.
    + split; [tauto|]. intros [[-> | H] Hk]; [done|tauto].
    + split; [intros [-> | [? ?]]; auto|tauto].
Qed.

(** Reading the subscribers of a filter after the update of
    [unsubscribe]. *)
Lemma subscribers_at_navigate_update (c : string) (levels : list bytes) :
  forall node : TopicNode,
    match navigate_update levels
            (fun node =>
               if dict_mem (subscribers node) c
               then Some (mkTopicNode (children node)
                            (dict_del (subscribers node) c) (retained node))
               else None)
            node with
    | Some node' =>
        dict_mem (subscribers_at levels node) c = true
        /\ forall levels' : list bytes,
             subscribers_at levels' node'
             = if decide (levels' = levels)
               then dict_del (subscribers_at levels' node) c
               else subscribers_at levels' node
    | None => dict_mem (subscribers_at levels node) c = false
    end.
Proof.
  induction levels as [|level rest IH]; intros node.
  - cbn [navigate_update].
    change (subscribers_at [] node) with (subscribers node).
    destruct (dict_mem (subscribers node) c) eqn:E; [|done].
    split; [done|]. intros [|l' r'].
    + by rewrite decide_True by done.
    + rewrite decide_False by done. by rewrite !subscribers_at_cons.
  - cbn [navigate_update]. rewrite subscribers_at_cons. unfold child.
    destruct (dict_get (_ensure_children node) level) as [ch|] eqn:Ec.
    + rewrite (child_has_children _ _ _ Ec).
      specialize (IH ch).
      destruct (navigate_update rest _ ch) as [ch'|]; [|done].
      destruct IH as [Hmem Hat]. split; [done|]. intros [|l' r'].
      * by rewrite decide_False by done.
      * rewrite !subscribers_at_cons, ensure_children_some, dict_get_set.
        destruct (decide (level = l')) as [->|Hne].
        -- rewrite Hat, Ec.
           destruct (decide (r' = rest)) as [->|Hne'].
           ++ by rewrite decide_True by done.
           ++ by rewrite decide_False by congruence.
        -- by rewrite decide_False by congruence.
    + by destruct (has_children node).
Qed.

Lemma elem_of_keys {K V} (d : list (K * V)) (k : K) :
  k ∈ d.*1 <-> exists v : V, (k, v) ∈ d.
Proof.
  rewrite list_elem_of_fmap. split.
  - intros [[k' v] [-> H]]. by exists v.
  - intros [v H]. by exists (k, v).
Qed.

(** X3: once a client has subscribed to a filter, [match] returns the
    client for every topic that the filter matches; the QoS it is
    returned with is the one just granted or the one of a subscription
    of the client that was there before and also matches. *)
Theorem subscribe_then_match (root : TopicNode) (f : bytes) (c : string)
    (q : Z) (t : bytes) :
  filter_matches true (_split_topic f) (_split_topic t) = true ->
  exists (r : list (string * Z)) (g : Z),
    match_ (subscribe root f c q) t = Ok r
    /\ (c, g) ∈ r
    /\ (g = q
        \/ exists fl : list bytes,
             filter_matches true fl (_split_topic t) = true
             /\ (c, g) ∈ subscribers_at fl root).
Proof.
  intros Hm.
  destruct (match_spec (subscribe root f c q) t) as (r & Hr & Hs & Hc).
  destruct (Hc (_split_topic f) c Hm) as [H|(n & i & fl2 & H & _)].
  - rewrite subscribers_at_subscribe, decide_True by done.
    apply elem_of_keys. exists q. apply elem_of_dict_set_same.
  - apply elem_of_keys in H as [g Hg]. exists r, g.
    split; [done|]. split; [done|].
    destruct (Hs c g Hg) as (fl & Hfl & Hin).
    rewrite subscribers_at_subscribe in Hin.
    destruct (decide (fl = _split_topic f)) as [->|Hne].
    + apply elem_of_dict_set in Hin as [Hin|[= ->]]; [|by left].
      right. by exists (_split_topic f).
    + right. by exists fl.
  - by apply elem_of_nil in H.
Qed.

Lemma subscribe_then_match_witness :
  exists (r : list (string * Z)) (g : Z),
    match_ (subscribe new_node (Fixtures.b_of "sensors/+/temp") "c1" 1)
      (Fixtures.b_of "sensors/kitchen/temp") = Ok r
    /\ ("c1", g) ∈ r
    /\ (g = 1
        \/ exists fl : list bytes,
             filter_matches true fl
               (_split_topic (Fixtures.b_of "sensors/kitchen/temp")) = true
             /\ ("c1", g) ∈ subscribers_at fl new_node).
Proof.
  apply (subscribe_then_match new_node (Fixtures.b_of "sensors/+/temp")
           "c1" 1 (Fixtures.b_of "sensors/kitchen/temp")).
  reflexivity.
Defined.

(** X4: a subscription of one client does not change which other
    clients [match] returns, for any topic. *)
Theorem subscribe_keeps_other_clients (root : TopicNode) (f : bytes)
    (c : string) (q : Z) (t : bytes) :
  exists r r' : list (string * Z),
    match_ (subscribe root f c q) t = Ok r
    /\ match_ root t = Ok r'
    /\ forall c' : string, c' <> c -> (c' ∈ r.*1 <-> c' ∈ r'.*1).
Proof.
  destruct (match_spec (subscribe root f c q) t) as (r & Hr & Hs & Hc).
  destruct (match_spec root t) as (r' & Hr' & Hs' & Hc').
  exists r, r'. split; [done|]. split; [done|].
  intros c' Hne. split.
  - intros [g Hg]%elem_of_keys.
    destruct (Hs c' g Hg) as (fl & Hfl & Hin).
    assert (Hin' : (c', g) ∈ subscribers_at fl root).
    { rewrite subscribers_at_subscribe in Hin.
      destruct (decide (fl = _split_topic f)); [|done].
      by apply elem_of_dict_set_other in Hin. }
    destruct (Hc' fl c' Hfl) as [H|(n & i & fl2 & H & _)]; [|done|].
    + apply elem_of_keys. by exists g.
    + by apply elem_of_nil in H.
  - intros [g Hg]%elem_of_keys.
    destruct (Hs' c' g Hg) as (fl & Hfl & Hin).
    assert (Hin' : (c', g) ∈ subscribers_at fl (subscribe root f c q)).
    { rewrite subscribers_at_subscribe.
      destruct (decide (fl = _split_topic f)); [|done].
      by apply elem_of_dict_set_other. }
    destruct (Hc fl c' Hfl) as [H|(n & i & fl2 & H & _)]; [|done|].
    + apply elem_of_keys. by exists g.
    + by apply elem_of_nil in H.
Qed.

Lemma unsubscribe_spec (root : TopicNode) (f : bytes) (c : string) :
  (unsubscribe root f c).2
  = dict_mem (subscribers_at (_split_topic f) root) c
  /\ forall fl : list bytes,
       subscribers_at fl (unsubscribe root f c).1
       = if decide (fl = _split_topic f)
         then dict_del (subscribers_at fl root) c
         else subscribers_at fl root.
Proof.
  unfold unsubscribe.
  pose proof (subscribers_at_navigate_update c (_split_topic f) root) as H.
  destruct (navigate_update (_split_topic f) _ root) as [root'|]; cbn [fst snd].
  - by destruct H as [-> H].
  - split; [done|]. intros fl.
    destruct (decide (fl = _split_topic f)) as [->|Hne]; [|done].
    symmetry. apply dict_del_absent. unfold dict_mem in H.
    by destruct (dict_get (subscribers_at (_split_topic f) root) c).
Qed.

(** X5: [unsubscribe] reports whether the client held a subscription to
    the filter; afterwards the client has none to this filter, and the
    subscriptions of other clients and to other filters are as before. *)
Theorem unsubscribe_removes_subscription (root : TopicNode) (f : bytes)
    (c : string) :
  (unsubscribe root f c).2
  = dict_mem (subscribers_at (_split_topic f) root) c
  /\ (forall g : Z,
        ~ (c, g) ∈ subscribers_at (_split_topic f) (unsubscribe root f c).1)
  /\ (forall (c' : string) (g : Z),
        c' <> c ->
        ((c', g) ∈ subscribers_at (_split_topic f) (unsubscribe root f c).1
         <-> (c', g) ∈ subscribers_at (_split_topic f) root))
  /\ (forall fl : list bytes,
        fl <> _split_topic f ->
        subscribers_at fl (unsubscribe root f c).1 = subscribers_at fl root).
Proof.
  destruct (unsubscribe_spec root f c) as [Hb Hat].
  split; [done|]. repeat split.
  - intros g. rewrite Hat, decide_True by done.
    rewrite elem_of_dict_del. cbn. tauto.
  - rewrite Hat, decide_True by done. rewrite elem_of_dict_del. tauto.
  - rewrite Hat, decide_True by done. rewrite elem_of_dict_del. cbn. tauto.
  - intros fl Hne. by rewrite Hat, decide_False.
Qed.

(** X6: after [unsubscribe], [match] returns the client only through
    another filter it is subscribed to; which other clients are returned
    does not change. *)
Theorem unsubscribe_then_match (root : TopicNode) (f : bytes) (c : string)
    (t : bytes) :
  exists r r' : list (string * Z),
    match_ (unsubscribe root f c).1 t = Ok r
    /\ match_ root t = Ok r'
    /\ (forall g : Z,
          (c, g) ∈ r ->
          exists fl : list bytes,
            fl <> _split_topic f
            /\ filter_matches true fl (_split_topic t) = true
            /\ (c, g) ∈ subscribers_at fl root)
    /\ (forall c' : string, c' <> c -> (c' ∈ r.*1 <-> c' ∈ r'.*1)).
Proof.
  destruct (unsubscribe_spec root f c) as [_ Hat].
  destruct (match_spec (unsubscribe root f c).1 t) as (r & Hr & Hs & Hc).
  destruct (match_spec root t) as (r' & Hr' & Hs' & Hc').
  exists r, r'. split; [done|]. split; [done|]. split.
  - intros g Hg. destruct (Hs c g Hg) as (fl & Hfl & Hin).
    rewrite Hat in Hin. exists fl.
    destruct (decide (fl = _split_topic f)) as [->|Hne]; [|done].
    apply elem_of_dict_del in Hin as [_ Hin]. done.
  - intros c' Hne. split.
    + intros [g Hg]%elem_of_keys.
      destruct (Hs c' g Hg) as (fl & Hfl & Hin).
      assert (Hin' : (c', g) ∈ subscribers_at fl root).
      { rewrite Hat in Hin.
        destruct (decide (fl = _split_topic f)); [|done].
        by apply elem_of_dict_del in Hin as [Hin _]. }
      destruct (Hc' fl c' Hfl) as [H|(n & i & fl2 & H & _)]; [|done|].
      * apply elem_of_keys. by exists g.
      * by apply elem_of_nil in H.
    + intros [g Hg]%elem_of_keys.
      destruct (Hs' c' g Hg) as (fl & Hfl & Hin).
      assert (Hin' : (c', g) ∈ subscribers_at fl (unsubscribe root f c).1).
      { rewrite Hat.
        destruct (decide (fl = _split_topic f)); [|done].
        by apply elem_of_dict_del. }
      destruct (Hc fl c' Hfl) as [H|(n & i & fl2 & H & _)]; [|done|].
      * apply elem_of_keys. by exists g.
      * by apply elem_of_nil in H.
Qed.

(** X7: a client that subscribes to a filter and then unsubscribes from it
    gets [True] from [unsubscribe] and is left without a subscription to
    this filter; all other filters keep the subscribers they had before
    the two calls. *)
Theorem subscribe_unsubscribe (root : TopicNode) (f : bytes) (c : string)
    (q : Z) :
  (unsubscribe (subscribe root f c q) f c).2 = true
  /\ (forall g : Z,
        ~ (c, g) ∈ subscribers_at (_split_topic f)
                     (unsubscribe (subscribe root f c q) f c).1)
  /\ (forall fl : list bytes,
        fl <> _split_topic f ->
        subscribers_at fl (unsubscribe (subscribe root f c q) f c).1
        = subscribers_at fl root).
Proof.
  destruct (unsubscribe_spec (subscribe root f c q) f c) as [Hb Hat].
  repeat split.
  - rewrite Hb, subscribers_at_subscribe, decide_True by done.
    unfold dict_mem. rewrite dict_get_set. by rewrite decide_True.
  - intros g. rewrite Hat, decide_True by done.
    rewrite elem_of_dict_del. cbn. tauto.
  - intros fl Hne.
    by rewrite Hat, decide_False, subscribers_at_subscribe, decide_False.
Qed.

End TrieMatching.

(** ** The retained store as its callers see it *)

Section RetainedStoreUse.
Import Config Retained Spec.

(** X11: reading the tree after [set_retained]: the topic holds the new
    message, or none if the payload is empty, and every other topic
    holds what it held before. *)
Theorem get_retained_after_set_retained (root : Topic.TopicNode)
    (topic topic' payload : bytes) (qos : Z) :
  Topic.get_retained (Topic.set_retained root topic payload qos) topic'
  = if decide (topic' = topic)
    then (if len payload =? 0 then None else Some (topic, payload, qos))
    else Topic.get_retained root topic'.
Proof. apply get_set_retained. Qed.

(** X12: [get_retained_count] returns for every tree, and [set_retained]
    changes the count by what it does to the one topic: minus one if the
    topic held a message, plus one if the payload is not empty. *)
Theorem get_retained_count_after_set_retained (root : Topic.TopicNode)
    (topic payload : bytes) (qos : Z) :
  exists n : Z,
    Topic.get_retained_count root = Ok n
    /\ Topic.get_retained_count (Topic.set_retained root topic payload qos)
       = Ok (n
             - (if Topic.get_retained root topic is Some _ then 1 else 0)
             + (if len payload =? 0 then 0 else 1)).
Proof.
  exists (count_retained root). rewrite !get_retained_count_spec.
  split; [done|]. f_equal. rewrite count_set_retained. unfold slot_count.
  by destruct (Topic.get_retained root topic).
Qed.

End RetainedStoreUse.

(** ** One tree for subscriptions and retained messages *)

Section SharedTree.
Import Topic TopicOps TopicSpec Spec.

Lemma retained_at_navigate_create_subs (g : list (string * Z)
                                            -> list (string * Z))
    (levels : list bytes) :
  forall (levels' : list bytes) (node : TopicNode),
    retained_at levels'
      (navigate_create levels
         (fun node => mkTopicNode (children node) (g (subscribers node))
                        (retained node))
         node)
    = retained_at levels' node.
Proof.
  induction levels as [|level rest IH]; intros levels' node.
  - cbn [navigate_create]. destruct levels' as [|l' r']; [done|].
    by rewrite !retained_at_cons.
  - cbn [navigate_create]. destruct levels' as [|l' r']; [done|].
    rewrite !retained_at_cons, ensure_children_some, dict_get_set.
    destruct (decide (level = l')) as [->|Hne]; [|done].
    rewrite IH.
    destruct (dict_get (_ensure_children node) l'); [done|].
    apply retained_at_new_node.
Qed.

Lemma subscribers_at_navigate_create_slot (r : option (bytes * bytes * Z))
    (levels : list bytes) :
  forall (levels' : list bytes) (node : TopicNode),
    subscribers_at levels' (navigate_create levels (set_slot r) node)
    = subscribers_at levels' node.
Proof.
  induction levels as [|level rest IH]; intros levels' node.
  - cbn [navigate_create]. destruct levels' as [|l' r']; [done|].
    by rewrite !subscribers_at_cons.
  - cbn [navigate_create]. destruct levels' as [|l' r']; [done|].
    rewrite !subscribers_at_cons, ensure_children_some, dict_get_set.
    destruct (decide (level = l')) as [->|Hne]; [|done].
    rewrite IH.
    destruct (dict_get (_ensure_children node) l'); [done|].
    apply subscribers_at_new_node.
Qed.

Lemma retained_at_navigate_update (f : TopicNode -> option TopicNode)
    (levels : list bytes) :
  (forall n n' : TopicNode,
      f n = Some n' -> children n' = children n /\ retained n' = retained n) ->
  forall node node' : TopicNode,
    navigate_update levels f node = Some node' ->
    forall levels' : list bytes,
      retained_at levels' node' = retained_at levels' node.
Proof.
  intros Hf. induction levels as [|level rest IH]; intros node node'.
  - cbn [navigate_update]. intros [Hc Hr]%Hf [|l' r'].
    + done.
    + rewrite !retained_at_cons. unfold _ensure_children. by rewrite Hc.
  - cbn [navigate_update]. unfold child.
    destruct (has_children node); [|done].
    destruct (dict_get (_ensure_children node) level) as [ch|] eqn:Ec;
      [|done].
    destruct (navigate_update rest f ch) as [ch'|] eqn:Eu; [|done].
    intros [= <-] [|l' r']; [done|].
    rewrite !retained_at_cons, ensure_children_some, dict_get_set.
    destruct (decide (level = l')) as [->|Hne]; [|done].
    rewrite Ec. by eapply IH.
Qed.

(** X13: subscribing and unsubscribing never touch a retained message:
    [get_retained] gives the same answer for every topic after a
    [subscribe] or an [unsubscribe] on the shared tree. *)
Theorem subscriptions_keep_retained (root : TopicNode) (f : bytes)
    (c : string) (q : Z) (t : bytes) :
  get_retained (subscribe root f c q) t = get_retained root t
  /\ get_retained (unsubscribe root f c).1 t = get_retained root t.
Proof.
  split.
  - rewrite !get_retained_eq. unfold subscribe.
    apply (retained_at_navigate_create_subs (fun d => dict_set d c q)).
  - rewrite !get_retained_eq. unfold unsubscribe.
    destruct (navigate_update (_split_topic f) _ root) as [root'|] eqn:E;
      [|done].
    cbn [fst]. eapply retained_at_navigate_update; [|exact E].
    intros n n' H. cbn beta in H. destruct (dict_mem (subscribers n) c); [|done].
    by injection H as <-.
Qed.

Lemma match_clients_ext (root root' : TopicNode) (t : bytes) :
  (forall fl : list bytes, subscribers_at fl root = subscribers_at fl root') ->
  exists r r' : list (string * Z),
    match_ root t = Ok r /\ match_ root' t = Ok r'
    /\ forall c : string, c ∈ r.*1 <-> c ∈ r'.*1.
Proof.
  intros Heq.
  destruct (match_spec root t) as (r & Hr & Hs & Hc).
  destruct (match_spec root' t) as (r' & Hr' & Hs' & Hc').
  exists r, r'. split; [done|]. split; [done|]. intros c. split.
  - intros [g Hg]%elem_of_keys.
    destruct (Hs c g Hg) as (fl & Hfl & Hin). rewrite Heq in Hin.
    destruct (Hc' fl c Hfl) as [H|(n & i & fl2 & H & _)]; [|done|].
    + apply elem_of_keys. by exists g.
    + by apply elem_of_nil in H.
  - intros [g Hg]%elem_of_keys.
    destruct (Hs' c g Hg) as (fl & Hfl & Hin). rewrite <- Heq in Hin.
    destruct (Hc fl c Hfl) as [H|(n & i & fl2 & H & _)]; [|done|].
    + apply elem_of_keys. by exists g.
    + by apply elem_of_nil in H.
Qed.

(** X14: storing or clearing a retained message never touches a
    subscription: every filter keeps its subscribers, and [match] returns
    the same clients for every topic. *)
Theorem set_retained_keeps_subscriptions (root : TopicNode)
    (topic payload : bytes) (qos : Z) (t : bytes) :
  (forall fl : list bytes,
      subscribers_at fl (set_retained root topic payload qos)
      = subscribers_at fl root)
  /\ exists r r' : list (string * Z),
       match_ (set_retained root topic payload qos) t = Ok r
       /\ match_ root t = Ok r'
       /\ forall c : string, c ∈ r.*1 <-> c ∈ r'.*1.
Proof.
  assert (H : forall fl : list bytes,
             subscribers_at fl (set_retained root topic payload qos)
             = subscribers_at fl root).
  { intros fl. rewrite set_retained_eq.
    apply subscribers_at_navigate_create_slot. }
  split; [done|]. by apply match_clients_ext.
Qed.

End SharedTree.

(** ** Sessions and the QoS tables: whole flows *)

Section QoSFlows.
Import QoS Session QoSManager SessionSpec.

Lemma set_pending_qos1_id (s : ClientSession) :
  set_pending_qos1 s (pending_qos1 s) = s.
Proof. by destruct s. Qed.

Lemma set_pending_qos2_out_id (s : ClientSession) :
  set_pending_qos2_out s (pending_qos2_out s) = s.
Proof. by destruct s. Qed.

Lemma set_pending_qos1_twice (s : ClientSession) (m m' : gmap Z QoS1Outbound) :
  set_pending_qos1 (set_pending_qos1 s m) m' = set_pending_qos1 s m'.
Proof. done. Qed.

Lemma set_pending_qos2_out_twice (s : ClientSession)
    (m m' : gmap Z QoS2Outbound) :
  set_pending_qos2_out (set_pending_qos2_out s m) m'
  = set_pending_qos2_out s m'.
Proof. done. Qed.

(** X15: the outbound QoS 1 flow for a packet id that is not in flight:
    tracking the PUBLISH raises the in-flight count by one; the PUBACK is
    accepted and puts the session back as it was; a second PUBACK for the
    same id is refused and changes nothing. *)
Theorem outbound_qos1_flow (now : Z) (s : ClientSession) (pid : Z)
    (topic payload : bytes) (qos : Z) :
  pending_qos1 s !! pid = None ->
  get_inflight_count (track_outbound_qos1 now s pid topic payload qos)
  = get_inflight_count s + 1
  /\ handle_puback (track_outbound_qos1 now s pid topic payload qos) pid
     = (s, true)
  /\ handle_puback s pid = (s, false).
Proof.
  intros Hfresh. unfold track_outbound_qos1, handle_puback, get_inflight_count.
  cbn [pending_qos1 pending_qos2 pending_qos2_out set_pending_qos1].
  rewrite lookup_insert_eq, Hfresh, map_size_insert_None by done.
  repeat split; [lia|].
  rewrite set_pending_qos1_twice, delete_insert_id by done.
  by rewrite set_pending_qos1_id.
Qed.

Lemma outbound_qos1_flow_witness :
  get_inflight_count
    (track_outbound_qos1 1000 (Fixtures.online "sub" true) 7
       (Fixtures.b_of "a/b") [1] 1)
  = get_inflight_count (Fixtures.online "sub" true) + 1
  /\ handle_puback
       (track_outbound_qos1 1000 (Fixtures.online "sub" true) 7
          (Fixtures.b_of "a/b") [1] 1) 7
     = (Fixtures.online "sub" true, true)
  /\ handle_puback (Fixtures.online "sub" true) 7
     = (Fixtures.online "sub" true, false).
Proof.
  apply (outbound_qos1_flow 1000 (Fixtures.online "sub" true) 7
           (Fixtures.b_of "a/b") [1] 1).
  reflexivity.
Defined.

(** X16: the outbound QoS 2 flow for a packet id that is not in flight:
    after tracking, the first PUBREC is accepted and moves the entry to
    [AWAITING_PUBCOMP] with a fresh timestamp; a duplicate PUBREC is
    refused and changes nothing; the PUBCOMP is accepted and puts the
    session back as it was.  The in-flight count is one higher during
    the flow. *)
Theorem outbound_qos2_flow (now now' now'' : Z) (s : ClientSession) (pid : Z)
    (topic payload : bytes) :
  pending_qos2_out s !! pid = None ->
  exists s2 : ClientSession,
    handle_pubrec now' (track_outbound_qos2 now s pid topic payload) pid
    = (s2, true)
    /\ pending_qos2_out s2 !! pid
       = Some (mkQoS2Outbound pid topic payload AWAITING_PUBCOMP 0 now')
    /\ handle_pubrec now'' s2 pid = (s2, false)
    /\ get_inflight_count s2 = get_inflight_count s + 1
    /\ handle_pubcomp s2 pid = (s, true).
Proof.
  intros Hfresh. unfold track_outbound_qos2, handle_pubrec.
  cbn [pending_qos2_out set_pending_qos2_out].
  rewrite lookup_insert_eq. cbn [q2o_state].
  eexists. split; [reflexivity|].
  cbn [pending_qos2_out set_pending_qos2_out q2o_packet_id q2o_topic
         q2o_payload q2o_retry_count].
  rewrite insert_insert_eq, lookup_insert_eq. cbn [q2o_state].
  repeat split.
  - unfold get_inflight_count.
    cbn [pending_qos1 pending_qos2 pending_qos2_out set_pending_qos2_out].
    rewrite map_size_insert_None by done. lia.
  - unfold handle_pubcomp.
    cbn [pending_qos2_out set_pending_qos2_out].
    rewrite lookup_insert_eq, delete_insert_id by done.
    by destruct s.
Qed.

Lemma outbound_qos2_flow_witness :
  exists s2 : ClientSession,
    handle_pubrec 2000
      (track_outbound_qos2 1000 (Fixtures.online "sub" true) 7
         (Fixtures.b_of "a/b") [1]) 7
    = (s2, true)
    /\ pending_qos2_out s2 !! 7
       = Some (mkQoS2Outbound 7 (Fixtures.b_of "a/b") [1] AWAITING_PUBCOMP 0
                 2000)
    /\ handle_pubrec 3000 s2 7 = (s2, false)
    /\ get_inflight_count s2
       = get_inflight_count (Fixtures.online "sub" true) + 1
    /\ handle_pubcomp s2 7 = (Fixtures.online "sub" true, true).
Proof.
  apply (outbound_qos2_flow 1000 2000 3000 (Fixtures.online "sub" true) 7
           (Fixtures.b_of "a/b") [1]).
  reflexivity.
Defined.

Lemma next_packet_id_mod (s : ClientSession) :
  0 <= packet_id_counter s <= 65535 ->
  (next_packet_id s).2 = packet_id_counter s mod 65535 + 1
  /\ packet_id_counter (next_packet_id s).1 = (next_packet_id s).2
  /\ 1 <= (next_packet_id s).2 <= 65535.
Proof.
  intros Hc. unfold next_packet_id. cbn [fst snd packet_id_counter
                                          set_packet_id_counter].
  destruct (65535 <? packet_id_counter s + 1) eqn:E.
  - apply Z.ltb_lt in E.
    assert (packet_id_counter s = 65535) as -> by lia. done.
  - apply Z.ltb_ge in E. rewrite Z.mod_small by lia. lia.
Qed.

Lemma next_packet_ids_eq (n : nat) :
  forall s : ClientSession,
    0 <= packet_id_counter s <= 65535 ->
    (next_packet_ids n s).2
    = (fun k : nat => (packet_id_counter s + Z.of_nat k) mod 65535 + 1)
        <$> seq 0 n.
Proof.
  induction n as [|n IH]; intros s Hc; [done|].
  cbn [next_packet_ids].
  destruct (next_packet_id_mod s Hc) as (Hid & Hcnt & Hr).
  destruct (next_packet_id s) as [s1 pid] eqn:E1. cbn [fst snd] in *.
  specialize (IH s1 ltac:(lia)).
  destruct (next_packet_ids n s1) as [s2 pids]. cbn [snd] in *.
  rewrite IH. cbn [seq fmap list_fmap]. f_equal.
  - rewrite Z.add_0_r. done.
  - rewrite <- seq_shift, <- list_fmap_compose.
    apply list_fmap_ext. intros i k _. cbn.
    rewrite Hcnt, Hid. f_equal.
    rewrite <- Z.add_assoc, Zplus_mod_idemp_l. f_equal. lia.
Qed.

(** X17: starting from a counter in [0, 65535] (a new session starts at
    0), up to 65535 successive calls of [next_packet_id] return pairwise
    different packet ids, all in [1, 65535]. *)
Theorem next_packet_ids_distinct (n : nat) (s : ClientSession) :
  0 <= packet_id_counter s <= 65535 ->
  Z.of_nat n <= 65535 ->
  NoDup (next_packet_ids n s).2
  /\ Forall (fun pid => 1 <= pid <= 65535) (next_packet_ids n s).2.
Proof.
  intros Hc Hn. rewrite next_packet_ids_eq by done. split.
  - apply NoDup_fmap_2_strong; [|apply NoDup_seq].
    intros k1 k2 [_ H1]%elem_of_seq [_ H2]%elem_of_seq Heq.
    pose proof (Z.div_mod (packet_id_counter s + Z.of_nat k1) 65535
                  ltac:(lia)) as D1.
    pose proof (Z.div_mod (packet_id_counter s + Z.of_nat k2) 65535
                  ltac:(lia)) as D2.
    pose proof (Z.mod_pos_bound (packet_id_counter s + Z.of_nat k1) 65535
                  ltac:(lia)) as B1.
    pose proof (Z.mod_pos_bound (packet_id_counter s + Z.of_nat k2) 65535
                  ltac:(lia)) as B2.
    cbn beta in Heq. lia.
  - apply Forall_fmap, Forall_forall. intros k _. cbn.
    pose proof (Z.mod_pos_bound (packet_id_counter s + Z.of_nat k) 65535
                  ltac:(lia)). lia.
Qed.

Lemma next_packet_ids_distinct_witness :
  NoDup (next_packet_ids 3 (Session.new "c" true)).2
  /\ Forall (fun pid => 1 <= pid <= 65535)
       (next_packet_ids 3 (Session.new "c" true)).2.
Proof.
  apply (next_packet_ids_distinct 3 (Session.new "c" true)).
  - cbn. lia.
  - lia.
Defined.

(** X18: with a limit of at least 1 and a queue within the limit,
    [queue_message] does not raise; the queue stays within the limit, the
    new message is at its end, at most one message is dropped and it is
    the oldest one, none is dropped while there is room, and nothing else
    in the session changes. *)
Theorem queue_message_bounded (s : ClientSession) (topic payload : bytes)
    (qos max_queued : Z) :
  1 <= max_queued ->
  len (queued_messages s) <= max_queued ->
  exists (s' : ClientSession) (dropped : list (bytes * bytes * Z)),
    queue_message s topic payload qos max_queued = Ok s'
    /\ len (queued_messages s') <= max_queued
    /\ queued_messages s ++ [(topic, payload, qos)]
       = dropped ++ queued_messages s'
    /\ (length dropped <= 1)%nat
    /\ (len (queued_messages s) < max_queued -> dropped = [])
    /\ s' = set_queued_messages s (queued_messages s').
Proof.
  intros Hmax Hlen. unfold queue_message.
  destruct (max_queued <=? len (queued_messages s)) eqn:E.
  - apply Z.leb_le in E.
    destruct (queued_messages s) as [|m q] eqn:Eq.
    { unfold len in E. cbn in E. lia. }
    cbn [res_bind].
    exists (set_queued_messages s (q ++ [(topic, payload, qos)])), [m].
    cbn [queued_messages set_queued_messages].
    repeat split; try done;
      unfold len in *; rewrite ?length_app; cbn [length] in *; lia.
  - apply Z.leb_gt in E. cbn [res_bind].
    exists (set_queued_messages s
              (queued_messages s ++ [(topic, payload, qos)])), [].
    cbn [queued_messages set_queued_messages].
    repeat split; try done;
      unfold len in *; rewrite ?length_app; cbn [length] in *; lia.
Qed.

Lemma queue_message_bounded_witness :
  exists (s' : ClientSession) (dropped : list (bytes * bytes * Z)),
    queue_message (Session.new "c" false) (Fixtures.b_of "a") [1] 1 1 = Ok s'
    /\ len (queued_messages s') <= 1
    /\ queued_messages (Session.new "c" false) ++ [(Fixtures.b_of "a", [1], 1)]
       = dropped ++ queued_messages s'
    /\ (length dropped <= 1)%nat
    /\ (len (queued_messages (Session.new "c" false)) < 1 -> dropped = [])
    /\ s' = set_queued_messages (Session.new "c" false) (queued_messages s').
Proof.
  apply (queue_message_bounded (Session.new "c" false) (Fixtures.b_of "a")
           [1] 1 1).
  - lia.
  - vm_compute. discriminate.
Defined.

End QoSFlows.

(** ** Rules for reasoning about handlers *)

Section HoareRules.
Import Config Session Broker Router RouterSpec.

Lemma hoare_ret {A} (a : A) (P : State -> Prop) (Q : A -> State -> Prop)
    (E : State -> Prop) :
  (forall b, P b -> Q a b) -> hoare P (ret a) Q E.
Proof. intros H b Hb. by apply H. Qed.

Lemma hoare_bind {A B} (m : M A) (k : A -> M B) (P : State -> Prop)
    (Q : A -> State -> Prop) (R : B -> State -> Prop) (E : State -> Prop) :
  hoare P m Q E ->
  (forall a, hoare (Q a) (k a) R E) ->
  hoare P (bind m k) R E.
Proof.
  intros Hm Hk b Hb. unfold bind. specialize (Hm b Hb).
  destruct (m b) as [b' [a|e]]; [|done]. by apply Hk.
Qed.

Lemma hoare_weaken {A} (m : M A) (P P' : State -> Prop)
    (Q Q' : A -> State -> Prop) (E E' : State -> Prop) :
  hoare P m Q E ->
  (forall b, P' b -> P b) ->
  (forall a b, Q a b -> Q' a b) ->
  (forall b, E b -> E' b) ->
  hoare P' m Q' E'.
Proof.
  intros Hm HP HQ HE b Hb. specialize (Hm b (HP b Hb)).
  destruct (m b) as [b' [a|e]]; auto.
Qed.

Lemma hoare_get (P : State -> Prop) (E : State -> Prop) :
  hoare P get (fun a b => a = b /\ P b) E.
Proof. by intros b Hb. Qed.

Lemma hoare_lift {A} (r : res A) (P : State -> Prop) (E : State -> Prop) :
  (forall b, P b -> E b) ->
  hoare P (lift r) (fun a b => r = Ok a /\ P b) E.
Proof. intros HE b Hb. unfold lift. destruct r; auto. Qed.

Lemma hoare_modify (f : State -> State) (P : State -> Prop)
    (Q : unit -> State -> Prop) (E : State -> Prop) :
  (forall b, P b -> Q tt (f b)) -> hoare P (modify f) Q E.
Proof. intros H b Hb. by apply H. Qed.

Lemma hoare_on_session {A} (cid : string)
    (f : ClientSession -> res (ClientSession * A)) (P : State -> Prop)
    (Q : A -> State -> Prop) (E : State -> Prop) :
  (forall b s,
      P b -> sessions b !! cid = Some s ->
      match f s with
      | Ok (s', a) => Q a (set_sessions b (<[cid := s']> (sessions b)))
      | Raise _ => E b
      end) ->
  (forall b, P b -> sessions b !! cid = None -> E b) ->
  hoare P (on_session cid f) Q E.
Proof.
  intros Hs Hn b Hb. unfold on_session.
  destruct (sessions b !! cid) as [s|] eqn:Es; [|by apply Hn].
  specialize (Hs b s Hb Es). by destruct (f s) as [[s' a]|e].
Qed.

Lemma keeps_ret {A} (a : A) (I : State -> Prop) : keeps I (ret a).
Proof. by apply hoare_ret. Qed.

Lemma keeps_bind {A B} (m : M A) (k : A -> M B) (I : State -> Prop) :
  keeps I m -> (forall a, keeps I (k a)) -> keeps I (bind m k).
Proof. intros Hm Hk. by eapply hoare_bind. Qed.

Lemma keeps_get (I : State -> Prop) : keeps I get.
Proof. by intros b Hb. Qed.

Lemma keeps_lift {A} (r : res A) (I : State -> Prop) : keeps I (lift r).
Proof. intros b Hb. unfold lift. by destruct r. Qed.

Lemma keeps_modify (f : State -> State) (I : State -> Prop) :
  (forall b, I b -> I (f b)) -> keeps I (modify f).
Proof. intros H. by apply hoare_modify. Qed.

Lemma keeps_on_session {A} (cid : string)
    (f : ClientSession -> res (ClientSession * A)) (I : State -> Prop) :
  (forall b s s' a,
      I b -> sessions b !! cid = Some s -> f s = Ok (s', a) ->
      I (set_sessions b (<[cid := s']> (sessions b)))) ->
  keeps I (on_session cid f).
Proof.
  intros H. apply hoare_on_session; [|done].
  intros b s Hb Es. destruct (f s) as [[s' a]|e] eqn:Ef; [|done].
  by eapply H.
Qed.

End HoareRules.

(** Follow the structure of a handler as far as the rules above go. *)
Ltac keeps_step :=
  lazymatch goal with
  | |- RouterSpec.keeps _ (Broker.ret _) => apply keeps_ret
  | |- RouterSpec.keeps _ Broker.get => apply keeps_get
  | |- RouterSpec.keeps _ (Broker.lift _) => apply keeps_lift
  | |- RouterSpec.keeps _ (Broker.bind _ _) => apply keeps_bind; [|intros ?]
  | |- RouterSpec.keeps _ (if ?c then _ else _) => destruct c
  | |- RouterSpec.keeps _ (match ?o with Some _ => _ | None => _ end) =>
      destruct o
  end.

(** ** The router: who is left alone *)

Section RouterFrame.
Import Config Session Broker Router RouterSpec.

Lemma frame_refl (P : string -> Prop) (b : State) : frame P b b.
Proof. by split. Qed.

Lemma keeps_frame_on_session {A} (P : string -> Prop) (b0 : State)
    (cid : string) (f : ClientSession -> res (ClientSession * A)) :
  P cid -> keeps (frame P b0) (on_session cid f).
Proof.
  intros HP. apply keeps_on_session.
  intros b s s' a [Hc Hf] _ _. split; [done|].
  intros c Hn. cbn [sessions set_sessions].
  rewrite lookup_insert_ne; [by apply Hf|]. by intros ->.
Qed.

Lemma keeps_frame_modify (P : string -> Prop) (b0 : State)
    (f : State -> State) :
  (forall b, config (f b) = config b /\ sessions (f b) = sessions b) ->
  keeps (frame P b0) (modify f).
Proof.
  intros Hf. apply keeps_modify. intros b [Hc Hs].
  destruct (Hf b) as [Hc' Hs']. split; [congruence|].
  intros c Hn. rewrite Hs'. by apply Hs.
Qed.

Lemma keeps_frame_count_sent (P : string -> Prop) (b0 : State)
    (opts : Options) :
  keeps (frame P b0) (count_sent opts).
Proof.
  unfold count_sent. destruct (with_stats opts); [|apply keeps_ret].
  by apply keeps_frame_modify.
Qed.

Lemma keeps_frame_send_to_subscriber (P : string -> Prop) (b0 : State)
    (opts : Options) (cid : string) (topic payload : bytes) (q : Z) :
  P cid ->
  keeps (frame P b0) (_send_to_subscriber opts cid topic payload q).
Proof.
  intros HP.
  unfold _send_to_subscriber, inflight_full, session_send,
    session_queue_message, session_next_packet_id.
  repeat first
    [ keeps_step
    | apply keeps_frame_count_sent
    | by apply keeps_frame_on_session ].
Qed.

Lemma keeps_frame_route_to (P : string -> Prop) (b0 : State)
    (opts : Options) (topic payload : bytes) (qos : Z)
    (sender_id : option string) (client_id : string) (granted_qos : Z) :
  (Some client_id <> sender_id -> P client_id) ->
  keeps (frame P b0)
    (route_to opts topic payload qos sender_id client_id granted_qos).
Proof.
  intros HP. unfold route_to.
  case_bool_decide as Hs; [apply keeps_ret|].
  specialize (HP Hs). unfold session_queue_message.
  repeat first
    [ keeps_step
    | by apply keeps_frame_send_to_subscriber
    | by apply keeps_frame_on_session ].
Qed.

Lemma keeps_frame_route_all (P : string -> Prop) (b0 : State)
    (opts : Options) (topic payload : bytes) (qos : Z)
    (sender_id : option string) (subs : list (string * Z)) :
  (forall c, c ∈ subs.*1 -> Some c <> sender_id -> P c) ->
  keeps (frame P b0) (route_all opts topic payload qos sender_id subs).
Proof.
  induction subs as [|[c g] subs IH]; intros HP; cbn [route_all].
  - apply keeps_ret.
  - apply keeps_bind; [|intros _].
    + apply keeps_frame_route_to. apply HP. cbn. apply elem_of_cons. by left.
    + apply IH. intros c' Hc'. apply HP. cbn. apply elem_of_cons. by right.
Qed.

Lemma keeps_final {A} (I : State -> Prop) (m : M A) (b : State) :
  keeps I m -> I b -> I (m b).1.
Proof.
  intros Hk Hb. specialize (Hk b Hb). by destruct (m b) as [b' [a|e]].
Qed.

Lemma store_retained_config (opts : Options) (topic payload : bytes)
    (qos : Z) (retain : bool) (b : State) :
  config (store_retained opts topic payload qos retain b).1 = config b.
Proof.
  unfold store_retained, bind, get, modify, lift.
  destruct (retain && retain_enabled (config b)); [|done].
  destruct (with_retained_store opts), (len payload =? 0); try done.
  by destruct (Retained.set (config b) (retained_store b) topic payload qos).
Qed.

Lemma subscribers_at_set_retained (root : Topic.TopicNode)
    (topic payload : bytes) (qos : Z) (fl : list bytes) :
  TopicSpec.subscribers_at fl (Topic.set_retained root topic payload qos)
  = TopicSpec.subscribers_at fl root.
Proof. rewrite set_retained_eq. apply subscribers_at_navigate_create_slot. Qed.

Lemma retained_set_subscribers (cfg : BrokerConfig)
    (st st' : Retained.RetainedStore) (topic payload : bytes) (qos : Z)
    (r : bool) (fl : list bytes) :
  Retained.set cfg st topic payload qos = Ok (st', r) ->
  TopicSpec.subscribers_at fl (Retained.topic_tree st')
  = TopicSpec.subscribers_at fl (Retained.topic_tree st).
Proof.
  unfold Retained.set.
  destruct (negb (retain_enabled cfg)); [by intros [= <- _]|].
  destruct (len payload =? 0).
  { intros [= <- _]. apply subscribers_at_set_retained. }
  destruct (Topic.get_retained (Retained.topic_tree st) topic).
  { cbn [res_bind]. intros [= <- _]. apply subscribers_at_set_retained. }
  destruct (Retained.count st) as [n|]; [|done]. cbn [res_bind].
  destruct (max_retained_messages cfg <=? n); cbn [res_bind];
    intros [= <- _]; cbn [Retained.topic_tree];
    rewrite subscribers_at_set_retained; [|done].
  unfold Retained.evict. destruct (Retained._lru_order st); [done|].
  apply subscribers_at_set_retained.
Qed.

Lemma store_retained_subscribers (opts : Options) (topic payload : bytes)
    (qos : Z) (retain : bool) (b : State) (fl : list bytes) :
  TopicSpec.subscribers_at fl
    (topic_tree (store_retained opts topic payload qos retain b).1)
  = TopicSpec.subscribers_at fl (topic_tree b).
Proof.
  unfold store_retained, bind, get, modify, lift.
  destruct (retain && retain_enabled (config b)); [|done].
  destruct (with_retained_store opts), (len payload =? 0); cbn [fst];
    try apply subscribers_at_set_retained.
  destruct (Retained.set (config b) (retained_store b) topic payload qos)
    as [[st' r]|] eqn:E; [|done].
  cbn [fst]. by eapply retained_set_subscribers.
Qed.

(** X19: [route_publish] leaves the configuration as it is, never
    touches the session of the sender (no echo), and never touches the
    session of a client that holds no subscription to a filter matching
    the topic: nothing is written to it, queued for it or tracked for
    it.  This holds also when the call raises on the way. *)
Theorem route_publish_leaves_others (opts : Options) (topic payload : bytes)
    (qos : Z) (retain : bool) (sender_id : option string) (b : State) :
  config (route_publish opts topic payload qos retain sender_id b).1
  = config b
  /\ (forall c : string,
        Some c = sender_id ->
        sessions (route_publish opts topic payload qos retain sender_id b).1
          !! c
        = sessions b !! c)
  /\ (forall c : string,
        (forall (fl : list bytes) (g : Z),
            TopicSpec.filter_matches true fl (Topic._split_topic topic) = true ->
            ~ (c, g) ∈ TopicSpec.subscribers_at fl (topic_tree b)) ->
        sessions (route_publish opts topic payload qos retain sender_id b).1
          !! c
        = sessions b !! c).
Proof.
  pose proof (store_retained_sessions opts topic payload qos retain b) as Hss.
  pose proof (store_retained_config opts topic payload qos retain b) as Hcf.
  pose proof (store_retained_subscribers opts topic payload qos retain b)
    as Hsub.
  unfold route_publish, bind.
  destruct (store_retained opts topic payload qos retain b) as [b1 [u|e]];
    cbn [fst snd] in *; [|by rewrite Hss].
  unfold get, lift.
  destruct (match_spec (topic_tree b1) topic) as (r & Hr & Hs & _).
  rewrite Hr.
  pose proof (keeps_final _ _ b1
                (keeps_frame_route_all
                   (fun c => c ∈ r.*1 /\ Some c <> sender_id) b1 opts topic
                   payload qos sender_id r ltac:(done))
                (frame_refl _ b1)) as [Hc Hf].
  split; [congruence|]. split.
  - intros c Hc'. rewrite Hf, Hss; [done|]. by intros [_ ?].
  - intros c Hno. rewrite Hf, Hss; [done|].
    intros [[g Hg]%elem_of_keys _].
    destruct (Hs c g Hg) as (fl & Hfl & Hin). rewrite Hsub in Hin.
    by apply (Hno fl g).
Qed.

End RouterFrame.

(** ** PUBLISH on the wire *)

Section PublishWire.
Import Utils Packet PacketIO.

Lemma read_length_eq (stream : bytes) (rl mult bc : Z) :
  read_length stream rl mult bc
  = if 4 <=? bc
    then Failed (ProtocolError "Remaining length exceeds 4 bytes")
    else
      match stream with
      | [] => Failed IncompleteReadError
      | byte :: stream' =>
          if Z.land byte 128 =? 0
          then Done (rl + Z.land byte 127 * mult, stream')
          else if 128 * 128 * 128 <? mult * 128
          then Failed (ProtocolError "Remaining length multiplier overflow")
          else read_length stream' (rl + Z.land byte 127 * mult)
                 (mult * 128) (bc + 1)
      end.
Proof. by destruct stream. Qed.

(** The reading loop of [read_packet] reads back what the encoder loop
    produced, and leaves the rest of the input. *)
Lemma encode_loop_read_length (k : nat) :
  forall (n : Z) (acc : bytes),
    0 <= n < 128 ^ Z.of_nat (S k) ->
    exists bs : bytes,
      encode_loop (S k) n acc = Ok (acc ++ bs)
      /\ (1 <= length bs <= S k)%nat
      /\ forall (rest : bytes) (mult value bc : Z),
          0 <= bc ->
          bc + len bs <= 4 ->
          mult = 128 ^ bc ->
          read_length (bs ++ rest) value mult bc
          = Done (value + n * mult, rest).
Proof.
  induction k as [|k IH]; intros n acc Hn.
  - exists [n]. change (128 ^ Z.of_nat 1) with 128 in Hn.
    assert (Hq : n / 128 = 0) by (apply Z.div_small; lia).
    assert (Hm : n mod 128 = n) by (apply Z.mod_small; lia).
    split; [|split].
    + rewrite encode_loop_S, Hq, Hm. done.
    + cbn. lia.
    + intros rest mult value bc Hbc Hc _.
      rewrite read_length_eq. unfold len in Hc. cbn in Hc.
      destruct (4 <=? bc) eqn:E4; [lia|]. cbn [app].
      destruct (low7 n Hn) as (-> & -> & _). done.
  - assert (Hpow : 128 ^ Z.of_nat (S (S k)) = 128 * 128 ^ Z.of_nat (S k)).
    { rewrite (Nat2Z.inj_succ (S k)), Z.pow_succ_r by lia. done. }
    assert (Hq : 0 <= n / 128 < 128 ^ Z.of_nat (S k)).
    { split; [apply Z.div_pos; lia|].
      apply Z.div_lt_upper_bound; lia. }
    assert (Hm : 0 <= n mod 128 < 128) by (apply Z.mod_pos_bound; lia).
    pose proof (Z.div_mod n 128 ltac:(lia)) as Hdm.
    rewrite encode_loop_S.
    destruct (n / 128 =? 0) eqn:Ez.
    + apply Z.eqb_eq in Ez. rewrite Ez in *.
      exists [n mod 128].
      split; [|split].
      * done.
      * cbn. lia.
      * intros rest mult value bc Hbc Hc _.
        rewrite read_length_eq. unfold len in Hc. cbn in Hc.
        destruct (4 <=? bc) eqn:E4; [lia|]. cbn [app].
        destruct (low7 _ Hm) as (-> & -> & _). cbn [Z.eqb].
        f_equal. f_equal. nia.
    + apply Z.eqb_neq in Ez.
      destruct (0 <? n / 128) eqn:Ep; [|lia].
      destruct (IH (n / 128) (acc ++ [Z.lor (n mod 128) 128]) Hq)
        as (bs & Henc & Hlen & Hdec).
      exists (Z.lor (n mod 128) 128 :: bs).
      split; [|split].
      * rewrite Henc. by rewrite <- app_assoc.
      * cbn. lia.
      * intros rest mult value bc Hbc Hc Hmult.
        rewrite read_length_eq.
        assert (Hl : len (Z.lor (n mod 128) 128 :: bs) = 1 + len bs)
          by (unfold len; cbn [length]; lia).
        rewrite Hl in Hc.
        assert (1 <= len bs) by (unfold len; lia).
        destruct (4 <=? bc) eqn:E4; [lia|]. cbn [app].
        destruct (low7 _ Hm) as (_ & _ & -> & ->). cbn [Z.eqb].
        assert (Hm' : mult * 128 = 128 ^ (bc + 1)).
        { rewrite Hmult, Z.pow_add_r by lia. done. }
        assert (Hsmall : (128 * 128 * 128 <? mult * 128) = false).
        { apply Z.ltb_ge. rewrite Hm'.
          assert (bc = 0 \/ bc = 1 \/ bc = 2) as [->|[->| ->]] by lia; done. }
        rewrite Hsmall, Hdec by (done || lia).
        f_equal. f_equal. nia.
Qed.

Lemma readexactly_app (body rest : bytes) :
  readexactly (len body) (body ++ rest) = Done (body, rest).
Proof.
  unfold readexactly. rewrite len_app.
  pose proof (len_nonneg rest).
  destruct (len body + len rest <? len body) eqn:E; [lia|].
  unfold len. rewrite Nat2Z.id, take_app_length, drop_app_length. done.
Qed.

Lemma readexactly_one (x : Z) (rest : bytes) :
  readexactly 1 (x :: rest) = Done ([x], rest).
Proof. apply (readexactly_app [x] rest). Qed.

(** [read_packet] reads back a frame: one header byte, the encoded
    remaining length, and as many bytes as it announces. *)
Lemma read_packet_frame (first_byte n : Z) (rlb body rest : bytes) :
  encode_remaining_length n = Ok rlb ->
  len body = n ->
  read_packet ([first_byte] ++ rlb ++ body ++ rest)
  = Done (Z.land (Z.shiftr first_byte 4) 15, Z.land first_byte 15, body,
          rest).
Proof.
  intros Henc Hlen. unfold encode_remaining_length in Henc.
  destruct ((n <? 0) || (268435455 <? n)) eqn:E; [done|].
  destruct (encode_loop_read_length 3 n []) as (bs & Henc' & Hl & Hread).
  { change (128 ^ Z.of_nat 4) with 268435456. lia. }
  rewrite Henc' in Henc. injection Henc as <-. cbn [app].
  unfold read_packet. rewrite readexactly_one.
  change (py_index [first_byte] 0) with (Some first_byte). cbv zeta.
  rewrite (Hread (body ++ rest) 1 0 0); [|lia|unfold len; lia|done].
  replace (0 + n * 1) with n by lia.
  destruct (268435455 <? n) eqn:E2; [lia|].
  destruct (0 <? n) eqn:E3.
  - by rewrite <- Hlen, readexactly_app.
  - assert (len body = 0) as H0 by (pose proof (len_nonneg body); lia).
    destruct body; [done|]. unfold len in H0. cbn in H0. lia.
Qed.

Lemma unpack_from_H_at (pre post : bytes) (hi lo : Z) :
  unpack_from_H (pre ++ hi :: lo :: post) (len pre) = Ok (hi * 256 + lo).
Proof.
  unfold unpack_from_H. pose proof (len_nonneg pre). pose proof (len_nonneg post).
  destruct (len pre <? 0) eqn:E0; [lia|]. cbn [andb].
  assert (Hl : len (pre ++ hi :: lo :: post) = len pre + 2 + len post).
  { rewrite len_app. unfold len. cbn [length]. lia. }
  rewrite Hl.
  destruct (len pre + 2 + len post - len pre <? 2) eqn:E1; [lia|].
  assert (H1 : (pre ++ hi :: lo :: post) !! Z.to_nat (len pre) = Some hi).
  { unfold len. rewrite Nat2Z.id. by apply list_lookup_middle. }
  assert (H2 : (pre ++ hi :: lo :: post) !! Z.to_nat (len pre + 1) = Some lo).
  { replace (pre ++ hi :: lo :: post) with ((pre ++ [hi]) ++ lo :: post)
      by (by rewrite <- app_assoc).
    apply list_lookup_middle. unfold len. rewrite length_app. cbn. lia. }
  by rewrite H1, H2.
Qed.

Lemma py_slice_middle {A} (pre mid post : list A) :
  py_slice (pre ++ mid ++ post) (len pre) (len pre + len mid) = mid.
Proof.
  unfold py_slice, py_clamp.
  pose proof (len_nonneg pre). pose proof (len_nonneg mid).
  pose proof (len_nonneg post).
  rewrite !len_app.
  destruct (len pre <? 0) eqn:E0; [lia|].
  destruct (len pre + len mid <? 0) eqn:E1; [lia|].
  rewrite !Z.min_l by lia.
  replace (Z.to_nat (len pre)) with (length pre) by (unfold len; lia).
  replace (Z.to_nat (len pre + len mid - len pre)) with (length mid)
    by (unfold len; lia).
  rewrite drop_app_length. apply take_app_length.
Qed.

Lemma py_slice_from_app {A} (pre post : list A) :
  py_slice_from (pre ++ post) (len pre) = post.
Proof.
  unfold py_slice_from, py_clamp.
  pose proof (len_nonneg pre). pose proof (len_nonneg post).
  rewrite len_app.
  destruct (len pre <? 0) eqn:E0; [lia|].
  rewrite Z.min_l by lia.
  replace (Z.to_nat (len pre)) with (length pre) by (unfold len; lia).
  apply drop_app_length.
Qed.

(** Decoding a length-prefixed string in the middle of a packet. *)
Lemma decode_utf8_string_at (pre s post : bytes) (hi lo : Z) :
  hi * 256 + lo = len s ->
  decode_utf8_string (pre ++ hi :: lo :: s ++ post) (len pre)
  = Ok (s, len pre + 2 + len s).
Proof.
  intros Hl. unfold decode_utf8_string.
  rewrite unpack_from_H_at. cbn [res_bind]. rewrite Hl.
  apply (f_equal Ok), f_equal2; [|done].
  replace (pre ++ hi :: lo :: s ++ post)
    with ((pre ++ [hi; lo]) ++ s ++ post) by (by rewrite <- app_assoc).
  replace (len pre + 2) with (len (pre ++ [hi; lo]))
    by (rewrite len_app; unfold len; cbn [length]; lia).
  apply py_slice_middle.
Qed.

Lemma pack_H_inv (n : Z) (bs : bytes) :
  pack_H n = Ok bs ->
  0 <= n <= 65535
  /\ exists hi lo : Z, bs = [hi; lo] /\ hi * 256 + lo = n.
Proof.
  unfold pack_H. destruct ((n <? 0) || (65535 <? n)) eqn:E; [done|].
  intros [= <-]. split; [lia|]. eexists _, _. split; [done|].
  apply pack_unpack_H. lia.
Qed.

Lemma publish_first_byte (q : Z) (retain dup : bool) :
  0 <= q <= 2 ->
  let first_byte :=
    Z.lor (Z.lor (Z.lor (Z.shiftl PUBLISH 4) (Z.shiftl (py_int dup) 3))
             (Z.shiftl q 1)) (py_int retain) in
  Z.land (Z.shiftr first_byte 4) 15 = PUBLISH
  /\ py_bool (Z.land (Z.shiftr (Z.land first_byte 15) 3) 1) = dup
  /\ Z.land (Z.shiftr (Z.land first_byte 15) 1) 3 = q
  /\ py_bool (Z.land (Z.land first_byte 15) 1) = retain.
Proof.
  intros Hq.
  assert (q = 0 \/ q = 1 \/ q = 2) as [->|[->| ->]] by lia;
    destruct retain, dup; done.
Qed.

(** What [parse_publish] makes of a variable header and payload laid out
    as [build_publish] does. *)
Lemma parse_publish_layout (topic payload idb : bytes) (hi lo flags : Z)
    (pid : option Z) :
  hi * 256 + lo = len topic ->
  0 < len topic ->
  byte_in 43 topic = false ->
  byte_in 35 topic = false ->
  Z.land (Z.shiftr flags 1) 3 <= 2 ->
  match pid with
  | Some p =>
      0 < Z.land (Z.shiftr flags 1) 3 /\ p <> 0
      /\ exists phi plo : Z, idb = [phi; plo] /\ phi * 256 + plo = p
  | None => Z.land (Z.shiftr flags 1) 3 = 0 /\ idb = []
  end ->
  parse_publish (hi :: lo :: topic ++ idb ++ payload) flags
  = Ok (mkPublishData topic payload (Z.land (Z.shiftr flags 1) 3)
          (py_bool (Z.land flags 1))
          (py_bool (Z.land (Z.shiftr flags 3) 1)) pid).
Proof.
  intros Hl Hne Hp Hh Hq Hpid. unfold parse_publish.
  pose proof (len_nonneg topic). pose proof (len_nonneg payload).
  assert (Hlen : len (hi :: lo :: topic ++ idb ++ payload)
                 = 2 + len topic + len idb + len payload).
  { unfold len. cbn [length]. rewrite !length_app. lia. }
  rewrite Hlen. pose proof (len_nonneg idb).
  destruct (2 + len topic + len idb + len payload <? 2) eqn:E0; [lia|].
  cbv zeta.
  destruct (2 <? Z.land (Z.shiftr flags 1) 3) eqn:E1; [lia|].
  pose proof (decode_utf8_string_at [] topic (idb ++ payload) hi lo Hl) as Hd.
  cbn [app] in Hd. change (len (@nil Z)) with 0 in Hd. rewrite Hd.
  cbn [res_bind].
  destruct (len topic =? 0) eqn:E2; [lia|].
  rewrite Hp, Hh. cbn [orb].
  destruct pid as [p|].
  - destruct Hpid as (Hq0 & Hp0 & phi & plo & -> & Hid).
    destruct (0 <? Z.land (Z.shiftr flags 1) 3) eqn:E3; [|lia].
    assert (Hl2 : len [phi; plo] = 2) by done. rewrite Hl2.
    destruct (2 + len topic + 2 + len payload <? 0 + 2 + len topic + 2)
      eqn:E4; [lia|].
    replace (hi :: lo :: topic ++ [phi; plo] ++ payload)
      with ((hi :: lo :: topic) ++ phi :: plo :: payload)
      by done.
    replace (0 + 2 + len topic) with (len (hi :: lo :: topic))
      by (unfold len; cbn [length]; lia).
    rewrite unpack_from_H_at. cbn [res_bind]. rewrite Hid.
    destruct (p =? 0) eqn:E5; [lia|].
    apply (f_equal Ok). f_equal.
    replace ((hi :: lo :: topic) ++ phi :: plo :: payload)
      with (((hi :: lo :: topic) ++ [phi; plo]) ++ payload)
      by (by rewrite <- app_assoc).
    replace (len (hi :: lo :: topic) + 2)
      with (len ((hi :: lo :: topic) ++ [phi; plo]))
      by (rewrite len_app; done).
    apply py_slice_from_app.
  - destruct Hpid as [Hq0 ->]. rewrite Hq0. cbn [Z.ltb Z.compare].
    apply (f_equal Ok). f_equal. cbn [app].
    replace (hi :: lo :: topic ++ payload)
      with ((hi :: lo :: topic) ++ payload) by done.
    replace (0 + 2 + len topic) with (len (hi :: lo :: topic))
      by (unfold len; cbn [length]; lia).
    apply py_slice_from_app.
Qed.

(** X21: a PUBLISH packet survives the wire: whatever [build_publish]
    returns for a non-empty topic without wildcards, [read_packet] reads
    it back from the stream as a PUBLISH frame, leaving the input that
    follows untouched, and [parse_publish] recovers the topic, the
    payload, the QoS, the retain and dup flags, and the packet id (which
    is only carried when the QoS is not 0). *)
Theorem publish_wire_roundtrip (topic payload : bytes) (qos : Z)
    (retain dup : bool) (pid : option Z) (pkt rest : bytes) :
  0 <= qos ->
  0 < len topic ->
  byte_in 43 topic = false ->
  byte_in 35 topic = false ->
  build_publish topic payload qos retain dup pid = Ok pkt ->
  exists (flags : Z) (body : bytes),
    read_packet (pkt ++ rest) = Done (PUBLISH, flags, body, rest)
    /\ parse_publish body flags
       = Ok (mkPublishData topic payload qos retain dup
               (if 0 <? qos then pid else None)).
Proof.
  intros Hq0 Hne Hp Hh Hb. unfold build_publish in Hb.
  destruct (2 <? qos) eqn:E2; [done|].
  assert (Hq : 0 <= qos <= 2) by lia.
  destruct (publish_first_byte qos retain dup Hq) as (Ht & Hdup & Hqos & Hret).
  cbv zeta in Hb, Ht, Hdup, Hqos, Hret.
  set (fb := Z.lor (Z.lor (Z.lor (Z.shiftl PUBLISH 4)
                             (Z.shiftl (py_int dup) 3)) (Z.shiftl qos 1))
               (py_int retain)) in *.
  destruct ((0 <? qos) && bool_decide (pid = None)) eqn:E3; [done|].
  destruct ((0 <? qos) && bool_decide (pid = Some 0)) eqn:E4; [done|].
  unfold encode_utf8_string in Hb.
  destruct (pack_H (len topic)) as [pre|] eqn:Epre; [|done].
  destruct (pack_H_inv _ _ Epre) as (_ & hi & lo & -> & Hl).
  cbn [res_bind] in Hb.
  match type of Hb with
  | res_bind ?r _ = _ => set (vh_r := r) in Hb
  end.
  assert (Hvh : forall vh : bytes,
             vh_r = Ok vh ->
             exists idb : bytes,
               vh = hi :: lo :: topic ++ idb
               /\ match (if 0 <? qos then pid else None) with
                  | Some p =>
                      0 < qos /\ p <> 0
                      /\ exists phi plo : Z,
                           idb = [phi; plo] /\ phi * 256 + plo = p
                  | None => qos = 0 /\ idb = []
                  end).
  { subst vh_r. destruct (0 <? qos) eqn:Eq.
    - destruct pid as [p|]; [|done].
      destruct (pack_H p) as [b|] eqn:Eb; [|done].
      destruct (pack_H_inv _ _ Eb) as (_ & phi & plo & -> & Hid).
      intros vh [= <-]. exists [phi; plo]. split; [done|].
      split; [lia|]. split; [|by eexists _, _].
      intros ->. by rewrite bool_decide_eq_true_2 in E4.
    - intros vh [= <-]. exists []. split.
      + cbn [app]. by rewrite app_nil_r.
      + split; [lia|done]. }
  destruct vh_r as [vh|]; [|done].
  destruct (Hvh vh eq_refl) as (idb & -> & Hpid). cbn [res_bind] in Hb.
  destruct (encode_remaining_length
              (len (hi :: lo :: topic ++ idb) + len payload))
    as [rlb|] eqn:Erl; [|done].
  cbn [res_bind] in Hb. injection Hb as <-.
  exists (Z.land fb 15), ((hi :: lo :: topic ++ idb) ++ payload). split.
  - rewrite <- Ht.
    rewrite <- (read_packet_frame fb _ rlb
                  ((hi :: lo :: topic ++ idb) ++ payload) rest Erl)
      by (by rewrite len_app).
    f_equal. cbn [app]. f_equal. rewrite <- (app_assoc rlb). done.
  - replace ((hi :: lo :: topic ++ idb) ++ payload)
      with (hi :: lo :: topic ++ idb ++ payload)
      by (cbn [app]; by rewrite <- app_assoc).
    rewrite (parse_publish_layout topic payload idb hi lo (Z.land fb 15)
               (if 0 <? qos then pid else None)); try done.
    + by rewrite Hdup, Hqos, Hret.
    + rewrite Hqos. lia.
    + rewrite Hqos. destruct (if 0 <? qos then pid else None); [|done].
      destruct Hpid as (? & ? & ?). by repeat split.
Qed.

Lemma publish_wire_roundtrip_witness :
  exists (flags : Z) (body : bytes),
    read_packet ([50; 9; 0; 3; 97; 47; 98; 0; 10; 1; 2] ++ [224; 0])
    = Done (PUBLISH, flags, body, [224; 0])
    /\ parse_publish body flags
       = Ok (mkPublishData (Fixtures.b_of "a/b") [1; 2] 1 false false
               (if 0 <? 1 then Some 10 else None)).
Proof.
  apply (publish_wire_roundtrip (Fixtures.b_of "a/b") [1; 2] 1 false false
           (Some 10) [50; 9; 0; 3; 97; 47; 98; 0; 10; 1; 2] [224; 0]).
  - lia.
  - reflexivity.
  - reflexivity.
  - reflexivity.
  - reflexivity.
Defined.

Lemma unpack_from_H_range (data : bytes) (offset v : Z) :
  Forall (fun x => 0 <= x <= 255) data ->
  unpack_from_H data offset = Ok v ->
  0 <= v <= 65535.
Proof.
  intros Hb. unfold unpack_from_H.
  destruct ((offset <? 0) && (offset + len data <? 0)); [done|].
  cbv zeta.
  destruct (len data - (if offset <? 0 then offset + len data else offset)
            <? 2); [done|].
  destruct (data !! Z.to_nat (if offset <? 0 then offset + len data
                              else offset)) as [hi|] eqn:E1; [|done].
  destruct (data !! Z.to_nat ((if offset <? 0 then offset + len data
                               else offset) + 1)) as [lo|] eqn:E2; [|done].
  intros [= <-].
  pose proof (Forall_lookup_1 _ _ _ _ Hb E1) as H1.
  pose proof (Forall_lookup_1 _ _ _ _ Hb E2) as H2.
  cbv beta in H1, H2. lia.
Qed.

Lemma len_py_slice {A} (l : list A) (a b : Z) :
  0 <= a <= b -> len (py_slice l a b) <= b - a.
Proof.
  intros Hab. unfold py_slice, py_clamp. pose proof (len_nonneg l).
  destruct (a <? 0) eqn:Ea; [lia|]. destruct (b <? 0) eqn:Eb; [lia|].
  unfold len at 1. rewrite length_take. lia.
Qed.

Lemma len_py_slice_from {A} (l : list A) (a : Z) :
  len (py_slice_from l a) <= len l.
Proof. unfold py_slice_from, len. rewrite length_drop. lia. Qed.

(** X22: what [parse_publish] accepts is well formed: the QoS is 0, 1 or
    2; the topic is not empty, has no wildcard and is at most 65535 bytes
    long; a packet id is present exactly when the QoS is not 0, and then
    it is in [1, 65535]; the payload is not longer than the packet. *)
Theorem parse_publish_well_formed (data : bytes) (flags : Z)
    (p : PublishData) :
  Forall (fun x => 0 <= x <= 255) data ->
  parse_publish data flags = Ok p ->
  0 <= qos p <= 2
  /\ 0 < len (topic p) <= 65535
  /\ byte_in 43 (topic p) = false
  /\ byte_in 35 (topic p) = false
  /\ (qos p = 0 -> packet_id p = None)
  /\ (0 < qos p -> exists pid : Z, packet_id p = Some pid /\ 1 <= pid <= 65535)
  /\ len (payload p) <= len data.
Proof.
  intros Hb. unfold parse_publish.
  destruct (len data <? 2); [done|]. cbv zeta.
  assert (Hq : 0 <= Z.land (Z.shiftr flags 1) 3 < 4).
  { change 3 with (Z.ones 2). rewrite Z.land_ones by lia.
    apply Z.mod_pos_bound. lia. }
  destruct (2 <? Z.land (Z.shiftr flags 1) 3) eqn:E1; [done|].
  unfold decode_utf8_string.
  destruct (unpack_from_H data 0) as [L|] eqn:EL; [|done].
  pose proof (unpack_from_H_range _ _ _ Hb EL) as HL.
  cbn [res_bind].
  pose proof (len_py_slice data (0 + 2) (0 + 2 + L) ltac:(lia)) as Hlen.
  pose proof (len_nonneg (py_slice data (0 + 2) (0 + 2 + L))) as Hlen0.
  destruct (len (py_slice data (0 + 2) (0 + 2 + L)) =? 0) eqn:E2; [done|].
  destruct (byte_in 43 (py_slice data (0 + 2) (0 + 2 + L))) eqn:Ep; [done|].
  destruct (byte_in 35 (py_slice data (0 + 2) (0 + 2 + L))) eqn:Eh; [done|].
  cbn [orb].
  destruct (0 <? Z.land (Z.shiftr flags 1) 3) eqn:E3.
  - destruct (len data <? 0 + 2 + L + 2); [done|].
    destruct (unpack_from_H data (0 + 2 + L)) as [pid|] eqn:Epid; [|done].
    pose proof (unpack_from_H_range _ _ _ Hb Epid) as Hpid.
    cbn [res_bind]. destruct (pid =? 0) eqn:E4; [done|].
    intros [= <-]. cbn [qos topic packet_id payload].
    repeat split; try done; try lia.
    + exists pid. split; [done|]. lia.
    + apply len_py_slice_from.
  - intros [= <-]. cbn [qos topic packet_id payload].
    repeat split; try done; try lia.
    apply len_py_slice_from.
Qed.

Lemma parse_publish_well_formed_witness :
  0 <= qos (mkPublishData (Fixtures.b_of "a/b") [1; 2] 1 false false (Some 10))
  <= 2
  /\ 0 < len (topic (mkPublishData (Fixtures.b_of "a/b") [1; 2] 1 false false
                       (Some 10))) <= 65535
  /\ byte_in 43 (topic (mkPublishData (Fixtures.b_of "a/b") [1; 2] 1 false
                          false (Some 10))) = false
  /\ byte_in 35 (topic (mkPublishData (Fixtures.b_of "a/b") [1; 2] 1 false
                          false (Some 10))) = false
  /\ (qos (mkPublishData (Fixtures.b_of "a/b") [1; 2] 1 false false (Some 10))
      = 0 ->
      packet_id (mkPublishData (Fixtures.b_of "a/b") [1; 2] 1 false false
                   (Some 10)) = None)
  /\ (0 < qos (mkPublishData (Fixtures.b_of "a/b") [1; 2] 1 false false
                 (Some 10)) ->
      exists pid : Z,
        packet_id (mkPublishData (Fixtures.b_of "a/b") [1; 2] 1 false false
                     (Some 10)) = Some pid
        /\ 1 <= pid <= 65535)
  /\ len (payload (mkPublishData (Fixtures.b_of "a/b") [1; 2] 1 false false
                     (Some 10)))
     <= len [0; 3; 97; 47; 98; 0; 10; 1; 2].
Proof.
  apply (parse_publish_well_formed [0; 3; 97; 47; 98; 0; 10; 1; 2] 2
           (mkPublishData (Fixtures.b_of "a/b") [1; 2] 1 false false
              (Some 10))).
  - repeat (constructor; [lia|]). constructor.
  - reflexivity.
Defined.

(** X23: [parse_publish] does not compare the declared length of the
    topic with what the packet holds.  When the length prefix announces
    more bytes than follow it, a packet with QoS bits 0 is accepted: the
    topic is what follows the prefix and the payload is empty; with QoS
    bits 1 or 2 the packet is rejected for its missing packet id. *)
Theorem parse_publish_truncated_topic (s : bytes) (hi lo flags : Z) :
  0 < len s ->
  byte_in 43 s = false ->
  byte_in 35 s = false ->
  len s < hi * 256 + lo ->
  (Z.land (Z.shiftr flags 1) 3 = 0 ->
   parse_publish (hi :: lo :: s) flags
   = Ok (mkPublishData s [] 0 (py_bool (Z.land flags 1))
           (py_bool (Z.land (Z.shiftr flags 3) 1)) None))
  /\ (0 < Z.land (Z.shiftr flags 1) 3 <= 2 ->
      parse_publish (hi :: lo :: s) flags
      = Raise (MQTTProtocolError "Missing packet ID in PUBLISH")).
Proof.
  intros Hne Hp Hh Hlong.
  assert (Hlen : len (hi :: lo :: s) = 2 + len s)
    by (unfold len; cbn [length]; lia).
  assert (Hd : decode_utf8_string (hi :: lo :: s) 0
               = Ok (s, 0 + 2 + (hi * 256 + lo))).
  { unfold decode_utf8_string.
    pose proof (unpack_from_H_at [] s hi lo) as Hu.
    cbn [app] in Hu. change (len (@nil Z)) with 0 in Hu.
    rewrite Hu. cbn [res_bind].
    apply (f_equal Ok), f_equal2; [|done].
    unfold py_slice, py_clamp. rewrite Hlen.
    destruct (0 + 2 <? 0) eqn:E1; [lia|].
    destruct (0 + 2 + (hi * 256 + lo) <? 0) eqn:E2; [lia|].
    rewrite (Z.min_r (0 + 2 + (hi * 256 + lo))), (Z.min_l (0 + 2)) by lia.
    change (Z.to_nat (0 + 2)) with 2%nat. rewrite !skipn_cons, drop_0.
    replace (Z.to_nat (2 + len s - (0 + 2))) with (length s)
      by (unfold len; lia).
    apply firstn_all. }
  assert (Hpay : py_slice_from (hi :: lo :: s) (0 + 2 + (hi * 256 + lo)) = []).
  { unfold py_slice_from, py_clamp. rewrite Hlen.
    destruct (0 + 2 + (hi * 256 + lo) <? 0) eqn:E2; [lia|].
    rewrite Z.min_r by lia. apply drop_ge. unfold len. cbn [length]. lia. }
  split; intros Hq; unfold parse_publish; rewrite Hlen.
  - destruct (2 + len s <? 2) eqn:E0; [lia|]. cbv zeta.
    rewrite Hq, Hd. cbn [Z.ltb Z.compare res_bind].
    destruct (len s =? 0) eqn:E1; [lia|]. rewrite Hp, Hh. cbn [orb].
    by rewrite Hpay.
  - destruct (2 + len s <? 2) eqn:E0; [lia|]. cbv zeta.
    destruct (2 <? Z.land (Z.shiftr flags 1) 3) eqn:E1; [lia|].
    rewrite Hd. cbn [res_bind].
    destruct (len s =? 0) eqn:E2; [lia|]. rewrite Hp, Hh. cbn [orb].
    destruct (0 <? Z.land (Z.shiftr flags 1) 3) eqn:E3; [|lia].
    destruct (2 + len s <? 0 + 2 + (hi * 256 + lo) + 2) eqn:E4; [done|lia].
Qed.

Lemma parse_publish_truncated_topic_witness :
  (Z.land (Z.shiftr 0 1) 3 = 0 ->
   parse_publish (0 :: 10 :: Fixtures.b_of "a/b") 0
   = Ok (mkPublishData (Fixtures.b_of "a/b") [] 0 (py_bool (Z.land 0 1))
           (py_bool (Z.land (Z.shiftr 0 3) 1)) None))
  /\ (0 < Z.land (Z.shiftr 0 1) 3 <= 2 ->
      parse_publish (0 :: 10 :: Fixtures.b_of "a/b") 0
      = Raise (MQTTProtocolError "Missing packet ID in PUBLISH")).
Proof.
  apply (parse_publish_truncated_topic (Fixtures.b_of "a/b") 0 10 0).
  - reflexivity.
  - reflexivity.
  - reflexivity.
  - reflexivity.
Defined.

End PublishWire.

(** ** The retained store: its invariant *)

Section RetainedStoreInvariantUse.
Import Config Retained Spec RetainedSpec Topic TopicOps.

Lemma store_ok_iff (cfg : BrokerConfig) (st : RetainedStore) :
  store_ok cfg st
  <-> lru_consistent st
      /\ count_retained (topic_tree st) <= max_retained_messages cfg.
Proof.
  unfold store_ok, lru_consistent, Retained.count.
  rewrite get_retained_count_spec. split.
  - intros (n & [= <-] & Hb & Hl & Hnd & Hm). by repeat split; try apply Hm.
  - intros ((Hnd & Hm & Hl) & Hb). eexists. by repeat split; try apply Hm.
Qed.

Lemma count_retained_navigate_create_subs
    (g : list (string * Z) -> list (string * Z)) (levels : list bytes) :
  forall node : TopicNode,
    count_retained
      (navigate_create levels
         (fun node => mkTopicNode (children node) (g (subscribers node))
                        (retained node))
         node)
    = count_retained node.
Proof.
  induction levels as [|level rest IH]; intros node.
  - cbn [navigate_create]. rewrite !count_retained_eq.
    unfold _ensure_children. by cbn [children retained].
  - cbn [navigate_create]. rewrite (count_retained_eq (mkTopicNode _ _ _)).
    rewrite ensure_children_some. cbn [retained].
    rewrite sum_retained_dict_set, IH, (count_retained_eq node).
    destruct (dict_get (_ensure_children node) level) as [c|]; [lia|].
    change (count_retained new_node) with 0. lia.
Qed.

Lemma count_retained_navigate_update (f : TopicNode -> option TopicNode)
    (levels : list bytes) :
  (forall n n' : TopicNode,
      f n = Some n' -> children n' = children n /\ retained n' = retained n) ->
  forall node node' : TopicNode,
    navigate_update levels f node = Some node' ->
    count_retained node' = count_retained node.
Proof.
  intros Hf. induction levels as [|level rest IH]; intros node node'.
  - cbn [navigate_update]. intros [Hc Hr]%Hf.
    rewrite !count_retained_eq. unfold _ensure_children. by rewrite Hc, Hr.
  - cbn [navigate_update]. unfold child.
    destruct (has_children node); [|done].
    destruct (dict_get (_ensure_children node) level) as [ch|] eqn:Ec;
      [|done].
    destruct (navigate_update rest f ch) as [ch'|] eqn:Eu; [|done].
    intros [= <-]. rewrite (count_retained_eq (mkTopicNode _ _ _)).
    rewrite ensure_children_some. cbn [retained].
    rewrite sum_retained_dict_set, Ec, (IH _ _ Eu), (count_retained_eq node).
    lia.
Qed.

Lemma unsubscribe_keeps_fields (c : string) (n n' : TopicNode) :
  (if dict_mem (subscribers n) c
   then Some (mkTopicNode (children n) (dict_del (subscribers n) c)
                (retained n))
   else None) = Some n' ->
  children n' = children n /\ retained n' = retained n.
Proof. destruct (dict_mem (subscribers n) c); [|done]. by intros [= <-]. Qed.

Lemma get_retained_subscribe (root : TopicNode) (f : bytes) (c : string)
    (q : Z) (t : bytes) :
  get_retained (subscribe root f c q) t = get_retained root t.
Proof.
  rewrite !get_retained_eq. unfold subscribe.
  apply (retained_at_navigate_create_subs (fun d => dict_set d c q)).
Qed.

Lemma get_retained_unsubscribe (root : TopicNode) (f : bytes) (c : string)
    (t : bytes) :
  get_retained (unsubscribe root f c).1 t = get_retained root t.
Proof.
  rewrite !get_retained_eq. unfold unsubscribe.
  destruct (navigate_update (_split_topic f) _ root) as [root'|] eqn:E;
    [|done].
  cbn [fst]. eapply retained_at_navigate_update; [|exact E].
  intros n n'. apply unsubscribe_keeps_fields.
Qed.

Lemma count_retained_subscribe (root : TopicNode) (f : bytes) (c : string)
    (q : Z) :
  count_retained (subscribe root f c q) = count_retained root.
Proof.
  unfold subscribe.
  apply (count_retained_navigate_create_subs (fun d => dict_set d c q)).
Qed.

Lemma count_retained_unsubscribe (root : TopicNode) (f : bytes) (c : string) :
  count_retained (unsubscribe root f c).1 = count_retained root.
Proof.
  unfold unsubscribe.
  destruct (navigate_update (_split_topic f) _ root) as [root'|] eqn:E;
    [|done].
  cbn [fst]. eapply count_retained_navigate_update; [|exact E].
  intros n n'. apply unsubscribe_keeps_fields.
Qed.

(** A change of the tree that touches no retained message keeps the
    invariant. *)
Lemma store_ok_with_tree (cfg : BrokerConfig) (st : RetainedStore)
    (tree : TopicNode) :
  (forall k, get_retained tree k = get_retained (topic_tree st) k) ->
  count_retained tree = count_retained (topic_tree st) ->
  store_ok cfg st -> store_ok cfg (with_tree st tree).
Proof.
  intros Hg Hc. rewrite !store_ok_iff. unfold lru_consistent, with_tree.
  cbn [topic_tree _lru_order]. rewrite Hc.
  intros ((Hnd & Hm & Hl) & Hb). repeat split; try done.
  - intros Hk. rewrite Hg. by apply Hm.
  - rewrite Hg. by apply Hm.
Qed.

(** [set] keeps the invariant, whatever it is called with. *)
Lemma set_keeps_store_ok (cfg : BrokerConfig) (st st' : RetainedStore)
    (topic payload : bytes) (qos : Z) (r : bool) :
  1 <= max_retained_messages cfg ->
  store_ok cfg st ->
  Retained.set cfg st topic payload qos = Ok (st', r) ->
  store_ok cfg st'.
Proof.
  intros Hcap. rewrite !store_ok_iff. intros [IHc IHb] Hset.
  destruct (retain_enabled cfg) eqn:Hen.
  - destruct (len payload =? 0) eqn:Hz.
    + unfold Retained.set in Hset. rewrite Hen, Hz in Hset.
      cbn [negb] in Hset. injection Hset as <- _.
      destruct (lru_consistent_clear st topic IHc) as [Hc Hle].
      split; [exact Hc|].
      unfold clear in Hle. cbn [topic_tree] in *. lia.
    + assert (Hp : 0 < len payload).
      { apply Z.eqb_neq in Hz. pose proof (len_nonneg payload). lia. }
      destruct (set_within_cap cfg st topic payload qos Hen Hcap Hp
                  IHc IHb) as (st'' & E & Hc & _ & Hb & _).
      rewrite E in Hset. injection Hset as <- _. done.
  - unfold Retained.set in Hset. rewrite Hen in Hset.
    cbn [negb] in Hset. injection Hset as <- _. done.
Qed.

Lemma store_ok_empty (cfg : BrokerConfig) :
  0 <= max_retained_messages cfg -> store_ok cfg Retained.empty.
Proof.
  intros Hcap. apply store_ok_iff. split; [apply lru_consistent_empty|].
  cbn. lia.
Qed.

Lemma store_ok_store_a : store_ok Samples.cfg_retained2 Samples.store_a.
Proof.
  apply (set_keeps_store_ok Samples.cfg_retained2 Retained.empty
           Samples.store_a (Fixtures.b_of "a") [1] 0 true).
  - vm_compute. discriminate.
  - apply store_ok_empty. vm_compute. discriminate.
  - vm_compute. reflexivity.
Qed.

Lemma store_ok_store_ab : store_ok Samples.cfg_retained2 Samples.store_ab.
Proof.
  apply (set_keeps_store_ok Samples.cfg_retained2 Samples.store_a
           Samples.store_ab (Fixtures.b_of "b") [2] 0 true).
  - vm_compute. discriminate.
  - apply store_ok_store_a.
  - vm_compute. reflexivity.
Qed.

Lemma store_ok_store_a_sub :
  store_ok Samples.cfg_retained2 Samples.store_a_sub.
Proof.
  apply (store_ok_with_tree Samples.cfg_retained2 Samples.store_a).
  - intros k. apply get_retained_subscribe.
  - apply count_retained_subscribe.
  - apply store_ok_store_a.
Qed.

(** X8: with a cap of at least 1 the retained store keeps its invariant
    ([store_ok]): [count()] returns a number within
    [max_retained_messages], which is the length of the LRU list, and the
    list names exactly the topics that hold a retained message, each
    once.  The invariant holds for the empty store and, for topics and
    filters that decode, is kept by [set] whenever it returns, by
    [clear(topic)], and by [subscribe] and [unsubscribe] on the tree that
    the store shares with the subscriptions. *)
Theorem retained_count_within_cap (cfg : BrokerConfig) :
  1 <= max_retained_messages cfg ->
  store_ok cfg Retained.empty
  /\ forall st : RetainedStore,
       store_ok cfg st ->
       (forall (topic payload : bytes) (qos : Z) (st' : RetainedStore)
               (r : bool),
           utf8_valid topic = true ->
           Retained.set cfg st topic payload qos = Ok (st', r) ->
           store_ok cfg st')
       /\ (forall topic : bytes,
              utf8_valid topic = true ->
              store_ok cfg (Retained.clear st topic))
       /\ (forall (f : bytes) (c : string) (q : Z),
              utf8_valid f = true ->
              store_ok cfg
                (with_tree st (subscribe (topic_tree st) f c q)))
       /\ (forall (f : bytes) (c : string),
              utf8_valid f = true ->
              store_ok cfg
                (with_tree st (unsubscribe (topic_tree st) f c).1)).
Proof.
  intros Hcap. split; [apply store_ok_empty; lia|].
  intros st Hok. split; [|split; [|split]].
  - intros topic payload qos st' r _. by apply set_keeps_store_ok.
  - intros topic _. apply store_ok_iff in Hok as [Hc Hb].
    apply store_ok_iff.
    destruct (lru_consistent_clear st topic Hc) as [Hc' Hle].
    split; [done|lia].
  - intros f c q _.
    apply store_ok_with_tree; [|apply count_retained_subscribe|done].
    intros k. apply get_retained_subscribe.
  - intros f c _.
    apply store_ok_with_tree; [|apply count_retained_unsubscribe|done].
    intros k. apply get_retained_unsubscribe.
Qed.

(** With a cap of 2: the empty store; the store holding ['a'] and ['b']
    after [clear('a')] and after a subscription to [a/#]; the store
    holding ['a'] with that subscription, after the subscription has been
    removed. *)
Lemma retained_count_within_cap_witness :
  store_ok Samples.cfg_retained2 Retained.empty
  /\ store_ok Samples.cfg_retained2
       (Retained.clear Samples.store_ab (Fixtures.b_of "a"))
  /\ store_ok Samples.cfg_retained2
       (with_tree Samples.store_ab
          (subscribe (topic_tree Samples.store_ab) (Fixtures.b_of "a/#")
             "sub" 1))
  /\ store_ok Samples.cfg_retained2
       (with_tree Samples.store_a_sub
          (unsubscribe (topic_tree Samples.store_a_sub)
             (Fixtures.b_of "a/#") "sub").1).
Proof.
  destruct (retained_count_within_cap Samples.cfg_retained2) as [He Hst].
  { vm_compute. discriminate. }
  destruct (Hst Samples.store_ab store_ok_store_ab) as (_ & Hc & Hs & _).
  destruct (Hst Samples.store_a_sub store_ok_store_a_sub)
    as (_ & _ & _ & Hu).
  split; [exact He|]. split; [apply Hc; reflexivity|].
  split; [apply Hs; reflexivity|apply Hu; reflexivity].
Defined.

(** X9: take a store that satisfies the invariant and is full, and a
    topic that decodes and holds no retained message.  [set] with a
    non-empty payload returns [True]; the topic at the head of the LRU
    list (the least recently stored one) loses its message, every other
    topic keeps its own, the new topic joins the tail of the list, and
    the count stays at the cap. *)
Theorem set_evicts_oldest (cfg : BrokerConfig) (st : RetainedStore)
    (topic payload h : bytes) (rest : list bytes) (qos : Z) :
  1 <= max_retained_messages cfg ->
  retain_enabled cfg = true ->
  0 < len payload ->
  utf8_valid topic = true ->
  store_ok cfg st ->
  get_retained (topic_tree st) topic = None ->
  Retained.count st = Ok (max_retained_messages cfg) ->
  _lru_order st = h :: rest ->
  exists st' : RetainedStore,
    Retained.set cfg st topic payload qos = Ok (st', true)
    /\ _lru_order st' = rest ++ [topic]
    /\ get_retained (topic_tree st') h = None
    /\ get_retained (topic_tree st') topic = Some (topic, payload, qos)
    /\ (forall k : bytes,
          k <> h -> k <> topic ->
          get_retained (topic_tree st') k = get_retained (topic_tree st) k)
    /\ Retained.count st' = Ok (max_retained_messages cfg).
Proof.
  intros Hcap Hen Hp _ Hok Hg Hcount El.
  apply store_ok_iff in Hok as [Hcons Hb].
  unfold Retained.count in Hcount.
  rewrite get_retained_count_spec in Hcount. injection Hcount as Hcount.
  destruct (set_evicts_lru_head cfg st topic payload h rest qos Hen Hp Hcons
              Hg ltac:(lia) El) as (st' & Hset & Hl & Hh & Hk).
  destruct (set_within_cap cfg st topic payload qos Hen Hcap Hp Hcons Hb)
    as (st'' & Hset' & Hcons' & Hcnt' & Hb' & Hget' & _).
  assert (st'' = st') as -> by congruence.
  exists st'. repeat split; try done.
  rewrite Hcnt'. f_equal.
  destruct Hcons' as (_ & _ & ->). destruct Hcons as (_ & _ & Hlen).
  rewrite Hl, <- Hcount, Hlen, El. unfold len.
  rewrite length_app. cbn [length]. lia.
Qed.

Lemma set_evicts_oldest_witness :
  exists st' : RetainedStore,
    Retained.set Samples.cfg_retained2 Samples.store_ab (Fixtures.b_of "c")
      [3] 0 = Ok (st', true)
    /\ _lru_order st' = [Fixtures.b_of "b"] ++ [Fixtures.b_of "c"]
    /\ get_retained (topic_tree st') (Fixtures.b_of "a") = None
    /\ get_retained (topic_tree st') (Fixtures.b_of "c")
       = Some (Fixtures.b_of "c", [3], 0)
    /\ (forall k : bytes,
          k <> Fixtures.b_of "a" -> k <> Fixtures.b_of "c" ->
          get_retained (topic_tree st') k
          = get_retained (topic_tree Samples.store_ab) k)
    /\ Retained.count st' = Ok (max_retained_messages Samples.cfg_retained2).
Proof.
  apply (set_evicts_oldest Samples.cfg_retained2 Samples.store_ab
           (Fixtures.b_of "c") [3] (Fixtures.b_of "a") [Fixtures.b_of "b"] 0).
  - vm_compute. discriminate.
  - reflexivity.
  - reflexivity.
  - reflexivity.
  - apply store_ok_store_ab.
  - vm_compute. reflexivity.
  - vm_compute. reflexivity.
  - reflexivity.
Defined.

(** X10: with retention enabled and a cap of at least 1, on a store that
    satisfies the invariant, [set] with a topic that decodes and a
    non-empty payload returns [True]; afterwards the topic holds exactly
    this message, it is the most recently used one, and the count is
    within the cap. *)
Theorem set_then_get (cfg : BrokerConfig) (st : RetainedStore)
    (topic payload : bytes) (qos : Z) :
  1 <= max_retained_messages cfg ->
  retain_enabled cfg = true ->
  0 < len payload ->
  utf8_valid topic = true ->
  store_ok cfg st ->
  exists (st' : RetainedStore) (n : Z),
    Retained.set cfg st topic payload qos = Ok (st', true)
    /\ get_retained (topic_tree st') topic = Some (topic, payload, qos)
    /\ last (_lru_order st') = Some topic
    /\ Retained.count st' = Ok n
    /\ n <= max_retained_messages cfg.
Proof.
  intros Hcap Hen Hp _ Hok.
  apply store_ok_iff in Hok as [Hcons Hb].
  destruct (set_within_cap cfg st topic payload qos Hen Hcap Hp Hcons Hb)
    as (st' & Hset & _ & Hcnt & Hb' & Hget & Hlast).
  by exists st', (count_retained (topic_tree st')).
Qed.

Lemma set_then_get_witness :
  exists (st' : RetainedStore) (n : Z),
    Retained.set Samples.cfg_retained2 Samples.store_a_sub
      (Fixtures.b_of "b") [2] 1 = Ok (st', true)
    /\ get_retained (topic_tree st') (Fixtures.b_of "b")
       = Some (Fixtures.b_of "b", [2], 1)
    /\ last (_lru_order st') = Some (Fixtures.b_of "b")
    /\ Retained.count st' = Ok n
    /\ n <= max_retained_messages Samples.cfg_retained2.
Proof.
  apply (set_then_get Samples.cfg_retained2 Samples.store_a_sub
           (Fixtures.b_of "b") [2] 1).
  - vm_compute. discriminate.
  - reflexivity.
  - reflexivity.
  - reflexivity.
  - apply store_ok_store_a_sub.
Defined.

End RetainedStoreInvariantUse.

(** ** The router: what every subscriber gets *)

Section RouterDelivery.
Import Config Session Broker Router RouterSpec.

























End RouterDelivery.

Section RouterDeliveryExamples.
Import Config Session Broker Router RouterSpec Fixtures.


(** With a queue bound of 0, which [validate] accepts, queueing for an
    offline subscriber with an empty queue raises [IndexError], and the
    call of [route_publish] ends there. *)
Example route_publish_zero_queue_bound :
  Config.validate Samples.cfg_queued0 = Ok tt
  /\ (route_publish full (b_of "test/topic") (b_of "hi") 1 false
        (Some "pub") Samples.broker_offline_queued0).2
     = Raise IndexError.
Proof. split; vm_compute; reflexivity. Qed.

End RouterDeliveryExamples.
